(** * slot-scanner: a shallow embedding of [mainV2.py]

    The script scrapes a booking site over a window of dates, diffs the
    slot lines it finds against the snapshot of the previous run, mails
    the new ones and overwrites the snapshot.

    Layout
    - [Py]        the pieces of the Python runtime the script calls:
                  text as code points, [str.strip], [str.splitlines],
                  [str.join], [int], comparison and [sorted];
    - [Datetime]  [datetime.date] arithmetic, [strftime], [strptime];
    - [Soup]      the parsed document and the BeautifulSoup queries;
    - the script itself, function by function, under the names it has
      in the source;
    - the properties. *)

From Stdlib Require Import ZArith NArith Ascii String Lia.
From stdpp Require Import base decidable option list list_numbers sorting countable gmap.

(* ===================================================================== *)
(** ** Python text *)
(* ===================================================================== *)

Module Py.

(** A [str] is a sequence of Unicode code points. The text of a run
    comes out of a parsed document or a decoded file, so it holds no
    lone surrogate: encoding it as UTF-8 is left implicit, and a file
    holds the text that was written to it. *)
Definition str : Type := list N.

(** ASCII literals of the source. *)
Fixpoint lit (s : string) : str :=
  match s with
  | EmptyString => []
  | String a s' => N_of_ascii a :: lit s'
  end.

(** [Py_UNICODE_ISSPACE]: the test behind [str.strip], [str.split] and
    the [\s] class of [re] on text patterns. *)
Definition isspace (c : N) : bool :=
  ((9 <=? c) && (c <=? 13) || (28 <=? c) && (c <=? 32) || (c =? 133)
   || (c =? 160) || (c =? 5760) || (8192 <=? c) && (c <=? 8202)
   || (c =? 8232) || (c =? 8233) || (c =? 8239) || (c =? 8287)
   || (c =? 12288))%N.

(** Code points at which the decimal digits 0..9 of a script start
    (general category Nd; Unicode 14, the database of CPython 3.11). *)
Definition decimal_zeros : list N :=
  [48; 1632; 1776; 1984; 2406; 2534; 2662; 2790; 2918; 3046; 3174; 3302;
   3430; 3558; 3664; 3792; 3872; 4160; 4240; 6112; 6160; 6470; 6608; 6784;
   6800; 6992; 7088; 7232; 7248; 42528; 43216; 43264; 43472; 43504; 43600;
   44016; 65296; 66720; 68912; 69734; 69872; 69942; 70096; 70384; 70736;
   70864; 71248; 71360; 71472; 71904; 72016; 72784; 73040; 73120; 92768;
   92864; 93008; 120782; 120792; 120802; 120812; 120822; 123200; 123632;
   125264; 130032]%N.

(** [Py_UNICODE_TODECIMAL]: the value of a decimal digit, if it is one. *)
Fixpoint decimal_in (zeros : list N) (c : N) : option N :=
  match zeros with
  | [] => None
  | z :: zs => if ((z <=? c) && (c <? z + 10))%N then Some (c - z)%N
               else decimal_in zs c
  end.

Definition decimal (c : N) : option N := decimal_in decimal_zeros c.

(** The [\d] class of [re] on text patterns. *)
Definition isdecimal (c : N) : bool :=
  match decimal c with Some _ => true | None => false end.

(** [str.lstrip()], [str.rstrip()], [str.strip()] without argument. *)
Fixpoint lstrip (s : str) : str :=
  match s with
  | [] => []
  | c :: s' => if isspace c then lstrip s' else s
  end.

Fixpoint rstrip (s : str) : str :=
  match s with
  | [] => []
  | c :: s' =>
      match rstrip s' with
      | [] => if isspace c then [] else [c]
      | r => c :: r
      end
  end.

Definition strip (s : str) : str := rstrip (lstrip s).

(** [s.replace(old, new)] for one-character [old] and [new]. *)
Definition replace1 (old new : N) (s : str) : str :=
  (fun c => if (c =? old)%N then new else c) <$> s.

(** [sep.join(parts)]. *)
Fixpoint join (sep : str) (parts : list str) : str :=
  match parts with
  | [] => []
  | [p] => p
  | p :: ps => p ++ sep ++ join sep ps
  end.

(** The line boundaries of [str.splitlines]. *)
Definition islinebreak (c : N) : bool :=
  ((10 <=? c) && (c <=? 13) || (28 <=? c) && (c <=? 30) || (c =? 133)
   || (c =? 8232) || (c =? 8233))%N.

(** [str.splitlines()]: [cur] is the line being read, last character
    first. A line ends at a boundary (CR LF counts as one); nothing is
    produced for an empty rest after the last boundary. *)
Fixpoint splitlines_from (cur : str) (s : str) : list str :=
  match s with
  | [] => match cur with [] => [] | _ => [reverse cur] end
  | c :: s' =>
      if islinebreak c then
        reverse cur ::
          match s' with
          | 10%N :: s'' => if (c =? 13)%N then splitlines_from [] s''
                           else splitlines_from [] s'
          | _ => splitlines_from [] s'
          end
      else splitlines_from (c :: cur) s'
  end.

Definition splitlines (s : str) : list str := splitlines_from [] s.

(** Comparison of text: by code point, a proper prefix first. *)
Fixpoint str_leb (a b : str) : bool :=
  match a, b with
  | [], _ => true
  | _ :: _, [] => false
  | x :: a', y :: b' =>
      if (x <? y)%N then true
      else if (x =? y)%N then str_leb a' b'
      else false
  end.

Definition str_le (a b : str) : Prop := str_leb a b = true.
Definition str_lt (a b : str) : Prop := str_le a b ∧ a ≠ b.

#[global] Instance str_le_dec : RelDecision str_le.
Proof. intros a b. unfold str_le. apply _. Defined.

(** [sorted(xs)] on a list of text, and on a set of text. The order is
    total, so the result on a set does not depend on the order in which
    the set is enumerated. *)
Definition sorted (xs : list str) : list str := merge_sort str_le xs.
Definition sorted_set (xs : gset str) : list str := sorted (elements xs).

(** Exceptions the script can meet, each with the place that raises. *)
Inductive exn : Type :=
  | ValueError (site : string)
  | AttributeError (site : string)
  | OverflowError (site : string)
  | KeyError (key : string)
  | TypeError (site : string)
  | FileNotFoundError
  | External (what : string).

Inductive result (A : Type) : Type :=
  | Ok (a : A)
  | Raise (e : exn).
Arguments Ok {A} a.
Arguments Raise {A} e.

Definition bind {A B} (r : result A) (k : A → result B) : result B :=
  match r with
  | Ok a => k a
  | Raise e => Raise e
  end.

#[global] Instance result_bind : MBind result := λ A B k r, bind r k.
#[global] Instance result_ret : MRet result := λ A a, Ok a.

(** Evaluation of a list comprehension whose element expression can
    raise: left to right, the first exception ends it. *)
Fixpoint traverse {A B} (f : A → result B) (xs : list A) : result (list B) :=
  match xs with
  | [] => Ok []
  | x :: xs' =>
      bind (f x) (fun y => bind (traverse f xs') (fun ys => Ok (y :: ys)))
  end.

(** [int(s)] on text, base 10.  The text is first mapped to ASCII
    ([_PyUnicode_TransformDecimalAndSpaceToASCII]: code points below 127
    stay, other whitespace becomes a space, other decimal digits become
    ASCII digits, anything else [?]); then blanks are skipped on both
    sides, a sign is read, and digits follow in which single underscores
    may separate two digits. *)
Definition to_ascii (c : N) : N :=
  if (c <? 127)%N then c
  else if isspace c then 32%N
  else match decimal c with Some d => (48 + d)%N | None => 63%N end.

Definition c_isspace (c : N) : bool :=
  ((9 <=? c) && (c <=? 13) || (c =? 32))%N.

Definition c_isdigit (c : N) : bool := ((48 <=? c) && (c <=? 57))%N.

Fixpoint skip_blanks (s : str) : str :=
  match s with
  | c :: s' => if c_isspace c then skip_blanks s' else s
  | [] => []
  end.

(** Digits after the first one: [after_digit] tells whether the last
    character read was a digit (an underscore needs one on each side). *)
Fixpoint digits_from (acc : Z) (after_digit : bool) (s : str) : option Z :=
  match s with
  | [] => if after_digit then Some acc else None
  | c :: s' =>
      if c_isdigit c then digits_from (10 * acc + Z.of_N (c - 48)) true s'
      else if (c =? 95)%N then
        if after_digit then digits_from acc false s' else None
      else if after_digit then
        match skip_blanks s with [] => Some acc | _ => None end
      else None
  end.

Definition unsigned_int (s : str) : option Z :=
  match s with
  | c :: _ => if c_isdigit c then digits_from 0 false s else None
  | [] => None
  end.

Definition int (s : str) : option Z :=
  match skip_blanks (to_ascii <$> s) with
  | 43%N :: s' => unsigned_int s'
  | 45%N :: s' => Z.opp <$> unsigned_int s'
  | s' => unsigned_int s'
  end.

End Py.
Export Py.

(* ===================================================================== *)
(** ** [datetime]: dates, day arithmetic, formatting and parsing *)
(* ===================================================================== *)

Module Datetime.

Local Open Scope Z_scope.

(** A [datetime.date]: proleptic Gregorian year, month and day. *)
Record date : Type := Date { year : Z; month : Z; day : Z }.

Definition MINYEAR : Z := 1.
Definition MAXYEAR : Z := 9999.
(** [date.max.toordinal()]. *)
Definition MAXORDINAL : Z := 3652059.

Definition is_leap (y : Z) : bool :=
  (y mod 4 =? 0) && (negb (y mod 100 =? 0) || (y mod 400 =? 0)).

Definition DAYS_IN_MONTH : list Z :=
  [-1; 31; 28; 31; 30; 31; 30; 31; 31; 30; 31; 30; 31].
Definition DAYS_BEFORE_MONTH : list Z :=
  [-1; 0; 31; 59; 90; 120; 151; 181; 212; 243; 273; 304; 334].

Definition days_before_year (y : Z) : Z :=
  let y := y - 1 in y * 365 + y / 4 - y / 100 + y / 400.

Definition days_in_month (y m : Z) : Z :=
  if (m =? 2) && is_leap y then 29 else DAYS_IN_MONTH !!! Z.to_nat m.

Definition days_before_month (y m : Z) : Z :=
  DAYS_BEFORE_MONTH !!! Z.to_nat m
  + (if (2 <? m) && is_leap y then 1 else 0).

(** [date.toordinal()]: 1 for 0001-01-01. *)
Definition ymd2ord (d : date) : Z :=
  days_before_year (year d) + days_before_month (year d) (month d) + day d.

Definition DI400Y : Z := 146097.
Definition DI100Y : Z := 36524.
Definition DI4Y : Z := 1461.

(** [date.fromordinal(n)]. *)
Definition ord2ymd (n : Z) : date :=
  let n := n - 1 in
  let n400 := n / DI400Y in
  let n := n mod DI400Y in
  let y := n400 * 400 + 1 in
  let n100 := n / DI100Y in
  let n := n mod DI100Y in
  let n4 := n / DI4Y in
  let n := n mod DI4Y in
  let n1 := n / 365 in
  let n := n mod 365 in
  let y := y + n100 * 100 + n4 * 4 + n1 in
  if (n1 =? 4) || (n100 =? 4) then Date (y - 1) 12 31
  else
    let leapyear := (n1 =? 3) && (negb (n4 =? 24) || (n100 =? 3)) in
    let m := Z.shiftr (n + 50) 5 in
    let preceding :=
      DAYS_BEFORE_MONTH !!! Z.to_nat m
      + (if (2 <? m) && leapyear then 1 else 0) in
    if n <? preceding then
      let m := m - 1 in
      let preceding :=
        preceding
        - (DAYS_IN_MONTH !!! Z.to_nat m
           + (if (m =? 2) && leapyear then 1 else 0)) in
      Date y m (n - preceding + 1)
    else Date y m (n - preceding + 1).

(** [d + timedelta(days=n)].  Out of the range of [date] the sum raises
    [OverflowError] (so does [timedelta] itself for a count of days it
    cannot hold, which is beyond the range of [date] as well). *)
Definition date_add_days (d : date) (n : Z) : result date :=
  let o := ymd2ord d + n in
  if (0 <? o) && (o <=? MAXORDINAL) then Ok (ord2ymd o)
  else Raise (OverflowError "date value out of range").

(** Decimal rendering of the fields. *)
Definition digit (n : Z) : N := (48 + Z.to_N (n mod 10))%N.

Definition two_digits (n : Z) : str := [digit (n / 10); digit n].

Fixpoint drop_zeros (s : str) : str :=
  match s with
  | 48%N :: (_ :: _) as s' => drop_zeros s'
  | _ => s
  end.

(** [%Y] as the C library prints it: the year in decimal, not padded. *)
Definition year_digits (y : Z) : str :=
  drop_zeros [digit (y / 1000); digit (y / 100); digit (y / 10); digit y].

(** [d.strftime("%Y-%m-%d")]. *)
Definition strftime_Y_m_d (d : date) : str :=
  year_digits (year d) ++ [45%N] ++ two_digits (month d) ++ [45%N]
  ++ two_digits (day d).

(** *** [datetime.strptime(s, "%B %d, %Y")]

    [_strptime] turns the format into the regular expression
    [(?P<B>january|...|december)\s+(?P<d>3[0-1]|[1-2]\d|0[1-9]|[1-9]| [1-9]),\s+(?P<Y>\d\d\d\d)]
    matched at the start of the text, letters case-insensitively; text
    left over after the match, a month name that is not one of the
    twelve once lowered, and a day or year outside the calendar all
    raise [ValueError]. *)

Definition lower (c : N) : N :=
  if ((65 <=? c) && (c <=? 90))%N then (c + 32)%N else c.

Definition month_names : list (Z * str) :=
  [(1, lit "january"); (2, lit "february"); (3, lit "march");
   (4, lit "april"); (5, lit "may"); (6, lit "june"); (7, lit "july");
   (8, lit "august"); (9, lit "september"); (10, lit "october");
   (11, lit "november"); (12, lit "december")].

(** The rest of [s] after [name], when [s] starts with it. *)
Fixpoint after_name (name s : str) : option str :=
  match name, s with
  | [], _ => Some s
  | a :: name', c :: s' =>
      if (lower c =? a)%N then after_name name' s' else None
  | _ :: _, [] => None
  end.

Fixpoint match_month (names : list (Z * str)) (s : str) : option (Z * str) :=
  match names with
  | [] => None
  | (m, name) :: names' =>
      match after_name name s with
      | Some rest => Some (m, rest)
      | None => match_month names' s
      end
  end.

(** [\s+]. *)
Definition spaces1 (s : str) : option str :=
  match s with
  | c :: s' => if isspace c then Some (lstrip s') else None
  | [] => None
  end.

(** The two-character and one-character alternatives of [%d]. *)
Definition day2 (c1 c2 : N) : option Z :=
  if ((c1 =? 51) && ((c2 =? 48) || (c2 =? 49)))%N
  then Some (30 + Z.of_N (c2 - 48))
  else if ((c1 =? 49) || (c1 =? 50))%N then
    match decimal c2 with
    | Some v => Some (10 * Z.of_N (c1 - 48) + Z.of_N v)
    | None => None
    end
  else if ((c1 =? 48) && (49 <=? c2) && (c2 <=? 57))%N
  then Some (Z.of_N (c2 - 48))
  else None.

Definition day1 (c1 : N) : option Z :=
  if ((49 <=? c1) && (c1 <=? 57))%N then Some (Z.of_N (c1 - 48)) else None.

(** [%d] followed by the comma of the format. *)
Definition match_day_comma (s : str) : option (Z * str) :=
  match s with
  | c1 :: c2 :: rest =>
      match day2 c1 c2, rest with
      | Some d, 44%N :: rest' => Some (d, rest')
      | _, _ =>
          match day1 c1 with
          | Some d => if (c2 =? 44)%N then Some (d, rest) else None
          | None => None
          end
      end
  | _ => None
  end.

(** [%Y]: four decimal digits of any script. *)
Definition match_year (s : str) : option (Z * str) :=
  match s with
  | a :: b :: c :: d :: rest =>
      match decimal a, decimal b, decimal c, decimal d with
      | Some a, Some b, Some c, Some d =>
          Some (1000 * Z.of_N a + 100 * Z.of_N b + 10 * Z.of_N c + Z.of_N d,
                rest)
      | _, _, _, _ => None
      end
  | _ => None
  end.

Definition parse_B_d_Y (s : str) : option (date * str) :=
  '(m, s) ← match_month month_names s;
  s ← spaces1 s;
  '(d, s) ← match_day_comma s;
  s ← spaces1 s;
  '(y, s) ← match_year s;
  Some (Date y m d, s).

Definition valid_date (d : date) : bool :=
  (MINYEAR <=? year d) && (year d <=? MAXYEAR)
  && (1 <=? month d) && (month d <=? 12)
  && (1 <=? day d) && (day d <=? days_in_month (year d) (month d)).

Definition strptime_B_d_Y (s : str) : result date :=
  match parse_B_d_Y s with
  | None => Raise (ValueError "time data does not match format")
  | Some (d, rest) =>
      match rest with
      | _ :: _ => Raise (ValueError "unconverted data remains")
      | [] =>
          if valid_date d then Ok d
          else Raise (ValueError "date out of range")
      end
  end.

End Datetime.
Export Datetime.

(* ===================================================================== *)
(** ** BeautifulSoup: the parsed document and its queries *)
(* ===================================================================== *)

Module Soup.

(** A parsed document: text nodes and elements with their [class]
    attribute split into its values. *)
#[warnings="-register-all"]
Inductive node : Type :=
  | Text (s : str)
  | Tag (name : str) (classes : list str) (contents : list node).

(** Document order: a node, then its contents, each with its own. *)
Fixpoint preorder (n : node) : list node :=
  n :: match n with
       | Text _ => []
       | Tag _ _ cs =>
           (fix each (l : list node) : list node :=
              match l with
              | [] => []
              | c :: l' => preorder c ++ each l'
              end) cs
       end.

Definition descendants (n : node) : list node := drop 1 (preorder n).

(** An element as the script holds it: a node of a document, with the
    place it has there (BeautifulSoup's elements know their document). *)
Record tag : Type := { doc : node; pos : nat; self : node }.

Definition text_of (n : node) : option str :=
  match n with Text s => Some s | Tag _ _ _ => None end.

(** [t.get_text()]: the text nodes under [t], concatenated. *)
Definition get_text (n : node) : str :=
  concat (omap text_of (preorder n)).

(** [t.get_text(strip=True)]: each text node stripped, the ones that
    are left empty dropped. *)
Definition get_text_strip (n : node) : str :=
  concat (filter (λ s, s ≠ []) (strip <$> omap text_of (preorder n))).

(** The compound selector [name.c1.c2...]. *)
Definition matches (name : str) (cls : list str) (n : node) : bool :=
  match n with
  | Text _ => false
  | Tag nm have _ =>
      bool_decide (nm = name) && forallb (λ c, bool_decide (c ∈ have)) cls
  end.

(** [t.select_one(sel)]: the first element under [t] in document order
    that matches. *)
Definition select_one (t : node) (name : str) (cls : list str) : option node :=
  head (filter (λ n, matches name cls n = true) (descendants t)).

(** [soup.select(sel)]: every element under the root that matches, in
    document order. *)
Definition select (soup : node) (name : str) (cls : list str) : list tag :=
  omap (λ '(i, n), if matches name cls n
                   then Some {| doc := soup; pos := i; self := n |}
                   else None)
       (drop 1 (imap pair (preorder soup))).

Definition named (name : str) (n : node) : bool :=
  match n with
  | Text _ => false
  | Tag nm _ _ => bool_decide (nm = name)
  end.

(** [t.find_previous(name)]: walking back from [t] through everything
    that comes before it in document order (its ancestors included),
    the first element called [name]. *)
Definition find_previous (t : tag) (name : str) : option node :=
  head (filter (λ n, named name n = true)
               (reverse (take (pos t) (preorder (doc t))))).

End Soup.
Export Soup.

(* ===================================================================== *)
(** ** The script *)
(* ===================================================================== *)

(** *** Config: the module's globals, read from the environment *)

(** [bool(x)] for an optional text: [None] and the empty text are false. *)
Definition truthy (v : option str) : bool :=
  match v with
  | None | Some [] => false
  | Some (_ :: _) => true
  end.

Definition SMTP_KEYS : list string :=
  ["SMTP_HOST"; "SMTP_PORT"; "SMTP_USER"; "SMTP_PASS"; "SMTP_TO"]%string.

Record Globals : Type := {
  EMAIL : option str;
  PASSWORD : option str;
  DATE_WINDOW_DAYS : Z;
  SEARCH_WAIT_MS : Z;
  SEARCH_ATTEMPTS : Z;
  SMTP : gmap string (option str);
  VERBOSE : bool
}.

(** [int(os.getenv(name, default))]. *)
Definition getenv_int (getenv : string → option str) (name : string)
    (default : string) : result Z :=
  match int (from_option id (lit default) (getenv name)) with
  | Some n => Ok n
  | None => Raise (ValueError "invalid literal for int()")
  end.

(** [{k: os.getenv(k) for k in ("SMTP_HOST", ..., "SMTP_TO")}]. *)
Definition SMTP_from (getenv : string → option str) : gmap string (option str) :=
  list_to_map ((λ k, (k, getenv k)) <$> SMTP_KEYS).
Global Arguments SMTP_from : simpl never.

(** The assignments at the top of the module, in their order. *)
Definition load_globals (getenv : string → option str) : result Globals :=
  days ← getenv_int getenv "DATE_WINDOW_DAYS" "57";
  wait ← getenv_int getenv "SEARCH_WAIT_MS" "2500";
  attempts ← getenv_int getenv "SEARCH_ATTEMPTS" "2";
  let smtp := SMTP_from getenv in
  verbose ← getenv_int getenv "VERBOSE" "0";
  Ok {| EMAIL := getenv "LOGIN_EMAIL"%string;
        PASSWORD := getenv "LOGIN_PASSWORD"%string;
        DATE_WINDOW_DAYS := days;
        SEARCH_WAIT_MS := wait;
        SEARCH_ATTEMPTS := attempts;
        SMTP := smtp;
        VERBOSE := negb (verbose =? 0)%Z |}.

(** *** The two regular expressions *)

(** [_WS_RE.sub(" ", s)] for [_WS_RE = \s+]: every maximal run of
    whitespace becomes one space. [in_run] tells whether the character
    before was whitespace. *)
Fixpoint _WS_RE_sub_from (in_run : bool) (s : str) : str :=
  match s with
  | [] => []
  | c :: s' =>
      if isspace c then
        if in_run then _WS_RE_sub_from true s'
        else 32%N :: _WS_RE_sub_from true s'
      else c :: _WS_RE_sub_from false s'
  end.

Definition _WS_RE_sub (s : str) : str := _WS_RE_sub_from false s.

(** [\d{2}:\d{2}] at the start of [s]: the group and what follows. *)
Definition match_hh_mm (s : str) : option (str * str) :=
  match s with
  | a :: b :: 58%N :: c :: d :: rest =>
      if isdecimal a && isdecimal b && isdecimal c && isdecimal d
      then Some ([a; b; 58%N; c; d], rest)
      else None
  | _ => None
  end.

(** [(\d{2}:\d{2})\s*-\s*(\d{2}:\d{2})] at the start of [s]. Neither a
    hyphen nor a digit is whitespace, so the greedy [\s*] never has to
    give a character back. *)
Definition _TIME_RE_match (s : str) : option (str * str) :=
  '(start, s) ← match_hh_mm s;
  match lstrip s with
  | 45%N :: s => '(stop, _) ← match_hh_mm (lstrip s); Some (start, stop)
  | _ => None
  end.

(** [_TIME_RE.search(s)]: the groups of the leftmost match. *)
Fixpoint _TIME_RE_search (s : str) : option (str * str) :=
  match _TIME_RE_match s with
  | Some groups => Some groups
  | None =>
      match s with
      | [] => None
      | _ :: s' => _TIME_RE_search s'
      end
  end.

(** [str(n)] for a count. *)
Fixpoint digits_of (fuel : nat) (n : N) (acc : str) : str :=
  match fuel with
  | O => acc
  | S fuel' =>
      let acc := (48 + n mod 10)%N :: acc in
      if (n <? 10)%N then acc else digits_of fuel' (n / 10)%N acc
  end.

Definition str_of_nat (n : nat) : str :=
  digits_of (S (N.size_nat (N.of_nat n))) (N.of_nat n) [].

Definition dq : str := [34%N].
Definition NL : str := [10%N].

(** [range(n)]. *)
Definition range (n : Z) : list Z := seqZ 0 n.

(** *** What the script talks to *)

(** Calls on the Playwright page and browser. *)
Inductive page_call : Type :=
  | Start
  | Launch
  | NewPage
  | Goto (url : str)
  | Url
  | Fill (selector : str) (value : option str)
  | Click (selector : str)
  | WaitForUrl (url : str)
  | SelectOption (selector value : str)
  | WaitForSelector (selector : str)
  | WaitForTimeout (ms : Z)
  | Content
  | CloseBrowser
  | Stop.

Record EmailMessage : Type := {
  Subject : str;
  From : str;
  To : str;
  content : str
}.

(** Actions on the network to the mail relay. *)
Inductive smtp_call : Type :=
  | Connect (host : str) (port : Z)
  | StartTLS
  | Login (user password : str)
  | SendMessage (msg : EmailMessage)
  | Quit.

(** The state a run reads and leaves behind: the calendar day, the
    snapshot file ([None] when it does not exist), the calls made on
    the browser and on the mail relay so far, and the console. *)
Record World : Type := {
  clock : date;
  snapshot : option str;
  page_log : list page_call;
  wire : list smtp_call;
  stdout : list str
}.

(** A step of the run: it ends with a value or an exception, and
    leaves a world either way. *)
Definition M (A : Type) : Type := World → result A * World.

#[global] Instance M_ret : MRet M := λ A a w, (Ok a, w).
#[global] Instance M_bind : MBind M := λ A B k c w,
  match c w with
  | (Ok a, w') => k a w'
  | (Raise e, w') => (Raise e, w')
  end.

Definition lift {A} (r : result A) : M A := λ w, (r, w).

(** [try: c  except <caught>: h]. *)
Definition try_except {A} (c : M A) (caught : exn → bool) (h : M A) : M A :=
  λ w, match c w with
       | (Raise e, w') => if caught e then h w' else (Raise e, w')
       | ok => ok
       end.

(** [with ...: c], leaving through [cleanup] on both ways out; an
    exception of the cleanup replaces the outcome. *)
Definition finally {A} (c : M A) (cleanup : M unit) : M A :=
  λ w, let '(r, w1) := c w in
       match cleanup w1 with
       | (Ok _, w2) => (r, w2)
       | (Raise e, w2) => (Raise e, w2)
       end.

(** [print(line)]: the line goes to standard output. The stream is
    taken to encode every character, as a UTF-8 stream does; on a
    stream that does not, [print] raises [UnicodeEncodeError] for the
    lines of the module that hold a character outside its encoding
    (lines 122, 137, 191 and 205), and that way out is not part of
    the model. *)
Definition print (line : str) : M unit :=
  λ w, (Ok (), {| clock := clock w; snapshot := snapshot w;
                  page_log := page_log w; wire := wire w;
                  stdout := stdout w ++ [line] |}).

Definition date_today : M date := λ w, (Ok (clock w), w).

(** Reading in text mode turns CR LF and a lone CR into LF. *)
Fixpoint universal_newlines (s : str) : str :=
  match s with
  | [] => []
  | c :: s' =>
      if (c =? 13)%N then
        10%N :: match s' with
                | 10%N :: s'' => universal_newlines s''
                | _ => universal_newlines s'
                end
      else c :: universal_newlines s'
  end.

(** [SNAP_PATH.read_text(encoding="utf-8")]. *)
Definition read_text : M str :=
  λ w, match snapshot w with
       | Some text => (Ok (universal_newlines text), w)
       | None => (Raise FileNotFoundError, w)
       end.

(** [SNAP_PATH.write_text(text, encoding="utf-8")]. *)
Definition write_text (text : str) : M unit :=
  λ w, (Ok (), {| clock := clock w; snapshot := Some text;
                  page_log := page_log w; wire := wire w;
                  stdout := stdout w |}).

(** *** The functions of the module *)

Section Script.

(** [unicodedata.normalize("NFC", s)]. *)
Variable nfc : str → str.
(** [BeautifulSoup(html, "lxml")]. *)
Variable lxml : str → node.
(** The browser and the site behind it: what a call answers after the
    calls made before it. *)
Variable browser : list page_call → page_call → result str.
(** The mail relay, in the same way. *)
Variable relay : list smtp_call → smtp_call → result unit.
(** [email.policy.default]: storing a header parses its value, which
    the policy can refuse (a value of several lines, an address it
    cannot read). *)
Variable header_store_parse : string → str → result unit.
(** The globals of the module. *)
Variable G : Globals.

Definition BASE : str := lit "https://ravenair.volanti.club".
Definition TYPE_VAL : str := lit "5".
Definition COURSE_VAL : str := lit "3".

Definition _canonical (s : str) : str :=
  let s := nfc s in
  let s := replace1 8212 45 (replace1 8211 45 s) in
  let s := _WS_RE_sub s in
  strip s.

Definition _normalise_date (raw : str) : result str :=
  d ← strptime_B_d_Y (strip raw);
  Ok (strftime_Y_m_d d).

Definition _card_to_line (card_div : tag) : result (option str) :=
  let date_span :=
    select_one (self card_div) (lit "span") [lit "text-gray-400"; lit "text-sm"] in
  let time_span :=
    select_one (self card_div) (lit "span") [lit "font-semibold"; lit "text-xl"] in
  match date_span, time_span with
  | Some date_span, Some time_span =>
      match _TIME_RE_search (get_text time_span) with
      | None => Ok None
      | Some (start, stop) =>
          date_iso ← _normalise_date (get_text date_span);
          heading ←
            match find_previous card_div (lit "h3") with
            | Some h3 => Ok (get_text_strip h3)
            | None =>
                Raise (AttributeError "'str' object has no attribute 'get_text'")
            end;
          let title :=
            match heading with
            | [] => lit "Unknown booking"
            | _ :: _ => heading
            end in
          Ok (Some (_canonical (date_iso ++ lit " " ++ start ++ lit "-" ++ stop
                                ++ lit " - " ++ title)))
      end
  | _, _ => Ok None
  end.

(** [filter(None, lines)]: what is [None] or empty goes. *)
Definition filter_None (lines : list (option str)) : list str :=
  omap (λ o, match o with
             | Some (c :: s) => Some (c :: s)
             | _ => None
             end) lines.

Definition html_to_lines (html : str) : result (list str) :=
  let soup := lxml html in
  let cards := select soup (lit "div") [lit "p-6"; lit "flex"] in
  lines ← traverse _card_to_line cards;
  Ok (sorted_set (list_to_set (filter_None lines))).

(** A call on the page: it is logged, and the browser answers. *)
Definition page (c : page_call) : M str :=
  λ w, (browser (page_log w) c,
        {| clock := clock w; snapshot := snapshot w;
           page_log := page_log w ++ [c]; wire := wire w;
           stdout := stdout w |}).

Fixpoint startswith (s prefix : str) : bool :=
  match prefix, s with
  | [], _ => true
  | p :: prefix', c :: s' => (c =? p)%N && startswith s' prefix'
  | _ :: _, [] => false
  end.

Definition _login : M unit :=
  page (Goto (BASE ++ lit "/auth/login"));;
  url ← page Url;
  if startswith url (BASE ++ lit "/me") then mret ()
  else
    page (Fill (lit "input[name=" ++ dq ++ lit "email" ++ dq ++ lit "]") (EMAIL G));;
    page (Fill (lit "input[name=" ++ dq ++ lit "password" ++ dq ++ lit "]") (PASSWORD G));;
    page (Click (lit "button[type=" ++ dq ++ lit "submit" ++ dq ++ lit "]"));;
    page (WaitForUrl (BASE ++ lit "/me"));;
    mret ().

Definition _prepare_search : M unit :=
  page (Goto (BASE ++ lit "/bookings/search"));;
  page (SelectOption (lit "select#data\.type") TYPE_VAL);;
  page (SelectOption (lit "select#data\.course") COURSE_VAL);;
  mret ().

Definition _select_date_safe (iso_date : str) : M bool :=
  let opt_sel :=
    lit "select#data\.date option[value=" ++ dq ++ iso_date ++ dq ++ lit "]" in
  try_except
    (page (WaitForSelector opt_sel);;
     page (SelectOption (lit "select#data\.date") iso_date);;
     mret true)
    (λ _, true)
    (mret false).

(** The polling loop of [_lines_for_date]: [left] iterations remain,
    [attempt] is the loop variable. When the range is used up without a
    [break] the result is the empty set [lines] started as. *)
Fixpoint poll (left : nat) (attempt : Z) : M (gset str) :=
  match left with
  | O => mret ∅
  | S left' =>
      page (WaitForTimeout (SEARCH_WAIT_MS G));;
      html ← page Content;
      found ← lift (html_to_lines html);
      let new : gset str := list_to_set found in
      if negb (bool_decide (new = ∅)) || (attempt =? SEARCH_ATTEMPTS G - 1)%Z
      then mret new
      else poll left' (attempt + 1)%Z
  end.

Definition _lines_for_date (iso_date : str) : M (gset str) :=
  _prepare_search;;
  ok ← _select_date_safe iso_date;
  if negb ok then
    (if VERBOSE G
     then print ([9197%N] ++ lit "  skipping " ++ iso_date ++ lit " (not in picker)")
     else mret ());;
    mret ∅
  else
    page (Click (lit "button:has-text(" ++ dq ++ lit "Search" ++ dq ++ lit ")"));;
    lines ← poll (Z.to_nat (SEARCH_ATTEMPTS G)) 0%Z;
    (if VERBOSE G
     then print ([10003%N] ++ lit " " ++ iso_date ++ lit ": "
                 ++ str_of_nat (size lines) ++ lit " line(s)")
     else mret ());;
    mret lines.

(** [[(today + timedelta(days=i)).strftime("%Y-%m-%d")
      for i in range(DATE_WINDOW_DAYS + 1)]]. *)
Definition iso_dates (today : date) : result (list str) :=
  traverse (λ i, d ← date_add_days today i; Ok (strftime_Y_m_d d))
           (range (DATE_WINDOW_DAYS G + 1)).

(** [for iso in iso_dates: seen.update(await _lines_for_date(page, iso))],
    which is lines 154 and 155 with the parenthesis of [seen.update(]
    closed at the end of line 155. The module has that line without
    the closing parenthesis ([line_155] below), and as it stands it
    does not compile: [for_each_date], and
    [fetch_all_slots] and [main] which run it, are the module as it
    reads once that one character is supplied. *)
Fixpoint for_each_date (seen : gset str) (dates : list str) : M (gset str) :=
  match dates with
  | [] => mret seen
  | iso :: dates' =>
      lines ← _lines_for_date iso;
      for_each_date (seen ∪ lines) dates'
  end.

(** Lines 141 to 160, line 155 read as in [for_each_date]. *)
Definition fetch_all_slots : M (list str) :=
  today ← date_today;
  dates ← lift (iso_dates today);
  page Start;;
  seen ← finally
           (page Launch;;
            page NewPage;;
            _login;;
            seen ← for_each_date ∅ dates;
            page CloseBrowser;;
            mret seen)
           (page Stop;; mret ());
  mret (sorted_set seen).

Definition load_previous : M (gset str) :=
  try_except
    (raw ← read_text;
     mret (list_to_set (_canonical <$> splitlines raw)))
    (λ e, match e with FileNotFoundError => true | _ => false end)
    (mret ∅).

Definition save_current (lines : list str) : M unit :=
  write_text (join NL lines).

(** [all(SMTP.values())]. *)
Definition all_SMTP_values : bool :=
  bool_decide (map_Forall (λ _ v, truthy v = true) (SMTP G)).

(** [SMTP[key]], used as text. *)
Definition SMTP_item (key : string) : result str :=
  match SMTP G !! key with
  | None => Raise (KeyError key)
  | Some None => Raise (TypeError "None where text is expected")
  | Some (Some v) => Ok v
  end.

(** A call on the relay: it is logged, and the relay answers. *)
Definition smtp (c : smtp_call) : M unit :=
  λ w, (relay (wire w) c,
        {| clock := clock w; snapshot := snapshot w;
           page_log := page_log w; wire := wire w ++ [c];
           stdout := stdout w |}).

Definition send_email (new_lines : list str) : M unit :=
  if bool_decide (new_lines = []) || negb all_SMTP_values then mret ()
  else
    let subject := lit "[Ravenair Cloud] " ++ str_of_nat (length new_lines)
                   ++ lit " new booking slot(s)" in
    lift (header_store_parse "Subject" subject);;
    from ← lift (SMTP_item "SMTP_USER");
    lift (header_store_parse "From" from);;
    to ← lift (SMTP_item "SMTP_TO");
    lift (header_store_parse "To" to);;
    let msg := {| Subject := subject; From := from; To := to;
                  content := join NL new_lines |} in
    host ← lift (SMTP_item "SMTP_HOST");
    port_text ← lift (SMTP_item "SMTP_PORT");
    port ← lift (match int port_text with
                 | Some p => Ok p
                 | None => Raise (ValueError "invalid literal for int()")
                 end);
    smtp (Connect host port);;
    finally
      (smtp StartTLS;;
       user ← lift (SMTP_item "SMTP_USER");
       password ← lift (SMTP_item "SMTP_PASS");
       smtp (Login user password);;
       smtp (SendMessage msg))
      (smtp Quit);;
    to ← lift (SMTP_item "SMTP_TO");
    print ([128231%N] ++ lit "  Sent " ++ str_of_nat (length new_lines)
           ++ lit " new slot(s) to " ++ to).

(** [[ln for ln in current if ln not in prev]]. *)
Definition new_lines (current : list str) (prev : gset str) : list str :=
  filter (λ ln, ln ∉ prev) current.

(** [for ln in new: print("   +", ln)]. *)
Fixpoint print_each (new : list str) : M unit :=
  match new with
  | [] => mret ()
  | ln :: new' => print (lit "   + " ++ ln);; print_each new'
  end.

Definition main : M unit :=
  current ← fetch_all_slots;
  prev ← load_previous;
  let new := new_lines current prev in
  send_email new;;
  save_current current;;
  print ([10003%N] ++ lit " " ++ str_of_nat (length current)
         ++ lit " total slots   " ++ [8226%N] ++ lit "   "
         ++ str_of_nat (length new) ++ lit " new since last run");;
  print_each new.

End Script.

(* ===================================================================== *)
(** ** The module as text *)
(* ===================================================================== *)

(** Before any of the module runs, Python compiles its text. The part
    of that which matters below is the tokenizer's bookkeeping of
    brackets: inside a bracket a line does not end, every closing
    bracket must answer the last one opened, and the text must not end
    with one open. Brackets in comments and in string literals do not
    count. *)
Module Tokenizer.

(** Where the tokenizer is. [Quote1]: one quote has been read, a
    string begins. [Quote2]: two have been read, which is the empty
    string or the start of a triple-quoted one. [Str]: in a string
    that ends at its quote. [Str3]: in a triple-quoted string,
    [closing] quotes of its end read so far. *)
Inductive mode : Type :=
  | Code
  | Comment
  | Quote1 (quote : N)
  | Quote2 (quote : N)
  | Str (quote : N) (escaped : bool)
  | Str3 (quote : N) (escaped : bool) (closing : nat).

Inductive syntax_error : Type :=
  | Never_closed (opener : N) (line : nat)
  | Unmatched (closer : N) (line : nat)
  | Mismatched (closer opener : N) (line : nat)
  | Unterminated_string (line : nat).

(** The tokenizer's state: where it is, the number of the line it is
    on, and the brackets that are open, the last one first, each with
    the line it is on. *)
Record lexer : Type := Lexer {
  at_mode : mode;
  at_line : nat;
  opened : list (N * nat)
}.

Definition closer_of (opener : N) : N :=
  if (opener =? 40)%N then 41%N
  else if (opener =? 91)%N then 93%N
  else 125%N.

Definition is_opener (c : N) : bool := ((c =? 40) || (c =? 91) || (c =? 123))%N.
Definition is_closer (c : N) : bool := ((c =? 41) || (c =? 93) || (c =? 125))%N.
Definition is_quote (c : N) : bool := ((c =? 34) || (c =? 39))%N.

Definition next_line (c : N) (line : nat) : nat :=
  if (c =? 10)%N then S line else line.

(** One character read in code. *)
Definition code_step (line : nat) (stack : list (N * nat)) (c : N)
    : syntax_error + lexer :=
  if (c =? 35)%N then inr (Lexer Comment line stack)
  else if is_quote c then inr (Lexer (Quote1 c) line stack)
  else if is_opener c then inr (Lexer Code line ((c, line) :: stack))
  else if is_closer c then
    match stack with
    | [] => inl (Unmatched c line)
    | (opener, _) :: stack' =>
        if (closer_of opener =? c)%N then inr (Lexer Code line stack')
        else inl (Mismatched c opener line)
    end
  else inr (Lexer Code (next_line c line) stack).

(** One character read. *)
Definition step (st : lexer) (c : N) : syntax_error + lexer :=
  let line := at_line st in
  let stack := opened st in
  match at_mode st with
  | Code => code_step line stack c
  | Comment =>
      inr (Lexer (if (c =? 10)%N then Code else Comment) (next_line c line) stack)
  | Quote1 q =>
      if (c =? q)%N then inr (Lexer (Quote2 q) line stack)
      else if (c =? 10)%N then inl (Unterminated_string line)
      else inr (Lexer (Str q (c =? 92)%N) line stack)
  | Quote2 q =>
      if (c =? q)%N then inr (Lexer (Str3 q false 0) line stack)
      else code_step line stack c
  | Str q escaped =>
      if escaped then inr (Lexer (Str q false) (next_line c line) stack)
      else if (c =? q)%N then inr (Lexer Code line stack)
      else if (c =? 10)%N then inl (Unterminated_string line)
      else inr (Lexer (Str q (c =? 92)%N) line stack)
  | Str3 q escaped closing =>
      if escaped then inr (Lexer (Str3 q false 0) (next_line c line) stack)
      else if (c =? q)%N then
        match closing with
        | 2 => inr (Lexer Code line stack)
        | _ => inr (Lexer (Str3 q false (S closing)) line stack)
        end
      else inr (Lexer (Str3 q (c =? 92)%N 0) (next_line c line) stack)
  end.

Fixpoint run (st : lexer) (text : str) : syntax_error + lexer :=
  match text with
  | [] => inr st
  | c :: text' =>
      match step st c with
      | inl e => inl e
      | inr st' => run st' text'
      end
  end.

(** The end of the text. *)
Definition at_end (st : lexer) : option syntax_error :=
  match at_mode st with
  | Code | Comment | Quote2 _ =>
      match opened st with
      | [] => None
      | (opener, line) :: _ => Some (Never_closed opener line)
      end
  | Quote1 _ | Str _ _ | Str3 _ _ _ => Some (Unterminated_string (at_line st))
  end.

Definition start : lexer := Lexer Code 1 [].

(** The [SyntaxError] the tokenizer finds in a text, if any. *)
Definition tokenize (text : str) : option syntax_error :=
  match run start text with
  | inl e => Some e
  | inr st => at_end st
  end.

End Tokenizer.

(** *** The text of [mainV2.py] *)

(** Lines 1 to 154. *)
Definition lines_1_154 : list str :=
  [ dq ++ dq ++ dq;
    lit "book_slots_full.py (multi" ++ [8209%N] ++ lit "date search "
      ++ [8211%N] ++ lit " master copy)";
    [];
    lit "Requirements:";
    lit "    pip install playwright==1.37 python-dotenv beautifulsoup4 lxml";
    lit "    playwright install chromium";
    dq ++ dq ++ dq;
    [];
    lit "from __future__ import annotations";
    [];
    lit "import asyncio";
    lit "import os";
    lit "import re";
    lit "import smtplib";
    lit "import ssl";
    lit "import unicodedata";
    lit "from datetime import date, datetime, timedelta";
    lit "from email.message import EmailMessage";
    lit "from pathlib import Path";
    lit "from typing import List, Set";
    [];
    lit "from bs4 import BeautifulSoup";
    lit "from dotenv import load_dotenv";
    lit "from playwright.async_api import async_playwright, Page";
    [];
    lit "# " ++ replicate 27 9472%N;
    lit "#  Config";
    lit "# " ++ replicate 27 9472%N;
    lit "load_dotenv(" ++ dq ++ lit "variables.env" ++ dq ++ lit ")";
    [];
    lit "EMAIL    = os.getenv(" ++ dq ++ lit "LOGIN_EMAIL" ++ dq ++ lit ")";
    lit "PASSWORD = os.getenv(" ++ dq ++ lit "LOGIN_PASSWORD" ++ dq ++ lit ")";
    lit "BASE     = " ++ dq ++ lit "https://ravenair.volanti.club" ++ dq;
    [];
    lit "TYPE_VAL   = " ++ dq ++ lit "5" ++ dq
      ++ lit "           # Training (Dual)";
    lit "COURSE_VAL = " ++ dq ++ lit "3" ++ dq ++ lit "           # UK PPL "
      ++ [8211%N] ++ lit " PA28";
    [];
    lit "DATE_WINDOW_DAYS = int(os.getenv(" ++ dq ++ lit "DATE_WINDOW_DAYS"
      ++ dq ++ lit ", " ++ dq ++ lit "57" ++ dq ++ lit "))      # inclusive";
    lit "SEARCH_WAIT_MS   = int(os.getenv(" ++ dq ++ lit "SEARCH_WAIT_MS"
      ++ dq ++ lit ",   " ++ dq ++ lit "2500" ++ dq
      ++ lit "))    # ms after clicking Search";
    lit "SEARCH_ATTEMPTS  = int(os.getenv(" ++ dq ++ lit "SEARCH_ATTEMPTS"
      ++ dq ++ lit ",  " ++ dq ++ lit "2" ++ dq
      ++ lit "))       # retries per date (was 3)";
    [];
    lit "SNAP_PATH = Path(" ++ dq ++ lit "slots_latest.txt" ++ dq
      ++ lit ")          # snapshot file (UTF" ++ [8209%N] ++ lit "8)";
    lit "SMTP = {k: os.getenv(k) for k in (";
    lit "    " ++ dq ++ lit "SMTP_HOST" ++ dq ++ lit ", " ++ dq
      ++ lit "SMTP_PORT" ++ dq ++ lit ", " ++ dq ++ lit "SMTP_USER" ++ dq
      ++ lit ", " ++ dq ++ lit "SMTP_PASS" ++ dq ++ lit ", " ++ dq
      ++ lit "SMTP_TO" ++ dq;
    lit ")}";
    lit "VERBOSE = bool(int(os.getenv(" ++ dq ++ lit "VERBOSE" ++ dq
      ++ lit ", " ++ dq ++ lit "0" ++ dq ++ lit ")))";
    [];
    lit "# " ++ replicate 27 9472%N;
    lit "#  Canonical helpers";
    lit "# " ++ replicate 27 9472%N;
    lit "_WS_RE = re.compile(r" ++ dq ++ lit "\s+" ++ dq ++ lit ")";
    lit "_TIME_RE = re.compile(r" ++ dq
      ++ lit "(\d{2}:\d{2})\s*-\s*(\d{2}:\d{2})" ++ dq ++ lit ")";
    [];
    [];
    lit "def _canonical(s: str) -> str:";
    lit "    s = unicodedata.normalize(" ++ dq ++ lit "NFC" ++ dq
      ++ lit ", s)";
    lit "    s = s.replace(" ++ dq ++ [8211%N] ++ dq ++ lit ", " ++ dq
      ++ lit "-" ++ dq ++ lit ").replace(" ++ dq ++ [8212%N] ++ dq ++ lit ", "
      ++ dq ++ lit "-" ++ dq ++ lit ")";
    lit "    s = _WS_RE.sub(" ++ dq ++ lit " " ++ dq ++ lit ", s)";
    lit "    return s.strip()";
    [];
    [];
    lit "def _normalise_date(raw: str) -> str:";
    lit "    return datetime.strptime(raw.strip(), " ++ dq ++ lit "%B %d, %Y"
      ++ dq ++ lit ").strftime(" ++ dq ++ lit "%Y-%m-%d" ++ dq ++ lit ")";
    [];
    [];
    lit "def _card_to_line(card_div) -> str | None:";
    lit "    date_span = card_div.select_one(" ++ dq
      ++ lit "span.text-gray-400.text-sm" ++ dq ++ lit ")";
    lit "    time_span = card_div.select_one(" ++ dq
      ++ lit "span.font-semibold.text-xl" ++ dq ++ lit ")";
    lit "    if not date_span or not time_span:";
    lit "        return None";
    [];
    lit "    m = _TIME_RE.search(time_span.get_text())";
    lit "    if not m:";
    lit "        return None";
    lit "    start, end = m.groups()";
    [];
    lit "    date_iso = _normalise_date(date_span.get_text())";
    lit "    title    = (card_div.find_previous(" ++ dq ++ lit "h3" ++ dq
      ++ lit ") or " ++ dq ++ dq ++ lit ").get_text(strip=True) or " ++ dq
      ++ lit "Unknown booking" ++ dq;
    lit "    return _canonical(f" ++ dq
      ++ lit "{date_iso} {start}-{end} - {title}" ++ dq ++ lit ")";
    [];
    [];
    lit "def html_to_lines(html: str) -> List[str]:";
    lit "    soup  = BeautifulSoup(html, " ++ dq ++ lit "lxml" ++ dq
      ++ lit ")";
    lit "    cards = soup.select(" ++ dq ++ lit "div.p-6.flex" ++ dq
      ++ lit ")";
    lit "    lines = filter(None, (_card_to_line(c) for c in cards))";
    lit "    return sorted(set(lines))";
    [];
    lit "# " ++ replicate 27 9472%N;
    lit "#  Playwright helpers";
    lit "# " ++ replicate 27 9472%N;
    lit "async def _login(page: Page) -> None:";
    lit "    await page.goto(f" ++ dq ++ lit "{BASE}/auth/login" ++ dq
      ++ lit ")";
    lit "    if page.url.startswith(f" ++ dq ++ lit "{BASE}/me" ++ dq
      ++ lit "):";
    lit "        return";
    lit "    await page.fill('input[name=" ++ dq ++ lit "email" ++ dq
      ++ lit "]',    EMAIL)";
    lit "    await page.fill('input[name=" ++ dq ++ lit "password" ++ dq
      ++ lit "]', PASSWORD)";
    lit "    await page.click('button[type=" ++ dq ++ lit "submit" ++ dq
      ++ lit "]')";
    lit "    await page.wait_for_url(f" ++ dq ++ lit "{BASE}/me" ++ dq
      ++ lit ")";
    [];
    [];
    lit "async def _prepare_search(page: Page) -> None:";
    lit "    await page.goto(f" ++ dq ++ lit "{BASE}/bookings/search" ++ dq
      ++ lit ")";
    lit "    await page.select_option('select#data\\.type',   TYPE_VAL)";
    lit "    await page.select_option('select#data\\.course', COURSE_VAL)";
    [];
    [];
    lit "async def _select_date_safe(page: Page, iso_date: str) -> bool:";
    lit "    opt_sel = f'select#data\\.date option[value=" ++ dq
      ++ lit "{iso_date}" ++ dq ++ lit "]'";
    lit "    try:";
    lit "        await page.wait_for_selector(opt_sel, state=" ++ dq
      ++ lit "attached" ++ dq ++ lit ", timeout=10_000)";
    lit "        await page.select_option('select#data\\.date', iso_date)";
    lit "        return True";
    lit "    except Exception:";
    lit "        return False";
    [];
    [];
    lit "async def _lines_for_date(page: Page, iso_date: str) -> Set[str]:";
    lit "    await _prepare_search(page)";
    lit "    ok = await _select_date_safe(page, iso_date)";
    lit "    if not ok:";
    lit "        if VERBOSE:";
    lit "            print(" ++ dq ++ [9197%N] ++ lit "  skipping" ++ dq
      ++ lit ", iso_date, " ++ dq ++ lit "(not in picker)" ++ dq ++ lit ")";
    lit "        return set()";
    [];
    lit "    await page.click('button:has-text(" ++ dq ++ lit "Search" ++ dq
      ++ lit ")')";
    [];
    lit "    # Adaptive wait " ++ [8211%N]
      ++ lit " reduced attempts, shorter default wait";
    lit "    lines: Set[str] = set()";
    lit "    for attempt in range(SEARCH_ATTEMPTS):";
    lit "        await page.wait_for_timeout(SEARCH_WAIT_MS)";
    lit "        html  = await page.content()";
    lit "        new   = set(html_to_lines(html))";
    lit "        if new or attempt == SEARCH_ATTEMPTS - 1:";
    lit "            lines = new";
    lit "            break";
    lit "    if VERBOSE:";
    lit "        print(f" ++ dq ++ [10003%N]
      ++ lit " {iso_date}: {len(lines)} line(s)" ++ dq ++ lit ")";
    lit "    return lines";
    [];
    [];
    lit "async def fetch_all_slots() -> List[str]:";
    lit "    today = date.today()";
    lit "    iso_dates = [";
    lit "        (today + timedelta(days=i)).strftime(" ++ dq
      ++ lit "%Y-%m-%d" ++ dq ++ lit ")";
    lit "        for i in range(DATE_WINDOW_DAYS + 1)";
    lit "    ]";
    [];
    lit "    async with async_playwright() as p:";
    lit "        browser = await p.chromium.launch(headless=True, args=["
      ++ dq ++ lit "--no-sandbox" ++ dq ++ lit "])";
    lit "        page    = await browser.new_page()";
    lit "        await _login(page)";
    [];
    lit "        seen: Set[str] = set()";
    lit "        for iso in iso_dates:" ].

(** Line 155, the body of the loop of [fetch_all_slots], as it stands. *)
Definition line_155 : str :=
  lit "            seen.update(await _lines_for_date(page, iso)".

(** Lines 156 to 214. *)
Definition lines_156_214 : list str :=
  [ [];
    [];
    lit "        await browser.close()";
    [];
    lit "    return sorted(seen)";
    [];
    lit "# " ++ replicate 27 9472%N;
    lit "#  Snapshot + e" ++ [8209%N] ++ lit "mail helpers";
    lit "# " ++ replicate 27 9472%N;
    [];
    lit "def load_previous() -> Set[str]:";
    lit "    try:";
    lit "        raw = SNAP_PATH.read_text(encoding=" ++ dq ++ lit "utf-8"
      ++ dq ++ lit ")";
    lit "        return {_canonical(l) for l in raw.splitlines()}";
    lit "    except FileNotFoundError:";
    lit "        return set()";
    [];
    [];
    lit "def save_current(lines: List[str]) -> None:";
    lit "    SNAP_PATH.write_text(" ++ dq ++ lit "\n" ++ dq
      ++ lit ".join(lines), encoding=" ++ dq ++ lit "utf-8" ++ dq ++ lit ")";
    [];
    [];
    lit "def send_email(new_lines: List[str]) -> None:";
    lit "    if not new_lines or not all(SMTP.values()):";
    lit "        return";
    lit "    msg = EmailMessage()";
    lit "    msg[" ++ dq ++ lit "Subject" ++ dq ++ lit "] = f" ++ dq
      ++ lit "[Ravenair Cloud] {len(new_lines)} new booking slot(s)" ++ dq;
    lit "    msg[" ++ dq ++ lit "From" ++ dq ++ lit "]    = SMTP[" ++ dq
      ++ lit "SMTP_USER" ++ dq ++ lit "]";
    lit "    msg[" ++ dq ++ lit "To" ++ dq ++ lit "]      = SMTP[" ++ dq
      ++ lit "SMTP_TO" ++ dq ++ lit "]";
    lit "    msg.set_content(" ++ dq ++ lit "\n" ++ dq
      ++ lit ".join(new_lines))";
    [];
    lit "    with smtplib.SMTP(SMTP[" ++ dq ++ lit "SMTP_HOST" ++ dq
      ++ lit "], int(SMTP[" ++ dq ++ lit "SMTP_PORT" ++ dq
      ++ lit "]), timeout=30) as s:";
    lit "        s.starttls(context=ssl.create_default_context())";
    lit "        s.login(SMTP[" ++ dq ++ lit "SMTP_USER" ++ dq
      ++ lit "], SMTP[" ++ dq ++ lit "SMTP_PASS" ++ dq ++ lit "])";
    lit "        s.send_message(msg)";
    lit "    print(f" ++ dq ++ [128231%N]
      ++ lit "  Sent {len(new_lines)} new slot(s) to {SMTP['SMTP_TO']}" ++ dq
      ++ lit ")";
    [];
    lit "# " ++ replicate 27 9472%N;
    lit "#  Main";
    lit "# " ++ replicate 27 9472%N;
    lit "async def main() -> None:";
    lit "    current = await fetch_all_slots()";
    lit "    prev    = load_previous()";
    lit "    new     = [ln for ln in current if ln not in prev]";
    [];
    lit "    send_email(new)";
    lit "    save_current(current)";
    [];
    lit "    print(f" ++ dq ++ [10003%N]
      ++ lit " {len(current)} total slots   " ++ [8226%N]
      ++ lit "   {len(new)} new since last run" ++ dq ++ lit ")";
    lit "    for ln in new:";
    lit "        print(" ++ dq ++ lit "   +" ++ dq ++ lit ", ln)";
    [];
    [];
    lit "if __name__ == " ++ dq ++ lit "__main__" ++ dq ++ lit ":";
    lit "    asyncio.run(main())";
    [];
    [];
    [];
    [] ].

(** The module's text, given its line 155: every line ends with a
    newline. *)
Definition module_text (l155 : str) : str :=
  concat ((λ l, l ++ NL) <$> (lines_1_154 ++ [l155] ++ lines_156_214)).

(** The text of some lines, each ended by a newline. *)
Definition text_of_lines (lines : list str) : str :=
  concat ((λ l, l ++ NL) <$> lines).

(* ===================================================================== *)
(** ** Sample data for the worked cases *)
(* ===================================================================== *)

Definition slot_X : str := lit "2025-06-01 08:00-09:00 - X".
Definition slot_Y : str := lit "2025-06-02 10:00-11:00 - Y".

(** An environment, by its variables. *)
Fixpoint environ (vars : list (string * string)) (name : string) : option str :=
  match vars with
  | [] => None
  | (k, v) :: vars' =>
      if String.eqb k name then Some (lit v) else environ vars' name
  end.

Definition login_vars : list (string * string) :=
  [("LOGIN_EMAIL", "pilot@example.org"); ("LOGIN_PASSWORD", "secret")]%string.

(** Mail fully configured. *)
Definition env_mail : string → option str :=
  environ (login_vars ++
    [("SMTP_HOST", "smtp.example.org"); ("SMTP_PORT", "587");
     ("SMTP_USER", "scanner@example.org"); ("SMTP_PASS", "secret");
     ("SMTP_TO", "pilot@example.org")]%string).

(** Mail fully configured, and a window of two days after today. *)
Definition env_short : string → option str :=
  environ (login_vars ++
    [("DATE_WINDOW_DAYS", "2");
     ("SMTP_HOST", "smtp.example.org"); ("SMTP_PORT", "587");
     ("SMTP_USER", "scanner@example.org"); ("SMTP_PASS", "secret");
     ("SMTP_TO", "pilot@example.org")]%string).

(** No recipient configured. *)
Definition env_no_recipient : string → option str :=
  environ (login_vars ++
    [("SMTP_HOST", "smtp.example.org"); ("SMTP_PORT", "587");
     ("SMTP_USER", "scanner@example.org"); ("SMTP_PASS", "secret")]%string).

(** The port is set, to the empty text. *)
Definition env_empty_port : string → option str :=
  environ (login_vars ++
    [("SMTP_HOST", "smtp.example.org"); ("SMTP_PORT", "");
     ("SMTP_USER", "scanner@example.org"); ("SMTP_PASS", "secret");
     ("SMTP_TO", "pilot@example.org")]%string).

(** The port is set, to the name of a service. *)
Definition env_named_port : string → option str :=
  environ (login_vars ++
    [("SMTP_HOST", "smtp.example.org"); ("SMTP_PORT", "submission");
     ("SMTP_USER", "scanner@example.org"); ("SMTP_PASS", "secret");
     ("SMTP_TO", "pilot@example.org")]%string).

(** The globals the module ends up with under an environment whose
    numbers are well written. *)
Definition globals_of (getenv : string → option str) : Globals :=
  match load_globals getenv with
  | Ok g => g
  | Raise _ =>
      {| EMAIL := None; PASSWORD := None; DATE_WINDOW_DAYS := 57;
         SEARCH_WAIT_MS := 2500; SEARCH_ATTEMPTS := 2; SMTP := ∅;
         VERBOSE := false |}
  end.

(** A relay that takes everything, and one that refuses the login. *)
Definition relay_accepts : list smtp_call → smtp_call → result unit :=
  λ _ _, Ok ().

Definition relay_refuses_login : list smtp_call → smtp_call → result unit :=
  λ _ c, match c with
         | Login _ _ => Raise (External "SMTPAuthenticationError")
         | _ => Ok ()
         end.

(** A policy that stores every header. *)
Definition policy_accepts : string → str → result unit := λ _ _, Ok ().

(** Normalisation of text that is composed already (as all text below
    U+0300 is). *)
Definition nfc_composed (s : str) : str := s.

(** A first run on 31 May 2025: no snapshot yet, nothing done yet. *)
Definition first_run : World :=
  {| clock := Date 2025 5 31; snapshot := None; page_log := [];
     wire := []; stdout := [] |}.

(** Documents as the results page has them. *)
Definition span (classes : list string) (text : string) : node :=
  Tag (lit "span") (lit <$> classes) [Text (lit text)].

Definition booking_card (contents : list node) : node :=
  Tag (lit "div") [lit "p-6"; lit "flex"] contents.

Definition date_of (text : string) : node :=
  span ["text-gray-400"; "text-sm"]%string text.

Definition time_of (text : string) : node :=
  span ["font-semibold"; "text-xl"]%string text.

Definition document (contents : list node) : node :=
  Tag (lit "[document]") []
      [Tag (lit "html") [] [Tag (lit "body") [] contents]].

(** One card, and no heading anywhere before it. *)
Definition card_alone : node :=
  booking_card [date_of "June 01, 2025"; time_of "08:00-09:00"].

Definition soup_no_heading : node := document [card_alone].

Definition card_no_heading : tag :=
  {| doc := soup_no_heading; pos := 3; self := card_alone |}.

(** A heading without text, then the same card. *)
Definition soup_blank_heading : node :=
  document [Tag (lit "h3") [] [Text (lit "  ")]; card_alone].

Definition card_blank_heading : tag :=
  {| doc := soup_blank_heading; pos := 5; self := card_alone |}.

(** The page of the end-to-end scenario: a heading, two cards (the
    second time written with blanks around the hyphen) and a card
    without a time. *)
Definition soup_two_slots : node :=
  document
    [Tag (lit "h3") [] [Text (lit "PA28 G-BODD")];
     booking_card [date_of "June 01, 2025"; time_of "08:00-09:00"];
     booking_card [date_of "June 02, 2025"; time_of "10:00 - 11:00"];
     booking_card [date_of "June 03, 2025"]].

(** A card whose date is written in figures. *)
Definition card_numeric_date : tag :=
  {| doc := document [Tag (lit "h3") [] [Text (lit "PA28 G-BODD")];
                      booking_card [date_of "2025-06-01"; time_of "08:00-09:00"]];
     pos := 5;
     self := booking_card [date_of "2025-06-01"; time_of "08:00-09:00"] |}.

(** The text of the results page, and a parser that knows it. *)
Definition results_html : str :=
  lit "<h3>PA28 G-BODD</h3><div class='p-6 flex'>...</div>".

Definition lxml_results (html : str) : node :=
  if bool_decide (html = results_html) then soup_two_slots else document [].

(** A browser that is signed in already, accepts every call and shows
    the results page after each search. *)
Definition browser_results : list page_call → page_call → result str :=
  λ _ c, match c with
         | Url => Ok (BASE ++ lit "/me")
         | Content => Ok results_html
         | _ => Ok []
         end.

(** A later run: the snapshot holds the first of the two slots. *)
Definition later_run : World :=
  {| clock := Date 2025 5 31;
     snapshot := Some (lit "2025-06-01 08:00-09:00 - PA28 G-BODD");
     page_log := []; wire := []; stdout := [] |}.

Definition two_slots : list str :=
  [lit "2025-06-01 08:00-09:00 - PA28 G-BODD";
   lit "2025-06-02 10:00-11:00 - PA28 G-BODD"].

(** A line as a page may have it: blanks at the ends, a tab and two
    spaces inside, an en dash in the time and an em dash before the
    title. *)
Definition untidy_line : str :=
  lit "  2025-06-01" ++ [9%N] ++ lit "08:00" ++ [8211%N] ++ lit "09:00  "
  ++ [8212%N] ++ lit " PA28 " ++ [160%N].


(** A window of two days after today, and no attempt at reading the
    results. *)
Definition env_no_attempts : string → option str :=
  environ (login_vars ++
    [("DATE_WINDOW_DAYS", "2"); ("SEARCH_ATTEMPTS", "0")]%string).

(** A parser for a results page whose one card has its date in
    figures. *)
Definition lxml_numeric (html : str) : node :=
  if bool_decide (html = results_html) then doc card_numeric_date
  else document [].

(* ===================================================================== *)
(** ** Notions the statements use *)
(* ===================================================================== *)

(** The two sub-elements [_card_to_line] looks for in a card. *)
Definition card_date_span (card_div : tag) : option node :=
  select_one (self card_div) (lit "span") [lit "text-gray-400"; lit "text-sm"].

Definition card_time_span (card_div : tag) : option node :=
  select_one (self card_div) (lit "span") [lit "font-semibold"; lit "text-xl"].

(** The [HH:MM-HH:MM] pattern, read off its description: somewhere in
    the text, two digits, a colon and two digits; then a hyphen, with
    any whitespace on either side of it; then again two digits, a colon
    and two digits. *)
Definition hh_mm (s : str) : Prop :=
  ∃ a b c d, s = [a; b; 58%N; c; d]
             ∧ Forall (λ x, isdecimal x = true) [a; b; c; d].


(** What [load_previous] makes of the snapshot file. *)
Definition previous (nfc : str → str) (file : option str) : gset str :=
  match file with
  | None => ∅
  | Some text => list_to_set (_canonical nfc <$> splitlines (universal_newlines text))
  end.

(** A step that leaves the snapshot file alone. *)
Definition keeps_snapshot {A} (c : M A) : Prop :=
  ∀ w, snapshot (c w).2 = snapshot w.

(** The scrape with its per-date results kept apart: the same calls in
    the same order as [fetch_all_slots], returning the result set of
    each date of the window instead of accumulating them. *)
Fixpoint scan_dates (nfc : str → str) (lxml : str → node)
    (browser : list page_call → page_call → result str) (G : Globals)
    (dates : list str) : M (list (gset str)) :=
  match dates with
  | [] => mret []
  | iso :: dates' =>
      lines ← _lines_for_date nfc lxml browser G iso;
      rest ← scan_dates nfc lxml browser G dates';
      mret (lines :: rest)
  end.

Definition scrape (nfc : str → str) (lxml : str → node)
    (browser : list page_call → page_call → result str) (G : Globals)
    : M (list (gset str)) :=
  today ← date_today;
  dates ← lift (iso_dates G today);
  page browser Start;;
  finally
    (page browser Launch;;
     page browser NewPage;;
     _login browser G;;
     sets ← scan_dates nfc lxml browser G dates;
     page browser CloseBrowser;;
     mret sets)
    (page browser Stop;; mret ()).

(** The outcome of a step, its value passed through [f]. *)
Definition outcome_map {A B} (f : A → B) (o : result A * World) : result B * World :=
  match o with
  | (Ok a, w) => (Ok (f a), w)
  | (Raise e, w) => (Raise e, w)
  end.

(** Text in which whitespace only occurs as single spaces between two
    other characters. *)
Inductive tight : str → Prop :=
  | tight_nil : tight []
  | tight_last c : isspace c = false → tight [c]
  | tight_char c s : isspace c = false → tight s → s ≠ [] → tight (c :: s)
  | tight_gap c s :
      isspace c = false → tight s → s ≠ [] → tight (c :: 32%N :: s).

(** [s.replace("–", "-").replace("—", "-")]. *)
Definition hyphenate (s : str) : str := replace1 8212 45 (replace1 8211 45 s).

(** What is used of Unicode normalisation. Normalising twice changes
    nothing more; and a normalised text stays normalised when its
    dashes become hyphens, when its runs of whitespace become single
    spaces, and when whitespace is cut off its ends. (The characters
    that are replaced or removed are starters, and no canonical
    composition has a hyphen or a space in it.) *)
Record NFC_laws (nfc : str → str) : Prop := {
  nfc_idempotent : ∀ s, nfc (nfc s) = nfc s;
  nfc_hyphenate : ∀ s, nfc s = s → nfc (hyphenate s) = hyphenate s;
  nfc_WS_RE_sub : ∀ s, nfc s = s → nfc (_WS_RE_sub s) = _WS_RE_sub s;
  nfc_strip : ∀ s, nfc s = s → nfc (strip s) = strip s
}.

(** Reads of the page ([page.content()]) among some calls. *)
Definition is_read (c : page_call) : bool :=
  match c with Content => true | _ => false end.

Definition reads (calls : list page_call) : nat :=
  length (filter (λ c, is_read c = true) calls).

(** A step whose calls on the page come after the ones made before,
    at most [n] of them reads. *)
Definition reads_at_most {A} (n : nat) (c : M A) : Prop :=
  ∀ w, ∃ calls, page_log (c w).2 = page_log w ++ calls ∧ reads calls ≤ n.

(** A line read off a page that the browser showed. *)
Definition shown (nfc : str → str) (lxml : str → node)
    (browser : list page_call → page_call → result str) (ln : str) : Prop :=
  ∃ log html found,
    browser log Content = Ok html
    ∧ html_to_lines nfc lxml html = Ok found
    ∧ ln ∈ found.

(** A step that leaves a part of the world as it found it. *)
Definition leaves {A B} (part : World → B) (c : M A) : Prop :=
  ∀ w, part (c w).2 = part w.

(** A relay that answers each of some calls, made one after the other
    from a given point, without raising. *)
Fixpoint accepted (relay : list smtp_call → smtp_call → result unit)
    (sent : list smtp_call) (calls : list smtp_call) : Prop :=
  match calls with
  | [] => True
  | c :: calls' => relay sent c = Ok () ∧ accepted relay (sent ++ [c]) calls'
  end.

(** The five mail settings, each set to text that is not empty. *)
Definition mail_configured (getenv : string → option str)
    (host port_text user pass to : str) : Prop :=
  getenv "SMTP_HOST"%string = Some host ∧ host ≠ []
  ∧ getenv "SMTP_PORT"%string = Some port_text ∧ port_text ≠ []
  ∧ getenv "SMTP_USER"%string = Some user ∧ user ≠ []
  ∧ getenv "SMTP_PASS"%string = Some pass ∧ pass ≠ []
  ∧ getenv "SMTP_TO"%string = Some to ∧ to ≠ [].

(** The message [send_email] composes. *)
Definition message_for (new : list str) (user to : str) : EmailMessage :=
  {| Subject := lit "[Ravenair Cloud] " ++ str_of_nat (length new)
                ++ lit " new booking slot(s)";
     From := user; To := to; content := join NL new |}.

(** The settings the module reads as numbers. *)
Definition NUMBERS : list string :=
  ["DATE_WINDOW_DAYS"; "SEARCH_WAIT_MS"; "SEARCH_ATTEMPTS"; "VERBOSE"]%string.

(** Among the calls made on the page after those of [before], the one
    at position [j] is a read of the page, and the browser answered it
    with [html]. *)
Definition read_in (browser : list page_call → page_call → result str)
    (before calls : list page_call) (j : nat) (html : str) : Prop :=
  calls !! j = Some Content
  ∧ browser (before ++ take j calls) Content = Ok html.


(** A browser that is signed in already and shows an empty page the
    first time a page is read, the results page from then on. *)
Definition browser_slow : list page_call → page_call → result str :=
  λ log c, match c with
           | Url => Ok (BASE ++ lit "/me")
           | Content => if bool_decide (reads log = 0) then Ok []
                        else Ok results_html
           | _ => Ok []
           end.

(** [st'] is where the tokenizer is when it reads, [k] lines further
    down and with the brackets [base] open already, what took it to
    [st]. *)
Definition inside (k : nat) (base : list (N * nat))
    (st st' : Tokenizer.lexer) : Prop :=
  Tokenizer.at_mode st' = Tokenizer.at_mode st
  ∧ Tokenizer.at_line st' = Tokenizer.at_line st + k
  ∧ Tokenizer.opened st'
    = ((λ b : N * nat, (b.1, b.2 + k)) <$> Tokenizer.opened st) ++ base.

(* ===================================================================== *)
(** ** Properties *)
(* ===================================================================== *)

(** Unfolding of the two sequencing operators, literals left as they
    are written. *)
Ltac result_simpl :=
  repeat (unfold mbind, mret, result_bind, result_ret, bind; cbv beta iota).

Ltac run_simpl :=
  repeat (unfold mbind, mret, M_bind, M_ret, result_bind, result_ret, bind,
            lift; cbv beta iota).

(** *** The order on text, and [sorted] *)

Lemma str_leb_refl a : str_leb a a = true.
Proof.
  induction a as [|x a IH]; simpl; [done|].
  rewrite N.ltb_irrefl, N.eqb_refl. exact IH.
Qed.

Lemma str_leb_antisym a b : str_leb a b = true → str_leb b a = true → a = b.
Proof.
  revert b. induction a as [|x a IH]; intros [|y b]; simpl; try done.
  destruct (N.ltb_spec x y) as [Hxy|Hxy], (N.ltb_spec y x) as [Hyx|Hyx];
    try lia.
  - destruct (N.eqb_spec y x); [lia | done].
  - destruct (N.eqb_spec x y); [lia | done].
  - destruct (N.eqb_spec x y) as [->|]; [|done].
    rewrite N.eqb_refl. intros H1 H2. f_equal. by apply IH.
Qed.

Lemma str_leb_trans a b c :
  str_leb a b = true → str_leb b c = true → str_leb a c = true.
Proof.
  revert b c. induction a as [|x a IH]; intros [|y b] [|z c]; simpl; try done.
  destruct (N.ltb_spec x y) as [Hxy|Hxy].
  - intros _. destruct (N.ltb_spec y z) as [Hyz|Hyz].
    + intros _. destruct (N.ltb_spec x z); [done | lia].
    + destruct (N.eqb_spec y z) as [->|]; [|done].
      intros _. destruct (N.ltb_spec x z); [done | lia].
  - destruct (N.eqb_spec x y) as [->|]; [|done].
    intros Hab. destruct (N.ltb_spec y z) as [Hyz|Hyz]; [done|].
    destruct (N.eqb_spec y z) as [->|]; [|done].
    by apply IH.
Qed.

Lemma str_leb_total a b : str_leb a b = true ∨ str_leb b a = true.
Proof.
  revert b. induction a as [|x a IH]; intros [|y b]; simpl; auto.
  destruct (N.ltb_spec x y) as [Hxy|Hxy]; [by left|].
  destruct (N.ltb_spec y x) as [Hyx|Hyx]; [by right|].
  assert (x = y) as -> by lia. rewrite N.eqb_refl. apply IH.
Qed.

#[global] Instance str_le_refl : Reflexive str_le.
Proof. intros a. apply str_leb_refl. Qed.
#[global] Instance str_le_trans : Transitive str_le.
Proof. intros a b c. apply str_leb_trans. Qed.
#[global] Instance str_le_antisym : AntiSymm (=) str_le.
Proof. intros a b. apply str_leb_antisym. Qed.
#[global] Instance str_le_total : Total str_le.
Proof. intros a b. apply str_leb_total. Qed.

Lemma sorted_Permutation xs : sorted xs ≡ₚ xs.
Proof. apply merge_sort_Permutation. Qed.

Lemma sorted_StronglySorted xs : StronglySorted str_le (sorted xs).
Proof. apply (StronglySorted_merge_sort str_le). Qed.

Lemma elem_of_sorted_set (S : gset str) x : x ∈ sorted_set S ↔ x ∈ S.
Proof. unfold sorted_set. rewrite sorted_Permutation. apply elem_of_elements. Qed.

Lemma NoDup_sorted_set (S : gset str) : NoDup (sorted_set S).
Proof. unfold sorted_set. rewrite sorted_Permutation. apply NoDup_elements. Qed.

(** A sorted list without repetition is strictly increasing. *)
Lemma StronglySorted_strict (l : list str) :
  StronglySorted str_le l → NoDup l → StronglySorted str_lt l.
Proof.
  induction 1 as [|x l Hs IH Hall]; intros Hnd; [constructor|].
  apply NoDup_cons in Hnd as [Hx Hnd].
  constructor; [by apply IH|].
  apply Forall_forall. intros y Hy. split.
  - by eapply Forall_forall in Hall; [|exact Hy].
  - by intros ->.
Qed.

Lemma StronglySorted_weaken (l : list str) :
  StronglySorted str_lt l → StronglySorted str_le l ∧ NoDup l.
Proof.
  induction 1 as [|x l Hs [IH1 IH2] Hall]; [split; constructor|].
  split.
  - constructor; [done|]. eapply Forall_impl; [exact Hall|]. by intros y [? _].
  - apply NoDup_cons; split; [|done].
    intros Hx. eapply Forall_forall in Hall; [|exact Hx]. by destruct Hall.
Qed.

(** There is one strictly increasing list with given elements: the
    result of [sorted] on a set does not depend on how the set is
    enumerated. *)
Lemma sorted_set_unique (S : gset str) (l : list str) :
  StronglySorted str_lt l → (∀ x, x ∈ l ↔ x ∈ S) → l = sorted_set S.
Proof.
  intros Hl Hel. apply StronglySorted_weaken in Hl as [Hl Hnd].
  apply (StronglySorted_unique str_le); [done|apply sorted_StronglySorted|].
  apply NoDup_Permutation; [done|apply NoDup_sorted_set|].
  intros x. by rewrite Hel, elem_of_sorted_set.
Qed.

Lemma sorted_set_strict (S : gset str) : StronglySorted str_lt (sorted_set S).
Proof.
  apply StronglySorted_strict; [apply sorted_StronglySorted|apply NoDup_sorted_set].
Qed.

(** *** New lines: the diff against the previous snapshot *)

Lemma StronglySorted_sublist {A} (R : relation A) (l k : list A) :
  l `sublist_of` k → StronglySorted R k → StronglySorted R l.
Proof.
  induction 1 as [|x l k Hsub IH|x l k Hsub IH]; intros Hk.
  - constructor.
  - apply StronglySorted_inv in Hk as [Hk Hall].
    constructor; [by apply IH|].
    apply Forall_forall. intros y Hy.
    eapply Forall_forall in Hall; [exact Hall|].
    by eapply elem_of_sublist.
  - apply StronglySorted_inv in Hk as [Hk _]. by apply IH.
Qed.

(** Two subsequences of a list without repetition that have the same
    elements are the same subsequence. *)
Lemma sublist_unique {A} (c l1 l2 : list A) :
  NoDup c → l1 `sublist_of` c → l2 `sublist_of` c →
  (∀ x, x ∈ l1 ↔ x ∈ l2) → l1 = l2.
Proof.
  intros Hnd. revert l1 l2.
  induction Hnd as [|x c Hx Hnd IH]; intros l1 l2 H1 H2 Heq.
  - apply sublist_nil_r in H1, H2. by subst.
  - apply sublist_cons_r in H1, H2.
    destruct H1 as [H1|(l1' & -> & H1)], H2 as [H2|(l2' & -> & H2)].
    + by apply IH.
    + exfalso. apply Hx. eapply elem_of_sublist; [|exact H1].
      apply Heq. left.
    + exfalso. apply Hx. eapply elem_of_sublist; [|exact H2].
      apply Heq. left.
    + f_equal. apply IH; [done..|].
      intros y. split; intros Hy.
      * assert (y ≠ x) by (intros ->; apply Hx; by eapply elem_of_sublist).
        assert (y ∈ x :: l2') as Hy' by (apply Heq; by right).
        by apply elem_of_cons in Hy' as [?|?].
      * assert (y ≠ x) by (intros ->; apply Hx; by eapply elem_of_sublist).
        assert (y ∈ x :: l1') as Hy' by (apply Heq; by right).
        by apply elem_of_cons in Hy' as [?|?].
Qed.

Lemma new_lines_sublist current prev : new_lines current prev `sublist_of` current.
Proof. apply sublist_filter. Qed.

Lemma elem_of_new_lines current prev ln :
  ln ∈ new_lines current prev ↔ ln ∈ current ∧ ln ∉ prev.
Proof. unfold new_lines. rewrite list_elem_of_filter. tauto. Qed.

(** C5. The new lines are the lines of the current result that the
    previous snapshot does not hold, in the order the current result
    has them: a subsequence of it, with exactly those elements; it is
    the only such subsequence when the result has no repetition, and it
    is increasing when the result is. For the previous snapshot {X} and
    the current result {X, Y} it is [Y]; when every current line is in
    the snapshot (the two are equal, say) it is empty. *)
Theorem new_lines_exact (current : list str) (prev : gset str) :
  new_lines current prev `sublist_of` current
  ∧ (∀ ln, ln ∈ new_lines current prev ↔ ln ∈ current ∧ ln ∉ prev)
  ∧ (NoDup current →
     ∀ l, l `sublist_of` current → (∀ ln, ln ∈ l ↔ ln ∈ current ∧ ln ∉ prev) →
          l = new_lines current prev)
  ∧ (StronglySorted str_lt current →
     StronglySorted str_lt (new_lines current prev))
  ∧ new_lines (sorted_set {[slot_X; slot_Y]}) {[slot_X]} = [slot_Y]
  ∧ (list_to_set current = prev → new_lines current prev = []).
Proof.
  split; [apply new_lines_sublist|].
  split; [apply elem_of_new_lines|].
  split; [|split; [|split]].
  - intros Hnd l Hl Hel.
    apply (sublist_unique current); [done|done|apply new_lines_sublist|].
    intros ln. by rewrite Hel, elem_of_new_lines.
  - apply StronglySorted_sublist, new_lines_sublist.
  - by vm_compute.
  - intros <-. destruct (new_lines current (list_to_set current)) as [|ln l] eqn:E;
      [done|].
    assert (ln ∈ new_lines current (list_to_set current)) as Hln
      by (rewrite E; left).
    apply elem_of_new_lines in Hln as [Hc Hp].
    exfalso. apply Hp. by apply elem_of_list_to_set.
Qed.
(** *** The notifier *)

Lemma all_SMTP_values_false G k v :
  SMTP G !! k = Some v → truthy v = false → all_SMTP_values G = false.
Proof.
  intros Hk Hv. apply bool_decide_eq_false. intros Hall.
  specialize (Hall k v Hk). simpl in Hall. congruence.
Qed.

Lemma all_SMTP_values_true G k v :
  all_SMTP_values G = true → SMTP G !! k = Some v → truthy v = true.
Proof. intros Hall Hk. apply bool_decide_eq_true in Hall. exact (Hall k v Hk). Qed.

(** The dictionary the module builds holds, under each of its five
    keys, what the environment has for it. *)
Lemma load_globals_SMTP getenv G k :
  load_globals getenv = Ok G → k ∈ SMTP_KEYS → SMTP G !! k = Some (getenv k).
Proof.
  unfold load_globals. intros Hload Hk.
  destruct (getenv_int getenv "DATE_WINDOW_DAYS" "57") as [days|]; [|done].
  destruct (getenv_int getenv "SEARCH_WAIT_MS" "2500") as [wait|]; [|done].
  destruct (getenv_int getenv "SEARCH_ATTEMPTS" "2") as [attempts|]; [|done].
  destruct (getenv_int getenv "VERBOSE" "0") as [verbose|]; [|done].
  simpl in Hload. injection Hload as <-. simpl.
  unfold SMTP_from. apply elem_of_list_to_map_1.
  - rewrite <- list_fmap_compose. simpl. by compute_done.
  - apply list_elem_of_fmap. by exists k.
Qed.

Lemma send_email_skips relay policy G new (w : World) :
  new = [] ∨ all_SMTP_values G = false →
  send_email relay policy G new w = (Ok (), w).
Proof.
  intros [->|Hall]; unfold send_email.
  - done.
  - rewrite Hall. by rewrite orb_true_r.
Qed.

(** C9. [send_email] does nothing at all (no call on the relay, no
    message, no output: the world stays as it was) when there are no new
    lines, or when the environment lacks one of the five mail settings,
    whatever the new lines are. *)
Theorem send_email_noop getenv G relay policy (new : list str) (w : World) :
  load_globals getenv = Ok G →
  new = [] ∨ (∃ k, k ∈ SMTP_KEYS ∧ getenv k = None) →
  send_email relay policy G new w = (Ok (), w)
  ∧ wire (send_email relay policy G new w).2 = wire w.
Proof.
  intros Hload Hskip.
  assert (send_email relay policy G new w = (Ok (), w)) as ->; [|done].
  apply send_email_skips. destruct Hskip as [->|(k & Hk & Habsent)]; [by left|].
  right. apply (all_SMTP_values_false G k None); [|done].
  rewrite <- Habsent. by apply load_globals_SMTP.
Qed.

Lemma send_email_noop_witness :
  send_email relay_accepts policy_accepts (globals_of env_no_recipient)
    [slot_Y] first_run = (Ok (), first_run)
  ∧ wire (send_email relay_accepts policy_accepts (globals_of env_no_recipient)
            [slot_Y] first_run).2 = wire first_run.
Proof.
  apply (send_email_noop env_no_recipient).
  - reflexivity.
  - right. exists "SMTP_TO"%string. split; [compute_done | reflexivity].
Defined.

(** *** The card parser *)

Lemma isspace_cases c :
  isspace c = true →
  c ∈ [9; 10; 11; 12; 13; 28; 29; 30; 31; 32; 133; 160; 5760; 8192; 8193;
       8194; 8195; 8196; 8197; 8198; 8199; 8200; 8201; 8202; 8232; 8233;
       8239; 8287; 12288]%N.
Proof.
  unfold isspace. intros H.
  repeat (apply orb_true_iff in H as [H|H]);
    repeat (apply andb_true_iff in H as [? ?]);
    repeat match goal with
           | H : (_ <=? _)%N = true |- _ => apply N.leb_le in H
           | H : (_ =? _)%N = true |- _ => apply N.eqb_eq in H
           end.
  all: set_unfold; lia.
Qed.

(** No decimal digit is whitespace. *)
Lemma isdecimal_not_space c : isdecimal c = true → isspace c = false.
Proof.
  intros Hd. destruct (isspace c) eqn:Hs; [|done].
  apply isspace_cases in Hs.
  repeat (apply elem_of_cons in Hs as [->|Hs]; [by vm_compute in Hd|]).
  by apply elem_of_nil in Hs.
Qed.

Lemma lstrip_spaces ws s :
  Forall (λ x, isspace x = true) ws → lstrip (ws ++ s) = lstrip s.
Proof. induction 1 as [|c ws Hc _ IH]; simpl; [done|]. by rewrite Hc. Qed.

Lemma lstrip_split s :
  ∃ ws, s = ws ++ lstrip s ∧ Forall (λ x, isspace x = true) ws.
Proof.
  induction s as [|c s (ws & Hs & Hws)]; simpl.
  - by exists [].
  - destruct (isspace c) eqn:Hc.
    + exists (c :: ws). split; [by rewrite <- app_comm_cons, <- Hs|by constructor].
    + by exists [].
Qed.

Lemma lstrip_nonspace c s : isspace c = false → lstrip (c :: s) = c :: s.
Proof. intros Hc. simpl. by rewrite Hc. Qed.

Lemma match_hh_mm_spec s g rest :
  match_hh_mm s = Some (g, rest) ↔ hh_mm g ∧ s = g ++ rest.
Proof.
  unfold match_hh_mm, hh_mm. split.
  - destruct s as [|a [|b [|x [|c [|d r]]]]]; simpl; try done;
      try (by destruct x as [|p]; [|do 6 (destruct p as [p|p|]; try done)]).
    destruct (decide (x = 58%N)) as [->|Hx].
    + destruct (isdecimal a) eqn:Ha, (isdecimal b) eqn:Hb,
        (isdecimal c) eqn:Hc, (isdecimal d) eqn:Hd; simpl; try done.
      intros [= <- <-]. split; [|done].
      exists a, b, c, d. split; [done|]. by repeat constructor.
    + destruct x as [|p]; [done|].
      do 6 (destruct p as [p|p|]; try done).
  - intros [(a & b & c & d & -> & Hall) ->].
    apply Forall_cons in Hall as [Ha Hall].
    apply Forall_cons in Hall as [Hb Hall].
    apply Forall_cons in Hall as [Hc Hall].
    apply Forall_cons in Hall as [Hd _].
    simpl. by rewrite Ha, Hb, Hc, Hd.
Qed.

Lemma hh_mm_head g rest : hh_mm g → ∃ a r, g ++ rest = a :: r ∧ isspace a = false.
Proof.
  intros (a & b & c & d & -> & Hall). exists a, ([b; 58%N; c; d] ++ rest).
  split; [done|]. apply isdecimal_not_space.
  by apply Forall_cons in Hall as [Ha _].
Qed.

(** The expression matches at the start of a text exactly when the
    text starts the way the pattern describes, and the groups are the
    two times. *)
Lemma _TIME_RE_match_spec s start stop :
  _TIME_RE_match s = Some (start, stop) ↔
  ∃ ws1 ws2 after,
    s = start ++ ws1 ++ [45%N] ++ ws2 ++ stop ++ after
    ∧ hh_mm start ∧ hh_mm stop
    ∧ Forall (λ x, isspace x = true) ws1
    ∧ Forall (λ x, isspace x = true) ws2.
Proof.
  unfold _TIME_RE_match. split.
  - destruct (match_hh_mm s) as [[g r1]|] eqn:H1; [|done]. simpl.
    apply match_hh_mm_spec in H1 as [Hg ->].
    destruct (lstrip_split r1) as (ws1 & Hr1 & Hws1).
    destruct (lstrip r1) as [|x r2] eqn:Hl; [done|].
    destruct (decide (x = 45%N)) as [->|Hx].
    + destruct (match_hh_mm (lstrip r2)) as [[g2 r3]|] eqn:H2; [|done].
      simpl. intros [= <- <-].
      apply match_hh_mm_spec in H2 as [Hg2 Hr2].
      destruct (lstrip_split r2) as (ws2 & Hr2' & Hws2).
      exists ws1, ws2, r3. split; [|done].
      rewrite Hr1. do 2 f_equal. simpl. f_equal. by rewrite Hr2' at 1; rewrite Hr2.
    + destruct x as [|p]; [done|].
      do 6 (destruct p as [p|p|]; try done).
  - intros (ws1 & ws2 & after & -> & Hstart & Hstop & Hws1 & Hws2).
    assert (match_hh_mm (start ++ ws1 ++ [45%N] ++ ws2 ++ stop ++ after)
            = Some (start, ws1 ++ [45%N] ++ ws2 ++ stop ++ after)) as ->
      by by apply match_hh_mm_spec.
    simpl. rewrite lstrip_spaces by done. simpl.
    rewrite lstrip_spaces by done.
    destruct (hh_mm_head stop after Hstop) as (a & r & Hr & Ha).
    rewrite Hr, (lstrip_nonspace a r Ha), <- Hr.
    assert (match_hh_mm (stop ++ after) = Some (stop, after)) as ->
      by by apply match_hh_mm_spec.
    done.
Qed.




Lemma _card_to_line_unfold nfc card_div d t start stop :
  card_date_span card_div = Some d →
  card_time_span card_div = Some t →
  _TIME_RE_search (get_text t) = Some (start, stop) →
  _card_to_line nfc card_div =
    (date_iso ← _normalise_date (get_text d);
     heading ←
       match find_previous card_div (lit "h3") with
       | Some h3 => Ok (get_text_strip h3)
       | None => Raise (AttributeError "'str' object has no attribute 'get_text'")
       end;
     let title := match heading with
                  | [] => lit "Unknown booking"
                  | _ :: _ => heading
                  end in
     Ok (Some (_canonical nfc (date_iso ++ lit " " ++ start ++ lit "-" ++ stop
                               ++ lit " - " ++ title)))).
Proof.
  unfold card_date_span, card_time_span, _card_to_line.
  intros -> -> ->. done.
Qed.


(** C1, as the code has it. A card with a date and a time that parse
    and with no [h3] before it in the document does not get the
    placeholder title: looking up the heading's text on the empty text
    that stands in for the missing heading raises [AttributeError]. *)
Theorem card_without_heading_raises nfc card_div d t groups date_iso :
  card_date_span card_div = Some d →
  card_time_span card_div = Some t →
  _TIME_RE_search (get_text t) = Some groups →
  _normalise_date (get_text d) = Ok date_iso →
  find_previous card_div (lit "h3") = None →
  _card_to_line nfc card_div
  = Raise (AttributeError "'str' object has no attribute 'get_text'").
Proof.
  destruct groups as [start stop]. intros Hd Ht Hs Hdate Hprev.
  rewrite (_card_to_line_unfold nfc card_div d t start stop Hd Ht Hs).
  rewrite Hdate, Hprev. by result_simpl.
Qed.

Lemma card_without_heading_raises_witness :
  select soup_no_heading (lit "div") [lit "p-6"; lit "flex"] = [card_no_heading]
  ∧ _card_to_line nfc_composed card_no_heading
    = Raise (AttributeError "'str' object has no attribute 'get_text'").
Proof.
  split; [reflexivity|].
  apply (card_without_heading_raises nfc_composed card_no_heading
           (date_of "June 01, 2025") (time_of "08:00-09:00")
           (lit "08:00", lit "09:00") (lit "2025-06-01"));
    reflexivity.
Defined.

(** The placeholder is reached when there is a heading and it has no
    text. *)
Lemma card_blank_heading_placeholder :
  select soup_blank_heading (lit "div") [lit "p-6"; lit "flex"]
  = [card_blank_heading]
  ∧ _card_to_line nfc_composed card_blank_heading
    = Ok (Some (lit "2025-06-01 08:00-09:00 - Unknown booking")).
Proof. split; reflexivity. Qed.

(** One card that raises makes the parse of the page raise. *)
Lemma traverse_Raise {A B} (f : A → result B) xs x e :
  x ∈ xs → f x = Raise e → ∃ e', traverse f xs = Raise e'.
Proof.
  intros Hx Hf. induction xs as [|y xs IH]; [by apply elem_of_nil in Hx|].
  apply elem_of_cons in Hx as [<-|Hx]; simpl.
  - rewrite Hf. result_simpl. eauto.
  - destruct (f y); result_simpl; [|by eauto].
    destruct (IH Hx) as [e' ->]. result_simpl. eauto.
Qed.


(** *** The date window *)

Lemma traverse_Ok {A B} (f : A → result B) (g : A → B) xs :
  (∀ x, x ∈ xs → f x = Ok (g x)) → traverse f xs = Ok (g <$> xs).
Proof.
  induction xs as [|x xs IH]; intros Hf; simpl; [done|].
  rewrite (Hf x) by left. result_simpl.
  rewrite IH by (intros y Hy; apply Hf; by right). by result_simpl.
Qed.

Lemma elem_of_range i n : i ∈ range n ↔ (0 ≤ i < n)%Z.
Proof. unfold range. rewrite elem_of_seqZ. lia. Qed.

Lemma date_add_days_in_range today i :
  (0 < ymd2ord today + i)%Z → (ymd2ord today + i ≤ MAXORDINAL)%Z →
  date_add_days today i = Ok (ord2ymd (ymd2ord today + i)).
Proof.
  intros Hlo Hhi. unfold date_add_days.
  apply Z.ltb_lt in Hlo. apply Z.leb_le in Hhi. by rewrite Hlo, Hhi.
Qed.

(** C3, as the code has it. The window is today, the day after, and so
    on up to [DATE_WINDOW_DAYS] days after today, that day included:
    one date more than the configured number of days (and none when
    the number is negative), each printed as year-month-day. *)
Theorem iso_dates_window G today :
  (0 < ymd2ord today)%Z →
  (ymd2ord today + DATE_WINDOW_DAYS G ≤ MAXORDINAL)%Z →
  ∃ dates,
    iso_dates G today = Ok dates
    ∧ length dates = Z.to_nat (DATE_WINDOW_DAYS G + 1)
    ∧ ∀ i : nat, (i < length dates)%nat →
        dates !! i
        = Some (strftime_Y_m_d (ord2ymd (ymd2ord today + Z.of_nat i))).
Proof.
  intros Hlo Hhi.
  exists ((λ i, strftime_Y_m_d (ord2ymd (ymd2ord today + i)))
            <$> range (DATE_WINDOW_DAYS G + 1)).
  split; [|split].
  - unfold iso_dates. apply traverse_Ok. intros i Hi.
    apply elem_of_range in Hi.
    rewrite date_add_days_in_range by lia. by result_simpl.
  - unfold range. by rewrite length_fmap, length_seqZ.
  - intros i Hi. unfold range in *.
    rewrite length_fmap, length_seqZ in Hi.
    rewrite list_lookup_fmap, lookup_seqZ_lt by lia. simpl.
    by rewrite Z.add_0_l.
Qed.

Lemma iso_dates_window_witness :
  ∃ dates,
    iso_dates (globals_of env_mail) (Date 2025 5 31) = Ok dates
    ∧ length dates = Z.to_nat (DATE_WINDOW_DAYS (globals_of env_mail) + 1)
    ∧ ∀ i : nat, (i < length dates)%nat →
        dates !! i
        = Some (strftime_Y_m_d
                  (ord2ymd (ymd2ord (Date 2025 5 31) + Z.of_nat i))).
Proof.
  apply (iso_dates_window (globals_of env_mail) (Date 2025 5 31)).
  - reflexivity.
  - vm_compute. discriminate.
Defined.

(** C3 as stated fails: with the window length left at its default of
    57 days, the run goes through 58 dates, from today to the 57th day
    after it. *)
Lemma iso_dates_default_58 :
  DATE_WINDOW_DAYS (globals_of env_mail) = 57%Z
  ∧ ∃ dates,
      iso_dates (globals_of env_mail) (Date 2025 5 31) = Ok dates
      ∧ length dates = 58%nat
      ∧ dates !! 0%nat = Some (lit "2025-05-31")
      ∧ dates !! 57%nat = Some (lit "2025-07-27").
Proof.
  split; [reflexivity|].
  eexists. split; [vm_compute; reflexivity|].
  split; [reflexivity|]. split; reflexivity.
Qed.

(** *** The run: what touches the snapshot file *)

Create HintDb frame.

Lemma keeps_ret {A} (a : A) : keeps_snapshot (mret a : M A).
Proof. by intros w. Qed.

Lemma keeps_bind {A B} (c : M A) (k : A → M B) :
  keeps_snapshot c → (∀ a, keeps_snapshot (k a)) → keeps_snapshot (c ≫= k).
Proof.
  intros Hc Hk w. unfold mbind, M_bind. specialize (Hc w).
  destruct (c w) as [[a|e] w1]; simpl in *; [|done].
  by rewrite Hk.
Qed.

Lemma keeps_lift {A} (r : result A) : keeps_snapshot (lift r).
Proof. by intros w. Qed.

Lemma keeps_page browser c : keeps_snapshot (page browser c).
Proof. by intros w. Qed.

Lemma keeps_smtp relay c : keeps_snapshot (smtp relay c).
Proof. by intros w. Qed.

Lemma keeps_print line : keeps_snapshot (print line).
Proof. by intros w. Qed.

Lemma keeps_date_today : keeps_snapshot date_today.
Proof. by intros w. Qed.

Lemma keeps_try_except {A} (c h : M A) caught :
  keeps_snapshot c → keeps_snapshot h → keeps_snapshot (try_except c caught h).
Proof.
  intros Hc Hh w. unfold try_except. specialize (Hc w).
  destruct (c w) as [[a|e] w1]; simpl in *; [done|].
  destruct (caught e); simpl; [|done]. by rewrite Hh.
Qed.

Lemma keeps_finally {A} (c : M A) cleanup :
  keeps_snapshot c → keeps_snapshot cleanup → keeps_snapshot (finally c cleanup).
Proof.
  intros Hc Hh w. unfold finally. specialize (Hc w).
  destruct (c w) as [r w1]. specialize (Hh w1).
  destruct (cleanup w1) as [[u|e] w2]; simpl in *; congruence.
Qed.

Lemma keeps_if {A} (b : bool) (c1 c2 : M A) :
  keeps_snapshot c1 → keeps_snapshot c2 → keeps_snapshot (if b then c1 else c2).
Proof. by destruct b. Qed.

#[global] Hint Resolve keeps_ret keeps_lift keeps_page keeps_smtp keeps_print
  keeps_date_today : frame.

Ltac frame :=
  repeat first
    [ apply keeps_bind; [|intros ?]
    | apply keeps_if
    | apply keeps_try_except
    | apply keeps_finally
    | progress auto with frame ].

Lemma keeps_login browser G : keeps_snapshot (_login browser G).
Proof. unfold _login. frame. Qed.

Lemma keeps_prepare_search browser : keeps_snapshot (_prepare_search browser).
Proof. unfold _prepare_search. frame. Qed.

Lemma keeps_select_date_safe browser iso :
  keeps_snapshot (_select_date_safe browser iso).
Proof. unfold _select_date_safe. frame. Qed.

Lemma keeps_poll nfc lxml browser G left attempt :
  keeps_snapshot (poll nfc lxml browser G left attempt).
Proof.
  revert attempt. induction left as [|left IH]; intros attempt; simpl.
  - apply keeps_ret.
  - frame.
Qed.

#[global] Hint Resolve keeps_login keeps_prepare_search keeps_select_date_safe
  keeps_poll : frame.

Lemma keeps_lines_for_date nfc lxml browser G iso :
  keeps_snapshot (_lines_for_date nfc lxml browser G iso).
Proof. unfold _lines_for_date. frame. Qed.

#[global] Hint Resolve keeps_lines_for_date : frame.

Lemma keeps_for_each_date nfc lxml browser G seen dates :
  keeps_snapshot (for_each_date nfc lxml browser G seen dates).
Proof.
  revert seen. induction dates as [|iso dates IH]; intros seen; simpl.
  - apply keeps_ret.
  - frame.
Qed.

#[global] Hint Resolve keeps_for_each_date : frame.

(** Scraping does not touch the snapshot file. *)
Lemma keeps_fetch_all_slots nfc lxml browser G :
  keeps_snapshot (fetch_all_slots nfc lxml browser G).
Proof. unfold fetch_all_slots. frame. Qed.

(** Neither does the notifier. *)
Lemma keeps_send_email relay policy G new :
  keeps_snapshot (send_email relay policy G new).
Proof. unfold send_email. frame. Qed.

Lemma keeps_print_each new : keeps_snapshot (print_each new).
Proof. induction new as [|ln new IH]; simpl; frame. Qed.

(** Loading never raises and changes nothing. *)
Lemma load_previous_spec nfc w :
  load_previous nfc w = (Ok (previous nfc (snapshot w)), w).
Proof.
  unfold load_previous, try_except, read_text, previous.
  run_simpl. by destruct (snapshot w).
Qed.

Lemma print_each_Ok new w : ∃ w', print_each new w = (Ok (), w').
Proof.
  revert w. induction new as [|ln new IH]; intros w; simpl; [by eexists|].
  run_simpl. unfold print at 1. apply IH.
Qed.

(** The run after scraping, step by step. *)
Lemma main_after_fetch nfc lxml browser relay policy G w current w1 :
  fetch_all_slots nfc lxml browser G w = (Ok current, w1) →
  main nfc lxml browser relay policy G w
  = (send_email relay policy G (new_lines current (previous nfc (snapshot w1)));;
     save_current current;;
     print ([10003%N] ++ lit " " ++ str_of_nat (length current)
            ++ lit " total slots   " ++ [8226%N] ++ lit "   "
            ++ str_of_nat (length (new_lines current (previous nfc (snapshot w1))))
            ++ lit " new since last run");;
     print_each (new_lines current (previous nfc (snapshot w1)))) w1.
Proof.
  intros Hfetch. unfold main.
  unfold mbind at 1, M_bind at 1. rewrite Hfetch.
  unfold mbind at 1, M_bind at 1. by rewrite load_previous_spec.
Qed.

Lemma main_saves nfc lxml browser relay policy G w current w1 w2 :
  fetch_all_slots nfc lxml browser G w = (Ok current, w1) →
  send_email relay policy G (new_lines current (previous nfc (snapshot w1))) w1
  = (Ok (), w2) →
  ∃ w3, main nfc lxml browser relay policy G w = (Ok (), w3)
        ∧ snapshot w3 = Some (join NL current).
Proof.
  intros Hfetch Hsend. rewrite (main_after_fetch _ _ _ _ _ _ _ _ _ Hfetch).
  unfold mbind at 1, M_bind at 1. rewrite Hsend.
  unfold mbind at 1, M_bind at 1. unfold save_current at 1, write_text at 1.
  unfold mbind at 1, M_bind at 1. unfold print at 1.
  match goal with |- ∃ w3, print_each ?new ?w = _ ∧ _ =>
    destruct (print_each_Ok new w) as [w3 Hw3];
    pose proof (keeps_print_each new w) as Hkeep
  end.
  exists w3. rewrite Hw3 in Hkeep |- *. done.
Qed.

Lemma main_aborts nfc lxml browser relay policy G w current w1 e w2 :
  fetch_all_slots nfc lxml browser G w = (Ok current, w1) →
  send_email relay policy G (new_lines current (previous nfc (snapshot w1))) w1
  = (Raise e, w2) →
  main nfc lxml browser relay policy G w = (Raise e, w2)
  ∧ snapshot w2 = snapshot w.
Proof.
  intros Hfetch Hsend. rewrite (main_after_fetch _ _ _ _ _ _ _ _ _ Hfetch).
  unfold mbind at 1, M_bind at 1. rewrite Hsend. split; [done|].
  pose proof (keeps_send_email relay policy G
                (new_lines current (previous nfc (snapshot w1))) w1) as H1.
  pose proof (keeps_fetch_all_slots nfc lxml browser G w) as H2.
  rewrite Hsend in H1. rewrite Hfetch in H2. simpl in *. congruence.
Qed.

(** C4, as the code has it. After scraping has completed, [save_current]
    runs with the current result, and the snapshot file holds exactly
    that result, whenever [send_email] returns: when there was nothing
    new, when mail is not configured, when the mail went out. When
    [send_email] raises, the run ends with that exception before
    [save_current]: the snapshot file is the one the run found. *)
Theorem main_saves_when_notified nfc lxml browser relay policy G w current w1 :
  fetch_all_slots nfc lxml browser G w = (Ok current, w1) →
  (∀ w2,
     send_email relay policy G (new_lines current (previous nfc (snapshot w))) w1
     = (Ok (), w2) →
     ∃ w3, main nfc lxml browser relay policy G w = (Ok (), w3)
           ∧ snapshot w3 = Some (join NL current))
  ∧ (new_lines current (previous nfc (snapshot w)) = [] →
     ∃ w3, main nfc lxml browser relay policy G w = (Ok (), w3)
           ∧ snapshot w3 = Some (join NL current))
  ∧ (∀ e w2,
       send_email relay policy G (new_lines current (previous nfc (snapshot w))) w1
       = (Raise e, w2) →
       main nfc lxml browser relay policy G w = (Raise e, w2)
       ∧ snapshot w2 = snapshot w).
Proof.
  intros Hfetch.
  assert (snapshot w1 = snapshot w) as Hsnap.
  { pose proof (keeps_fetch_all_slots nfc lxml browser G w) as H.
    by rewrite Hfetch in H. }
  rewrite <- Hsnap. split; [|split].
  - intros w2 Hsend. by eapply main_saves.
  - intros Hnone. eapply main_saves; [done|].
    rewrite Hnone. by apply send_email_skips; left.
  - intros e w2 Hsend.
    destruct (main_aborts _ _ _ _ _ _ _ _ _ _ _ Hfetch Hsend) as [Hmain Hw2].
    split; [done|congruence].
Qed.

Lemma main_saves_when_notified_witness :
  (∀ w2,
     send_email relay_accepts policy_accepts (globals_of env_short)
       (new_lines two_slots (previous nfc_composed (snapshot later_run)))
       (fetch_all_slots nfc_composed lxml_results browser_results
          (globals_of env_short) later_run).2
     = (Ok (), w2) →
     ∃ w3, main nfc_composed lxml_results browser_results relay_accepts
             policy_accepts (globals_of env_short) later_run = (Ok (), w3)
           ∧ snapshot w3 = Some (join NL two_slots))
  ∧ (new_lines two_slots (previous nfc_composed (snapshot later_run)) = [] →
     ∃ w3, main nfc_composed lxml_results browser_results relay_accepts
             policy_accepts (globals_of env_short) later_run = (Ok (), w3)
           ∧ snapshot w3 = Some (join NL two_slots))
  ∧ (∀ e w2,
       send_email relay_accepts policy_accepts (globals_of env_short)
         (new_lines two_slots (previous nfc_composed (snapshot later_run)))
         (fetch_all_slots nfc_composed lxml_results browser_results
            (globals_of env_short) later_run).2
       = (Raise e, w2) →
       main nfc_composed lxml_results browser_results relay_accepts
         policy_accepts (globals_of env_short) later_run = (Raise e, w2)
       ∧ snapshot w2 = snapshot later_run).
Proof.
  apply (main_saves_when_notified nfc_composed lxml_results browser_results
           relay_accepts policy_accepts (globals_of env_short) later_run
           two_slots).
  by vm_compute.
Defined.

(** C4 as stated fails when the relay refuses the login: scraping has
    completed with two slots, one of them new; [send_email] raises; the
    run ends with that exception and the snapshot file still holds the
    one old line, not the current result. *)
Lemma main_keeps_old_snapshot_when_mail_fails :
  (fetch_all_slots nfc_composed lxml_results browser_results
     (globals_of env_short) later_run).1 = Ok two_slots
  ∧ (main nfc_composed lxml_results browser_results relay_refuses_login
       policy_accepts (globals_of env_short) later_run).1
    = Raise (External "SMTPAuthenticationError")
  ∧ snapshot (main nfc_composed lxml_results browser_results
                relay_refuses_login policy_accepts (globals_of env_short)
                later_run).2
    = Some (lit "2025-06-01 08:00-09:00 - PA28 G-BODD")
  ∧ join NL two_slots ≠ lit "2025-06-01 08:00-09:00 - PA28 G-BODD".
Proof. repeat split; by vm_compute. Qed.

Lemma SMTP_from_lookup getenv k v :
  SMTP_from getenv !! k = Some v → k ∈ SMTP_KEYS ∧ v = getenv k.
Proof.
  unfold SMTP_from. intros H. apply elem_of_list_to_map_2 in H.
  apply list_elem_of_fmap in H as (k' & [= -> ->] & Hk). done.
Qed.

Lemma load_globals_SMTP_from getenv G :
  load_globals getenv = Ok G → SMTP G = SMTP_from getenv.
Proof.
  unfold load_globals. intros Hload.
  destruct (getenv_int getenv "DATE_WINDOW_DAYS" "57") as [days|]; [|done].
  destruct (getenv_int getenv "SEARCH_WAIT_MS" "2500") as [wait|]; [|done].
  destruct (getenv_int getenv "SEARCH_ATTEMPTS" "2") as [attempts|]; [|done].
  destruct (getenv_int getenv "VERBOSE" "0") as [verbose|]; [|done].
  simpl in Hload. by injection Hload as <-.
Qed.

Lemma all_SMTP_values_set getenv G :
  load_globals getenv = Ok G →
  (∀ k, k ∈ SMTP_KEYS → truthy (getenv k) = true) →
  all_SMTP_values G = true.
Proof.
  intros Hload Hset. apply bool_decide_eq_true. intros k v Hk. simpl.
  rewrite (load_globals_SMTP_from getenv G Hload) in Hk.
  apply SMTP_from_lookup in Hk as [Hk ->]. by apply Hset.
Qed.

Lemma SMTP_item_set getenv G k v :
  load_globals getenv = Ok G → k ∈ SMTP_KEYS → getenv k = Some v →
  SMTP_item G k = Ok v.
Proof.
  intros Hload Hk Hv. unfold SMTP_item.
  by rewrite (load_globals_SMTP getenv G k Hload Hk), Hv.
Qed.

Lemma truthy_Some (v : option str) : truthy v = true → ∃ s, v = Some s ∧ s ≠ [].
Proof. destruct v as [[|c s]|]; try done. intros _. by exists (c :: s). Qed.

(** C10, as the code has it. With new lines to send and all five mail
    settings set to non-empty text, a port that [int] does not read
    makes [send_email] raise before anything goes to the relay: the
    world is as before. When the mail policy stores the three headers,
    the exception is the [ValueError] of the conversion of the port.
    A run that has scraped those new lines ends with the exception,
    and the snapshot file is the one it found. *)
Theorem send_email_port_not_int getenv G relay policy (new : list str)
    (w : World) port :
  load_globals getenv = Ok G →
  new ≠ [] →
  (∀ k, k ∈ SMTP_KEYS → truthy (getenv k) = true) →
  getenv "SMTP_PORT"%string = Some port →
  int port = None →
  (∃ e, send_email relay policy G new w = (Raise e, w))
  ∧ ((∀ name v, policy name v = Ok ()) →
     send_email relay policy G new w
     = (Raise (ValueError "invalid literal for int()"), w))
  ∧ (∀ nfc lxml browser w0 current,
       fetch_all_slots nfc lxml browser G w0 = (Ok current, w) →
       new_lines current (previous nfc (snapshot w)) = new →
       ∃ e, main nfc lxml browser relay policy G w0 = (Raise e, w)
            ∧ snapshot w = snapshot w0).
Proof.
  intros Hload Hnew Hset Hport Hint.
  assert ((∃ e, send_email relay policy G new w = (Raise e, w))
          ∧ ((∀ name v, policy name v = Ok ()) →
             send_email relay policy G new w
             = (Raise (ValueError "invalid literal for int()"), w)))
    as [Hraise Hvalue]; [|split; [done|split; [done|]]].
  2:{ intros nfc lxml browser w0 current Hfetch Hnew'.
      destruct Hraise as [e Hraise]. exists e. subst new.
      by eapply main_aborts. }
  assert (∀ k, k ∈ SMTP_KEYS → ∃ v, SMTP_item G k = Ok v) as Hitem.
  { intros k Hk. destruct (truthy_Some _ (Hset k Hk)) as (s & Hs & _).
    exists s. by eapply SMTP_item_set. }
  destruct (Hitem "SMTP_USER"%string ltac:(compute_done)) as [user Huser].
  destruct (Hitem "SMTP_TO"%string ltac:(compute_done)) as [to Hto].
  destruct (Hitem "SMTP_HOST"%string ltac:(compute_done)) as [host Hhost].
  assert (SMTP_item G "SMTP_PORT" = Ok port) as Hp.
  { eapply SMTP_item_set; [done|compute_done|done]. }
  unfold send_email.
  rewrite (bool_decide_eq_false_2 _ Hnew), (all_SMTP_values_set getenv G Hload Hset).
  cbn [orb negb].
  unfold mbind, M_bind, lift. rewrite Huser, Hto, Hhost, Hp, Hint.
  split.
  - destruct (policy "Subject"%string _); [|by eauto].
    destruct (policy "From"%string _); [|by eauto].
    destruct (policy "To"%string _); by eauto.
  - intros Hok. by rewrite !Hok.
Qed.

Lemma send_email_port_not_int_witness :
  (∃ e, send_email relay_accepts policy_accepts (globals_of env_named_port)
          [slot_Y] first_run = (Raise e, first_run))
  ∧ ((∀ name v, policy_accepts name v = Ok ()) →
     send_email relay_accepts policy_accepts (globals_of env_named_port)
       [slot_Y] first_run
     = (Raise (ValueError "invalid literal for int()"), first_run))
  ∧ (∀ nfc lxml browser w0 current,
       fetch_all_slots nfc lxml browser (globals_of env_named_port) w0
       = (Ok current, first_run) →
       new_lines current (previous nfc (snapshot first_run)) = [slot_Y] →
       ∃ e, main nfc lxml browser relay_accepts policy_accepts
              (globals_of env_named_port) w0 = (Raise e, first_run)
            ∧ snapshot first_run = snapshot w0).
Proof.
  apply (send_email_port_not_int env_named_port _ _ _ _ _ (lit "submission")).
  - reflexivity.
  - discriminate.
  - intros k Hk. repeat (apply elem_of_cons in Hk as [->|Hk]; [reflexivity|]).
    by apply elem_of_nil in Hk.
  - reflexivity.
  - reflexivity.
Defined.

(** C10 as stated fails for a port that is present and empty: the
    empty text is not a number, all five settings are in the
    environment, there are new lines, and [send_email] returns without
    raising (and without sending). *)
Lemma send_email_empty_port_returns :
  load_globals env_empty_port = Ok (globals_of env_empty_port)
  ∧ (∀ k, k ∈ SMTP_KEYS → is_Some (env_empty_port k))
  ∧ env_empty_port "SMTP_PORT"%string = Some []
  ∧ int [] = None
  ∧ send_email relay_accepts policy_accepts (globals_of env_empty_port)
      [slot_Y] first_run = (Ok (), first_run).
Proof.
  split; [reflexivity|]. split; [|by vm_compute].
  intros k Hk. repeat (apply elem_of_cons in Hk as [->|Hk]; [by eexists|]).
  by apply elem_of_nil in Hk.
Qed.

(** *** The scrape, with line 155 closed: the union over the window *)

(** The accumulating loop computes the union of the per-date results. *)
Lemma for_each_date_union nfc lxml browser G dates seen w :
  for_each_date nfc lxml browser G seen dates w
  = outcome_map (λ sets, seen ∪ ⋃ sets) (scan_dates nfc lxml browser G dates w).
Proof.
  revert seen w. induction dates as [|iso dates IH]; intros seen w; simpl.
  - run_simpl. unfold outcome_map. by rewrite (right_id_L ∅ (∪)).
  - unfold mbind, M_bind.
    destruct (_lines_for_date nfc lxml browser G iso w) as [[lines|e] w1];
      [|reflexivity].
    rewrite IH.
    destruct (scan_dates nfc lxml browser G dates w1) as [[sets|e] w2];
      [|reflexivity].
    unfold outcome_map, mret, M_ret. simpl. by rewrite (assoc_L (∪)).
Qed.

Lemma traverse_length {A B} (f : A → result B) xs ys :
  traverse f xs = Ok ys → length ys = length xs.
Proof.
  revert ys. induction xs as [|x xs IH]; intros ys; simpl.
  - by intros [= <-].
  - destruct (f x) as [y|]; result_simpl; [|done].
    destruct (traverse f xs) as [ys'|]; result_simpl; [|done].
    intros [= <-]. simpl. f_equal. by apply IH.
Qed.

Lemma scan_dates_length nfc lxml browser G dates w sets w' :
  scan_dates nfc lxml browser G dates w = (Ok sets, w') →
  length sets = length dates.
Proof.
  revert w sets w'. induction dates as [|iso dates IH]; intros w sets w'; simpl.
  - by intros [= <- _].
  - unfold mbind, M_bind.
    destruct (_lines_for_date nfc lxml browser G iso w) as [[lines|e] w1];
      [|by intros [=]].
    destruct (scan_dates nfc lxml browser G dates w1) as [[rest|e] w2] eqn:Hrest;
      [|by intros [=]].
    unfold mret, M_ret. intros [= <- _]. simpl. f_equal. by eapply IH.
Qed.

Lemma bind_outcome {A B C} (c : M A) (k1 : A → M B) (k2 : A → M C)
    (f : B → C) w :
  (∀ a w', k2 a w' = outcome_map f (k1 a w')) →
  (c ≫= k2) w = outcome_map f ((c ≫= k1) w).
Proof.
  intros Hk. unfold mbind, M_bind.
  destruct (c w) as [[a|e] w1]; [apply Hk|reflexivity].
Qed.

Lemma bind_ret_outcome {A B} (c : M A) (f : A → B) w :
  (c ≫= λ a, mret (f a)) w = outcome_map f (c w).
Proof. unfold mbind, M_bind. by destruct (c w) as [[a|e] w1]. Qed.

Lemma finally_outcome {A B} (c1 : M A) (c2 : M B) cleanup (f : A → B) w :
  (∀ w', c2 w' = outcome_map f (c1 w')) →
  finally c2 cleanup w = outcome_map f (finally c1 cleanup w).
Proof.
  intros Hc. unfold finally. rewrite Hc.
  destruct (c1 w) as [[a|e] w1]; simpl;
    by destruct (cleanup w1) as [[u|e'] w2].
Qed.

Lemma outcome_map_compose {A B C} (f : A → B) (g : B → C) o :
  outcome_map g (outcome_map f o) = outcome_map (g ∘ f) o.
Proof. by destruct o as [[a|e] w]. Qed.

Lemma outcome_map_ext {A B} (f g : A → B) o :
  (∀ a, f a = g a) → outcome_map f o = outcome_map g o.
Proof. intros Hfg. destruct o as [[a|e] w]; simpl; by rewrite ?Hfg. Qed.

(** [fetch_all_slots] is the scrape, its per-date results united and
    sorted. *)
Lemma fetch_all_slots_scrape nfc lxml browser G w :
  fetch_all_slots nfc lxml browser G w
  = outcome_map (λ sets, sorted_set (⋃ sets)) (scrape nfc lxml browser G w).
Proof.
  unfold fetch_all_slots, scrape.
  apply bind_outcome. intros today w1.
  apply bind_outcome. intros dates w2.
  apply bind_outcome. intros _ w3.
  rewrite bind_ret_outcome.
  match goal with
  | |- _ = outcome_map _ (finally ?c1 ?cleanup _) =>
      rewrite (finally_outcome c1 _ cleanup (λ sets, ∅ ∪ ⋃ sets))
  end.
  - rewrite outcome_map_compose. apply outcome_map_ext. intros sets.
    unfold compose. by rewrite (left_id_L ∅ (∪)).
  - intros w4.
    apply bind_outcome. intros _ w5.
    apply bind_outcome. intros _ w6.
    apply bind_outcome. intros _ w7.
    unfold mbind at 1 3, M_bind at 1 3. rewrite for_each_date_union.
    destruct (scan_dates nfc lxml browser G dates w7) as [[sets|e] w8];
      [|reflexivity].
    simpl. apply bind_outcome. by intros _ w9.
Qed.

Lemma bind_Ok_inv {A B} (c : M A) (k : A → M B) w b w' :
  (c ≫= k) w = (Ok b, w') → ∃ a w1, c w = (Ok a, w1) ∧ k a w1 = (Ok b, w').
Proof.
  unfold mbind, M_bind. destruct (c w) as [[a|e] w1]; [by eauto|by intros [=]].
Qed.

Lemma finally_Ok_inv {A} (c : M A) cleanup w a w' :
  finally c cleanup w = (Ok a, w') → ∃ w1, c w = (Ok a, w1).
Proof.
  unfold finally. destruct (c w) as [r w1].
  destruct (cleanup w1) as [[u|e] w2]; [|by intros [=]].
  intros [= -> _]. by eauto.
Qed.

(** A scrape that returns has one result set for each date of the
    window. *)
Lemma scrape_length nfc lxml browser G w sets w' :
  scrape nfc lxml browser G w = (Ok sets, w') →
  ∃ dates, iso_dates G (clock w) = Ok dates ∧ length sets = length dates.
Proof.
  unfold scrape. intros H.
  apply bind_Ok_inv in H as (today & w1 & [= <- <-] & H).
  apply bind_Ok_inv in H as (dates & w2 & Hdates & H).
  unfold lift in Hdates. injection Hdates as Hdates <-.
  exists dates. split; [done|].
  apply bind_Ok_inv in H as (? & w3 & _ & H).
  apply finally_Ok_inv in H as [w4 H].
  apply bind_Ok_inv in H as (? & w5 & _ & H).
  apply bind_Ok_inv in H as (? & w6 & _ & H).
  apply bind_Ok_inv in H as (? & w7 & _ & H).
  apply bind_Ok_inv in H as (sets' & w8 & Hscan & H).
  apply bind_Ok_inv in H as (? & w9 & _ & H).
  injection H as <- _. by eapply scan_dates_length.
Qed.

(** What the loop is written to do. With the parenthesis of line 155
    closed, [fetch_all_slots] returns what the scrape returns, with the
    per-date result sets of the whole window (one per date) united into
    one set and sorted: the list is strictly increasing, a line is in
    it exactly when some date produced it, and it is the only such
    list, so that it does not depend on the date a line came from. *)
Lemma fetch_all_slots_union nfc lxml browser G w :
  fetch_all_slots nfc lxml browser G w
  = outcome_map (λ sets, sorted_set (⋃ sets)) (scrape nfc lxml browser G w)
  ∧ (∀ sets w', scrape nfc lxml browser G w = (Ok sets, w') →
       ∃ dates, iso_dates G (clock w) = Ok dates
                ∧ length sets = length dates)
  ∧ ∀ sets : list (gset str),
      StronglySorted str_lt (sorted_set (⋃ sets))
      ∧ (∀ ln, ln ∈ sorted_set (⋃ sets) ↔ ∃ S, S ∈ sets ∧ ln ∈ S)
      ∧ (∀ l, StronglySorted str_lt l →
              (∀ ln, ln ∈ l ↔ ∃ S, S ∈ sets ∧ ln ∈ S) →
              l = sorted_set (⋃ sets)).
Proof.
  split; [apply fetch_all_slots_scrape|].
  split; [intros sets w'; apply scrape_length|].
  intros sets. split; [apply sorted_set_strict|]. split.
  - intros ln. by rewrite elem_of_sorted_set, elem_of_union_list.
  - intros l Hl Hel. apply sorted_set_unique; [done|].
    intros ln. by rewrite Hel, elem_of_union_list.
Qed.

(** The sample run: three dates, the same two slots on each, two lines. *)
Lemma fetch_all_slots_sample :
  (fetch_all_slots nfc_composed lxml_results browser_results
     (globals_of env_short) later_run).1 = Ok two_slots
  ∧ (outcome_map length
       (scrape nfc_composed lxml_results browser_results
          (globals_of env_short) later_run)).1 = Ok 3%nat.
Proof. split; by vm_compute. Qed.

(* ===================================================================== *)
(** ** C2: the text of [fetch_all_slots] *)
(* ===================================================================== *)

Module TokenizerFacts.
Import Tokenizer.

Lemma run_app st text1 text2 :
  run st (text1 ++ text2)
  = match run st text1 with
    | inl e => inl e
    | inr st1 => run st1 text2
    end.
Proof.
  revert st. induction text1 as [|c text1 IH]; intros st; simpl; [done|].
  by destruct (step st c).
Qed.

Lemma next_line_inside c line k : next_line c (line + k) = next_line c line + k.
Proof. unfold next_line. by destruct (c =? 10)%N. Qed.

Lemma code_step_inside k base line stack c st2 :
  code_step line stack c = inr st2 →
  ∃ st2',
    code_step (line + k) (((λ b : N * nat, (b.1, b.2 + k)) <$> stack) ++ base) c
    = inr st2'
    ∧ inside k base st2 st2'.
Proof.
  unfold code_step.
  destruct (c =? 35)%N; [intros [= <-]; by eexists|].
  destruct (is_quote c); [intros [= <-]; by eexists|].
  destruct (is_opener c); [intros [= <-]; by eexists|].
  destruct (is_closer c).
  - destruct stack as [|[opener l] stack]; [done|]. simpl.
    destruct (closer_of opener =? c)%N; [|done].
    intros [= <-]. by eexists.
  - intros [= <-]. eexists. split; [done|].
    repeat split; simpl. apply next_line_inside.
Qed.

Lemma step_inside k base st st' c st2 :
  inside k base st st' → step st c = inr st2 →
  ∃ st2', step st' c = inr st2' ∧ inside k base st2 st2'.
Proof.
  destruct st as [m line stack], st' as [m' line' stack'].
  intros (Hm & Hl & Hs). simpl in Hm, Hl, Hs. subst m' line' stack'.
  unfold step. simpl.
  destruct m as [| |q|q|q escaped|q escaped closing].
  - apply code_step_inside.
  - intros [= <-]. eexists. split; [done|].
    repeat split; simpl. apply next_line_inside.
  - destruct (c =? q)%N; [intros [= <-]; by eexists|].
    destruct (c =? 10)%N; [done|]. intros [= <-]. by eexists.
  - destruct (c =? q)%N; [intros [= <-]; by eexists|].
    apply code_step_inside.
  - destruct escaped.
    { intros [= <-]. eexists. split; [done|].
      repeat split; simpl. apply next_line_inside. }
    destruct (c =? q)%N; [intros [= <-]; by eexists|].
    destruct (c =? 10)%N; [done|]. intros [= <-]. by eexists.
  - destruct escaped.
    { intros [= <-]. eexists. split; [done|].
      repeat split; simpl. apply next_line_inside. }
    destruct (c =? q)%N.
    + destruct closing as [|[|[|closing]]]; intros [= <-]; by eexists.
    + intros [= <-]. eexists. split; [done|].
      repeat split; simpl. apply next_line_inside.
Qed.

Lemma run_inside k base text st st' st2 :
  inside k base st st' → run st text = inr st2 →
  ∃ st2', run st' text = inr st2' ∧ inside k base st2 st2'.
Proof.
  revert st st'. induction text as [|c text IH]; intros st st' Hin; simpl.
  - intros [= <-]. by exists st'.
  - destruct (step st c) as [e|st1] eqn:Hstep; [done|].
    destruct (step_inside _ _ _ _ _ _ Hin Hstep) as (st1' & -> & Hin1).
    by apply IH.
Qed.

Lemma at_end_inside k opener line base st st' :
  inside k ((opener, line) :: base) st st' → at_end st = None →
  at_end st' = Some (Never_closed opener line).
Proof.
  intros (Hm & _ & Hs). unfold at_end. rewrite Hm, Hs.
  destruct (at_mode st); try done;
    by destruct (opened st) as [|[??]?].
Qed.

(** A text that tokenizes on its own, read after a text that leaves a
    bracket open, leaves that bracket open. *)
Lemma tokenize_after_open before rest line opener l base :
  run start before = inr (Lexer Code line ((opener, l) :: base)) →
  1 ≤ line →
  tokenize rest = None →
  tokenize (before ++ rest) = Some (Never_closed opener l).
Proof.
  intros Hbefore Hline. unfold tokenize. rewrite run_app, Hbefore.
  destruct (run start rest) as [e|st] eqn:Hrest; [done|].
  intros Hend.
  assert (inside (line - 1) ((opener, l) :: base) start
            (Lexer Code line ((opener, l) :: base))) as Hin.
  { repeat split; simpl. lia. }
  destruct (run_inside _ _ _ _ _ _ Hin Hrest) as (st' & -> & Hin').
  by eapply at_end_inside.
Qed.

End TokenizerFacts.

Lemma module_text_split l155 :
  module_text l155
  = text_of_lines (lines_1_154 ++ [l155]) ++ text_of_lines lines_156_214.
Proof.
  unfold module_text, text_of_lines.
  by rewrite (assoc_L (++)), fmap_app, concat_app.
Qed.

(** C2. The module as it stands does not compile, so
    [fetch_all_slots] returns nothing: the parenthesis that
    [seen.update(] opens on line 155, inside the loop of
    [fetch_all_slots], is never closed. The tokenizer reaches the end
    of the text with it open. No text put after line 155 mends that
    unless it closes a bracket it did not open: any text that
    tokenizes on its own leaves the parenthesis open. With [)] added
    at the end of line 155 every bracket of the module is closed. *)
Theorem line_155_never_closed :
  Tokenizer.tokenize (module_text line_155)
  = Some (Tokenizer.Never_closed 40 155)
  ∧ (∀ rest, Tokenizer.tokenize rest = None →
       Tokenizer.tokenize (text_of_lines (lines_1_154 ++ [line_155]) ++ rest)
       = Some (Tokenizer.Never_closed 40 155))
  ∧ Tokenizer.tokenize (module_text (line_155 ++ lit ")")) = None.
Proof.
  assert (∀ rest, Tokenizer.tokenize rest = None →
            Tokenizer.tokenize (text_of_lines (lines_1_154 ++ [line_155]) ++ rest)
            = Some (Tokenizer.Never_closed 40 155)) as Hopen.
  { intros rest. apply (TokenizerFacts.tokenize_after_open _ _ 156 40 155 []).
    - by vm_compute.
    - lia. }
  split; [|split; [done|by vm_compute]].
  rewrite module_text_split. apply Hopen. by vm_compute.
Qed.

(** *** Canonical text *)

Lemma _canonical_unfold nfc s :
  _canonical nfc s = strip (_WS_RE_sub (hyphenate (nfc s))).
Proof. reflexivity. Qed.

Lemma lstrip_WS_true s :
  lstrip (_WS_RE_sub_from true s) = _WS_RE_sub_from true s.
Proof.
  induction s as [|c s IH]; simpl; [done|].
  destruct (isspace c) eqn:Hc; [done|]. simpl. by rewrite Hc.
Qed.

Lemma lstrip_WS_RE_sub s : lstrip (_WS_RE_sub s) = _WS_RE_sub_from true s.
Proof.
  unfold _WS_RE_sub. destruct s as [|c s]; simpl; [done|].
  destruct (isspace c) eqn:Hc; simpl.
  - apply lstrip_WS_true.
  - by rewrite Hc.
Qed.

Lemma strip_WS_RE_sub s :
  strip (_WS_RE_sub s) = rstrip (_WS_RE_sub_from true s).
Proof. unfold strip. by rewrite lstrip_WS_RE_sub. Qed.

Lemma isspace_32 : isspace 32 = true.
Proof. reflexivity. Qed.

Lemma tight_head c s : tight (c :: s) → isspace c = false.
Proof. by inversion 1. Qed.

(** After trimming, the text with its runs of whitespace replaced is
    tight. *)
Lemma tight_rstrip_WS s :
  tight (rstrip (_WS_RE_sub_from true s))
  ∧ (rstrip (_WS_RE_sub_from false s) = []
     ∨ tight (rstrip (_WS_RE_sub_from false s))
     ∨ ∃ r, rstrip (_WS_RE_sub_from false s) = 32%N :: r ∧ tight r ∧ r ≠ []).
Proof.
  induction s as [|c s [IHt IHf]]; simpl.
  - split; [constructor|by left].
  - destruct (isspace c) eqn:Hc.
    + split; [done|]. simpl.
      destruct (rstrip (_WS_RE_sub_from true s)) as [|x r] eqn:Hr; [by left|].
      right; right. by exists (x :: r).
    + assert (tight (rstrip (c :: _WS_RE_sub_from false s))) as Ht.
      { simpl.
        destruct IHf as [->|[IHf|(r & -> & Hr & Hne)]].
        - rewrite Hc. by constructor.
        - destruct (rstrip (_WS_RE_sub_from false s)) as [|x r] eqn:Hr.
          + rewrite Hc. by constructor.
          + by constructor.
        - by constructor. }
      split; [done|]. by right; left.
Qed.

Lemma tight_strip_WS_RE_sub s : tight (strip (_WS_RE_sub s)).
Proof. rewrite strip_WS_RE_sub. apply tight_rstrip_WS. Qed.

(** On tight text neither the replacement of whitespace nor trimming
    does anything. *)
Lemma tight_WS_fixed s : tight s → ∀ b, _WS_RE_sub_from b s = s.
Proof.
  induction 1 as [|c Hc|c s Hc Hs IH Hne|c s Hc Hs IH Hne]; intros b; simpl.
  - done.
  - by rewrite Hc.
  - by rewrite Hc, IH.
  - rewrite Hc. simpl. by rewrite IH.
Qed.

Lemma tight_lstrip_fixed s : tight s → lstrip s = s.
Proof. destruct 1 as [|c Hc|c s Hc Hs Hne|c s Hc Hs Hne]; simpl; by rewrite ?Hc. Qed.

Lemma tight_rstrip_fixed s : tight s → rstrip s = s.
Proof.
  induction 1 as [|c Hc|c s Hc Hs IH Hne|c s Hc Hs IH Hne]; simpl.
  - done.
  - by rewrite Hc.
  - rewrite IH. by destruct s.
  - rewrite IH. by destruct s.
Qed.

Lemma tight_strip_fixed s : tight s → strip s = s.
Proof.
  intros Hs. unfold strip. by rewrite tight_lstrip_fixed, tight_rstrip_fixed.
Qed.

(** Text without dashes. *)
Lemma replace1_cons old new c s :
  replace1 old new (c :: s)
  = (if (c =? old)%N then new else c) :: replace1 old new s.
Proof. reflexivity. Qed.

Lemma replace1_fixed old new s :
  Forall (λ c, c ≠ old) s → replace1 old new s = s.
Proof.
  induction 1 as [|c s Hc _ IH]; [done|].
  rewrite replace1_cons, IH. by destruct (N.eqb_spec c old).
Qed.

Lemma replace1_gone old new s :
  new ≠ old → Forall (λ c, c ≠ old) (replace1 old new s).
Proof.
  intros Hne. induction s as [|c s IH]; [constructor|].
  rewrite replace1_cons. constructor; [|done].
  by destruct (N.eqb_spec c old).
Qed.

Lemma replace1_Forall (P : N → Prop) old new s :
  P new → Forall P s → Forall P (replace1 old new s).
Proof.
  intros Hnew. induction 1 as [|c s Hc _ IH]; [constructor|].
  rewrite replace1_cons. constructor; [|done].
  by destruct (c =? old)%N.
Qed.

Lemma hyphenate_no_dash s :
  Forall (λ c, c ≠ 8211%N ∧ c ≠ 8212%N) (hyphenate s).
Proof.
  unfold hyphenate. apply Forall_and. split.
  - apply replace1_Forall; [done|]. by apply replace1_gone.
  - by apply replace1_gone.
Qed.

Lemma hyphenate_fixed s :
  Forall (λ c, c ≠ 8211%N ∧ c ≠ 8212%N) s → hyphenate s = s.
Proof.
  intros Hs. apply Forall_and in Hs as [H1 H2]. unfold hyphenate.
  by rewrite (replace1_fixed 8211), (replace1_fixed 8212).
Qed.

Lemma WS_Forall (P : N → Prop) b s :
  P 32%N → Forall P s → Forall P (_WS_RE_sub_from b s).
Proof.
  intros H32 Hs. revert b. induction Hs as [|c s Hc _ IH]; intros b; simpl;
    [done|].
  destruct (isspace c); [destruct b|]; auto.
Qed.

Lemma lstrip_Forall (P : N → Prop) s : Forall P s → Forall P (lstrip s).
Proof.
  induction 1 as [|c s Hc Hs IH]; simpl; [done|].
  destruct (isspace c); auto.
Qed.

Lemma rstrip_Forall (P : N → Prop) s : Forall P s → Forall P (rstrip s).
Proof.
  induction 1 as [|c s Hc Hs IH]; simpl; [done|].
  destruct (rstrip s); [destruct (isspace c)|]; auto.
Qed.

Lemma strip_Forall (P : N → Prop) s : Forall P s → Forall P (strip s).
Proof. intros Hs. by apply rstrip_Forall, lstrip_Forall. Qed.

(** The last three steps of [_canonical] produce tight text without
    dashes, and leave such text as it is. *)
Lemma tidy_shape s :
  tight (strip (_WS_RE_sub (hyphenate s)))
  ∧ Forall (λ c, c ≠ 8211%N ∧ c ≠ 8212%N) (strip (_WS_RE_sub (hyphenate s))).
Proof.
  split; [apply tight_strip_WS_RE_sub|].
  apply strip_Forall, WS_Forall; [done|apply hyphenate_no_dash].
Qed.

Lemma tidy_fixed s :
  tight s → Forall (λ c, c ≠ 8211%N ∧ c ≠ 8212%N) s →
  strip (_WS_RE_sub (hyphenate s)) = s.
Proof.
  intros Ht Hd. rewrite hyphenate_fixed by done.
  unfold _WS_RE_sub. rewrite tight_WS_fixed by done.
  by apply tight_strip_fixed.
Qed.

Lemma _canonical_normalised nfc s :
  NFC_laws nfc → nfc (_canonical nfc s) = _canonical nfc s.
Proof.
  intros [Hidem Hhyph Hws Hstrip]. rewrite _canonical_unfold.
  apply Hstrip, Hws, Hhyph, Hidem.
Qed.

Lemma _canonical_fixed nfc s :
  NFC_laws nfc → _canonical nfc (_canonical nfc s) = _canonical nfc s.
Proof.
  intros Hnfc. rewrite (_canonical_unfold nfc (_canonical nfc s)).
  rewrite _canonical_normalised by done.
  rewrite _canonical_unfold. apply tidy_fixed; apply tidy_shape.
Qed.

(** C8. Canonicalisation is idempotent, for every text, given of
    Unicode normalisation what [NFC_laws] states. *)
Theorem canonical_idempotent nfc (s : str) :
  NFC_laws nfc → _canonical nfc (_canonical nfc s) = _canonical nfc s.
Proof. apply _canonical_fixed. Qed.

Lemma NFC_laws_composed : NFC_laws nfc_composed.
Proof. by split. Qed.

Lemma canonical_idempotent_witness :
  _canonical nfc_composed untidy_line = lit "2025-06-01 08:00-09:00 - PA28"
  ∧ _canonical nfc_composed (_canonical nfc_composed untidy_line)
    = _canonical nfc_composed untidy_line.
Proof.
  split; [reflexivity|].
  apply (canonical_idempotent nfc_composed untidy_line). by split.
Defined.

(** *** The snapshot file *)

Lemma islinebreak_cases c :
  islinebreak c = true →
  c ∈ [10; 11; 12; 13; 28; 29; 30; 133; 8232; 8233]%N.
Proof.
  unfold islinebreak. intros H.
  repeat (apply orb_true_iff in H as [H|H]);
    repeat (apply andb_true_iff in H as [? ?]);
    repeat match goal with
           | H : (_ <=? _)%N = true |- _ => apply N.leb_le in H
           | H : (_ =? _)%N = true |- _ => apply N.eqb_eq in H
           end.
  all: set_unfold; lia.
Qed.

(** Every line boundary is whitespace, and none is the space. *)
Lemma islinebreak_space c : islinebreak c = true → isspace c = true ∧ c ≠ 32%N.
Proof.
  intros H. apply islinebreak_cases in H.
  repeat (apply elem_of_cons in H as [->|H]; [by split|]).
  by apply elem_of_nil in H.
Qed.

Lemma tight_chars s : tight s → Forall (λ c, isspace c = false ∨ c = 32%N) s.
Proof.
  induction 1 as [|c Hc|c s Hc Hs IH Hne|c s Hc Hs IH Hne].
  - constructor.
  - constructor; [by left|constructor].
  - constructor; [by left|done].
  - constructor; [by left|]. constructor; [by right|done].
Qed.

(** Tight text is one line. *)
Lemma tight_one_line s : tight s → Forall (λ c, islinebreak c = false) s.
Proof.
  intros Hs. eapply Forall_impl; [by apply tight_chars|].
  intros c Hc. simpl in Hc. destruct (islinebreak c) eqn:Hb; [|done].
  apply islinebreak_space in Hb as [Hsp Hne]. destruct Hc; congruence.
Qed.

Lemma _canonical_tight nfc s : _canonical nfc s = s → tight s.
Proof. intros <-. rewrite _canonical_unfold. apply tidy_shape. Qed.

Lemma splitlines_from_line cur l rest :
  Forall (λ c, islinebreak c = false) l →
  splitlines_from cur (l ++ rest) = splitlines_from (reverse l ++ cur) rest.
Proof.
  intros Hl. revert cur. induction Hl as [|c l Hc _ IH]; intros cur; [done|].
  simpl. rewrite Hc, IH, reverse_cons. by rewrite <- (assoc_L (++)).
Qed.

Lemma splitlines_from_NL cur rest :
  splitlines_from cur (NL ++ rest) = reverse cur :: splitlines_from [] rest.
Proof. unfold NL. simpl. f_equal. by repeat case_match. Qed.

(** Splitting undoes joining, for lines that are one line each, the
    last of them not empty. *)
Lemma splitlines_join lines :
  Forall (Forall (λ c, islinebreak c = false)) lines →
  last lines ≠ Some [] →
  splitlines (join NL lines) = lines.
Proof.
  unfold splitlines. induction 1 as [|l lines Hl Hlines IH]; intros Hlast;
    [done|].
  destruct lines as [|l2 lines].
  - simpl. rewrite <- (app_nil_r l) at 1.
    rewrite splitlines_from_line by done. rewrite app_nil_r. simpl.
    destruct (reverse l) as [|c r] eqn:Hr.
    + apply (f_equal reverse) in Hr. rewrite reverse_involutive in Hr.
      by subst.
    + by rewrite <- Hr, reverse_involutive.
  - change (join NL (l :: l2 :: lines)) with (l ++ NL ++ join NL (l2 :: lines)).
    rewrite splitlines_from_line by done.
    rewrite splitlines_from_NL, app_nil_r, reverse_involutive.
    f_equal. by apply IH.
Qed.

Lemma universal_newlines_fixed s :
  Forall (λ c, c ≠ 13%N) s → universal_newlines s = s.
Proof.
  induction 1 as [|c s Hc _ IH]; simpl; [done|].
  destruct (N.eqb_spec c 13); [done|]. by rewrite IH.
Qed.

Lemma join_Forall (P : N → Prop) sep lines :
  Forall P sep → Forall (Forall P) lines → Forall P (join sep lines).
Proof.
  intros Hsep. induction 1 as [|l lines Hl Hlines IH]; [constructor|].
  destruct lines as [|l2 lines]; [done|].
  change (join sep (l :: l2 :: lines)) with (l ++ sep ++ join sep (l2 :: lines)).
  by rewrite !Forall_app.
Qed.

Lemma fmap_fixed {A} (f : A → A) (l : list A) :
  Forall (λ x, f x = x) l → f <$> l = l.
Proof. induction 1 as [|x l Hx _ IH]; [done|]. by rewrite fmap_cons, Hx, IH. Qed.

Lemma list_to_set_sorted_set (S : gset str) : list_to_set (sorted_set S) = S.
Proof.
  apply set_eq. intros x. by rewrite elem_of_list_to_set, elem_of_sorted_set.
Qed.

(** The last line of a sorted result is empty only for the result
    that is one empty line. *)
Lemma sorted_set_last_empty (S : gset str) :
  last (sorted_set S) = Some [] → S = {[ [] ]}.
Proof.
  intros Hlast.
  assert (∀ x, x ∈ sorted_set S → x = []) as Hall.
  { pose proof (sorted_StronglySorted (elements S)) as Hs.
    fold (sorted_set S) in Hs. revert Hlast Hs.
    generalize (sorted_set S). intros l.
    induction l as [|y l IH]; intros Hlast Hs x Hx;
      [by apply elem_of_nil in Hx|].
    apply StronglySorted_inv in Hs as [Hs Hy].
    destruct l as [|z l].
    - apply list_elem_of_singleton in Hx. simpl in Hlast. congruence.
    - assert (∀ x, x ∈ z :: l → x = []) as Hl by (by apply IH).
      apply elem_of_cons in Hx as [Hxy|Hx]; [|by apply Hl].
      subst x. apply Forall_cons in Hy as [Hyz _].
      rewrite (Hl z) in Hyz by left. unfold str_le in Hyz. by destruct y. }
  apply set_eq. intros x. rewrite elem_of_singleton. split.
  - intros Hx. apply Hall. by apply elem_of_sorted_set.
  - intros ->. apply elem_of_sorted_set.
    destruct (sorted_set S) as [|y l]; [done|].
    assert (y = []) as -> by (apply Hall; left). left.
Qed.

(** Saving a canonical result and loading it again gives it back,
    unless the result is the single empty line. *)
Lemma save_then_load (nfc : str → str) (S : gset str) (w : World) :
  (∀ ln, ln ∈ S → _canonical nfc ln = ln) →
  S ≠ {[ [] ]} →
  ∃ w1, save_current (sorted_set S) w = (Ok (), w1)
        ∧ snapshot w1 = Some (join NL (sorted_set S))
        ∧ load_previous nfc w1 = (Ok S, w1).
Proof.
  intros Hcanon Hne. eexists. split; [reflexivity|]. split; [reflexivity|].
  rewrite load_previous_spec. simpl. do 2 f_equal.
  assert (Forall (Forall (λ c, islinebreak c = false)) (sorted_set S)) as Hlines.
  { apply Forall_forall. intros ln Hln. apply elem_of_sorted_set in Hln.
    by eapply tight_one_line, _canonical_tight, Hcanon. }
  rewrite universal_newlines_fixed.
  - rewrite splitlines_join; [|done|].
    + rewrite fmap_fixed; [apply list_to_set_sorted_set|].
      apply Forall_forall. intros ln Hln. by apply Hcanon, elem_of_sorted_set.
    + intros Hlast. by apply Hne, sorted_set_last_empty.
  - apply join_Forall; [by repeat constructor|].
    eapply Forall_impl; [exact Hlines|]. intros ln Hln.
    eapply Forall_impl; [exact Hln|]. by intros c Hc ->.
Qed.

(** C7. Saving the sorted lines of a set of canonical slot lines (each
    left as it is by [_canonical], none empty) and loading the file
    again gives the same set, the empty set included; and a missing or
    empty file loads as the empty set. *)
Theorem snapshot_round_trip (nfc : str → str) (S : gset str) (w : World) :
  (∀ ln, ln ∈ S → _canonical nfc ln = ln ∧ ln ≠ []) →
  (∃ w1, save_current (sorted_set S) w = (Ok (), w1)
         ∧ load_previous nfc w1 = (Ok S, w1))
  ∧ (snapshot w = None ∨ snapshot w = Some [] →
     load_previous nfc w = (Ok ∅, w)).
Proof.
  intros Hlines. split.
  - destruct (save_then_load nfc S w) as (w1 & Hsave & _ & Hload).
    + intros ln Hln. by apply Hlines.
    + intros ->. by destruct (Hlines [] ltac:(by apply elem_of_singleton)).
    + by exists w1.
  - rewrite load_previous_spec. by intros [->| ->].
Qed.

Lemma snapshot_round_trip_witness :
  (∃ w1, save_current (sorted_set (list_to_set two_slots)) first_run = (Ok (), w1)
         ∧ load_previous nfc_composed w1 = (Ok (list_to_set two_slots), w1))
  ∧ (snapshot first_run = None ∨ snapshot first_run = Some [] →
     load_previous nfc_composed first_run = (Ok ∅, first_run)).
Proof.
  apply (snapshot_round_trip nfc_composed (list_to_set two_slots) first_run).
  intros ln Hln. apply elem_of_list_to_set in Hln.
  repeat (apply elem_of_cons in Hln as [->|Hln]; [by split|]).
  by apply elem_of_nil in Hln.
Defined.

(** The one result the file does not give back: a single empty line
    is written as an empty file, which loads as no line at all. (No
    card yields an empty line.) *)
Lemma empty_line_not_given_back :
  ∃ w1, save_current (sorted_set {[ [] ]}) first_run = (Ok (), w1)
        ∧ load_previous nfc_composed w1 = (Ok ∅, w1).
Proof. eexists. split; reflexivity. Qed.

(* ===================================================================== *)
(** ** Further properties of the script *)
(* ===================================================================== *)

(** *** The text helpers *)

Lemma tight_no_double_space s :
  tight s → ∀ i, s !! i = Some 32%N → s !! S i ≠ Some 32%N.
Proof.
  induction 1 as [|c Hc|c s Hc Hs IH Hne|c s Hc Hs IH Hne]; intros i Hi Hsi.
  - done.
  - destruct i as [|i]; [|done]. injection Hi as ->. done.
  - destruct i as [|i]; [injection Hi as ->; done|].
    by apply (IH i).
  - destruct i as [|[|i]].
    + injection Hi as ->. done.
    + destruct s as [|x s]; [done|]. injection Hsi as ->.
      by apply tight_head in Hs.
    + by apply (IH i).
Qed.

(** X1. Whatever the text and whatever normalisation does to it, the
    result of [_canonical] has no whitespace at either end, no
    whitespace other than the space, no two spaces in a row, neither
    an en dash nor an em dash, and no line boundary: it is one line. *)
Theorem canonical_shape (nfc : str → str) (s : str) :
  strip (_canonical nfc s) = _canonical nfc s
  ∧ Forall (λ c, isspace c = true → c = 32%N) (_canonical nfc s)
  ∧ (∀ i, _canonical nfc s !! i = Some 32%N →
          _canonical nfc s !! S i ≠ Some 32%N)
  ∧ Forall (λ c, c ≠ 8211%N ∧ c ≠ 8212%N) (_canonical nfc s)
  ∧ Forall (λ c, islinebreak c = false) (_canonical nfc s).
Proof.
  rewrite _canonical_unfold.
  destruct (tidy_shape (nfc s)) as [Ht Hd].
  split; [by apply tight_strip_fixed|].
  split; [|split; [by apply tight_no_double_space|split; [done|]]].
  - eapply Forall_impl; [by apply tight_chars|].
    intros c [Hc| ->] Hsp; [congruence|done].
  - by apply tight_one_line.
Qed.

(** X2. When [_TIME_RE.search] finds something, the two groups are
    each two digits, a colon and two digits, they stand in the text
    with nothing but whitespace and one hyphen between them, and no
    match starts further to the left. *)
Theorem TIME_RE_search_groups (s start stop : str) :
  _TIME_RE_search s = Some (start, stop) →
  hh_mm start ∧ hh_mm stop
  ∧ ∃ before ws1 ws2 after,
      s = before ++ start ++ ws1 ++ [45%N] ++ ws2 ++ stop ++ after
      ∧ Forall (λ x, isspace x = true) ws1
      ∧ Forall (λ x, isspace x = true) ws2
      ∧ ∀ k, k < length before → _TIME_RE_match (drop k s) = None.
Proof.
  induction s as [|c s IH]; [done|].
  cbn [_TIME_RE_search].
  destruct (_TIME_RE_match (c :: s)) as [[g1 g2]|] eqn:Hm.
  - intros [= -> ->].
    apply _TIME_RE_match_spec in Hm
      as (ws1 & ws2 & after & Hs & Hstart & Hstop & Hws1 & Hws2).
    split; [done|]. split; [done|].
    exists [], ws1, ws2, after. repeat split; try done.
    intros k Hk. simpl in Hk. lia.
  - intros Hs. destruct (IH Hs)
      as (Hstart & Hstop & before & ws1 & ws2 & after & -> & Hws1 & Hws2 & Hleft).
    split; [done|]. split; [done|].
    exists (c :: before), ws1, ws2, after. repeat split; try done.
    intros [|k] Hk; [done|]. simpl in Hk. apply Hleft. lia.
Qed.

Lemma TIME_RE_search_groups_witness :
  hh_mm (lit "08:00") ∧ hh_mm (lit "09:00")
  ∧ ∃ before ws1 ws2 after,
      lit "from 08:00 - 09:00, or 10:00-11:00"
      = before ++ lit "08:00" ++ ws1 ++ [45%N] ++ ws2 ++ lit "09:00" ++ after
      ∧ Forall (λ x, isspace x = true) ws1
      ∧ Forall (λ x, isspace x = true) ws2
      ∧ ∀ k, k < length before →
             _TIME_RE_match (drop k (lit "from 08:00 - 09:00, or 10:00-11:00"))
             = None.
Proof.
  apply (TIME_RE_search_groups (lit "from 08:00 - 09:00, or 10:00-11:00")).
  reflexivity.
Defined.

(** *** Dates in words *)

Lemma rstrip_spaces ws : Forall (λ x, isspace x = true) ws → rstrip ws = [].
Proof. induction 1 as [|c ws Hc _ IH]; simpl; [done|]. by rewrite IH, Hc. Qed.

Lemma rstrip_app_spaces s ws :
  Forall (λ x, isspace x = true) ws → rstrip (s ++ ws) = rstrip s.
Proof.
  intros Hws. induction s as [|c s IH]; simpl; [by apply rstrip_spaces|].
  by rewrite IH.
Qed.

Lemma rstrip_nonspace s c : isspace c = false → rstrip (s ++ [c]) = s ++ [c].
Proof.
  intros Hc. induction s as [|x s IH]; simpl; [by rewrite Hc|].
  rewrite IH. by destruct s.
Qed.

(** Surrounding whitespace goes, and nothing else, when the text
    starts and ends with something else. *)
Lemma strip_padded pad1 c s d pad2 :
  Forall (λ x, isspace x = true) pad1 → Forall (λ x, isspace x = true) pad2 →
  isspace c = false → isspace d = false →
  strip (pad1 ++ (c :: s ++ [d]) ++ pad2) = c :: s ++ [d].
Proof.
  intros H1 H2 Hc Hd. unfold strip.
  rewrite lstrip_spaces by done.
  rewrite <- app_comm_cons, lstrip_nonspace by done.
  rewrite app_comm_cons, rstrip_app_spaces by done.
  by rewrite app_comm_cons, rstrip_nonspace.
Qed.

Lemma digit_cases n : digit n ∈ [48; 49; 50; 51; 52; 53; 54; 55; 56; 57]%N.
Proof.
  unfold digit. pose proof (Z.mod_pos_bound n 10 ltac:(lia)) as Hk.
  assert (n mod 10 ∈ seqZ 0 10)%Z as Hin by (apply elem_of_seqZ; lia).
  revert Hin. generalize (n mod 10)%Z. clear. intros k Hin.
  repeat (apply elem_of_cons in Hin as [->|Hin]; [compute_done|]).
  by apply elem_of_nil in Hin.
Qed.

Lemma decimal_digit n : decimal (digit n) = Some (Z.to_N (n mod 10)).
Proof.
  unfold digit. pose proof (Z.mod_pos_bound n 10 ltac:(lia)) as Hk.
  assert (n mod 10 ∈ seqZ 0 10)%Z as Hin by (apply elem_of_seqZ; lia).
  revert Hin. generalize (n mod 10)%Z. clear. intros k Hin.
  repeat (apply elem_of_cons in Hin as [->|Hin]; [reflexivity|]).
  by apply elem_of_nil in Hin.
Qed.

Lemma isspace_digit n : isspace (digit n) = false.
Proof.
  pose proof (digit_cases n) as Hin. revert Hin. generalize (digit n). intros c Hin.
  repeat (apply elem_of_cons in Hin as [->|Hin]; [reflexivity|]).
  by apply elem_of_nil in Hin.
Qed.

Lemma lower_isspace c : isspace (lower c) = isspace c.
Proof.
  unfold lower. destruct ((65 <=? c) && (c <=? 90))%N eqn:Hup; [|done].
  apply andb_true_iff in Hup as [H1%N.leb_le H2%N.leb_le].
  assert (isspace c = false) as ->.
  { destruct (isspace c) eqn:Hs; [|done].
    apply isspace_cases in Hs. set_unfold. lia. }
  destruct (isspace (c + 32)) eqn:Hs; [|done].
  apply isspace_cases in Hs. set_unfold. lia.
Qed.

Lemma after_name_Some name s r :
  after_name name s = Some r → ∃ p, s = p ++ r ∧ lower <$> p = name.
Proof.
  revert s. induction name as [|a name IH]; intros s; simpl.
  - intros [= <-]. by exists [].
  - destruct s as [|c s]; [done|].
    destruct (N.eqb_spec (lower c) a) as [<-|]; [|done].
    intros (p & -> & <-)%IH. by exists (c :: p).
Qed.

Lemma after_name_lower p r : after_name (lower <$> p) (p ++ r) = Some r.
Proof. induction p as [|c p IH]; simpl; [done|]. by rewrite N.eqb_refl. Qed.

(** A name of the list is found, whatever the case of its letters,
    when no two names of the list start alike. *)
Lemma match_month_found names m name nm rest :
  (∀ m' name', (m', name') ∈ names →
     name' `prefix_of` name ∨ name `prefix_of` name' → (m', name') = (m, name)) →
  (m, name) ∈ names →
  lower <$> nm = name →
  match_month names (nm ++ rest) = Some (m, rest).
Proof.
  intros Hapart Hin Hnm.
  induction names as [|[m' name'] names IH]; [by apply elem_of_nil in Hin|].
  simpl. destruct (after_name name' (nm ++ rest)) as [r|] eqn:Hafter.
  - apply after_name_Some in Hafter as (p & Hp & Hname').
    assert (name' `prefix_of` name ∨ name `prefix_of` name') as Hrel.
    { destruct (prefix_weak_total p nm (nm ++ rest)) as [[k ->]|[k ->]].
      - exists r. by rewrite Hp.
      - by exists rest.
      - left. exists (lower <$> k). by rewrite <- Hname', <- Hnm, fmap_app.
      - right. exists (lower <$> k). by rewrite <- Hname', <- Hnm, fmap_app. }
    pose proof (Hapart m' name' ltac:(left) Hrel) as Heq.
    injection Heq as -> ->.
    do 2 f_equal. rewrite <- Hname' in Hnm.
    apply (f_equal length) in Hnm. rewrite !length_fmap in Hnm.
    by apply app_inj_1 in Hp as [_ <-].
  - apply elem_of_cons in Hin as [[= -> ->]|Hin].
    + by rewrite <- Hnm, after_name_lower in Hafter.
    + apply IH; [|done]. intros m2 name2 H2. apply Hapart. by right.
Qed.

Lemma month_names_apart :
  Forall (λ p1, Forall (λ p2, p1.2 `prefix_of` p2.2 ∨ p2.2 `prefix_of` p1.2 →
                              p1 = p2) month_names) month_names.
Proof. by compute_done. Qed.

Lemma match_month_month_names m name nm rest :
  (m, name) ∈ month_names → lower <$> nm = name →
  match_month month_names (nm ++ rest) = Some (m, rest).
Proof.
  intros Hin Hnm. apply (match_month_found month_names m name); [|done..].
  intros m' name' Hin' Hrel.
  pose proof month_names_apart as Hall.
  rewrite Forall_forall in Hall. specialize (Hall _ Hin').
  rewrite Forall_forall in Hall. apply (Hall _ Hin). simpl. tauto.
Qed.

Lemma month_names_head m name :
  (m, name) ∈ month_names →
  (1 ≤ m ≤ 12)%Z ∧ ∃ c s, name = c :: s ∧ isspace c = false.
Proof.
  intros Hin.
  repeat (apply elem_of_cons in Hin as [[= -> ->]|Hin];
          [split; [lia|by eexists _, _]|]).
  by apply elem_of_nil in Hin.
Qed.

Lemma spaces1_skips ws c s :
  Forall (λ x, isspace x = true) ws → ws ≠ [] → isspace c = false →
  spaces1 (ws ++ c :: s) = Some (c :: s).
Proof.
  intros Hws Hne Hc. destruct Hws as [|x ws Hx Hws]; [done|].
  simpl. rewrite Hx. by rewrite lstrip_spaces, lstrip_nonspace.
Qed.

Lemma valid_date_day d : valid_date d = true → (1 ≤ day d ≤ 31)%Z.
Proof.
  unfold valid_date. rewrite !andb_true_iff, !Z.leb_le.
  intros [[[[[_ _] Hm1] Hm2] Hd1] Hd2].
  assert (month d ∈ seqZ 1 12) as Hin by (apply elem_of_seqZ; lia).
  revert Hin Hd2. generalize (month d). clear -Hd1. intros m Hin.
  unfold days_in_month.
  repeat (apply elem_of_cons in Hin as [->|Hin];
          [simpl; destruct (is_leap (year d)); simpl; lia|]).
  by apply elem_of_nil in Hin.
Qed.

Lemma match_day_comma_two_digits dd r :
  (1 ≤ dd ≤ 31)%Z → match_day_comma (two_digits dd ++ 44%N :: r) = Some (dd, r).
Proof.
  intros Hdd. assert (dd ∈ seqZ 1 31) as Hin by (apply elem_of_seqZ; lia).
  clear Hdd.
  repeat (apply elem_of_cons in Hin as [->|Hin]; [reflexivity|]).
  by apply elem_of_nil in Hin.
Qed.

(** A year of four digits is printed with its four digits, and read
    back from them. *)
Lemma year_digits_four y :
  (1000 ≤ y ≤ 9999)%Z →
  year_digits y = [digit (y / 1000); digit (y / 100); digit (y / 10); digit y].
Proof.
  intros Hy. unfold year_digits.
  assert (y / 1000 ∈ seqZ 1 9)%Z as Hin.
  { assert (1 ≤ y / 1000 < 10)%Z
      by (split; [apply Z.div_le_lower_bound; lia
                 |apply Z.div_lt_upper_bound; lia]).
    apply elem_of_seqZ. lia. }
  revert Hin. generalize (y / 1000)%Z. intros q Hin.
  repeat (apply elem_of_cons in Hin as [->|Hin]; [reflexivity|]).
  by apply elem_of_nil in Hin.
Qed.

Lemma match_year_digits y r :
  (1000 ≤ y ≤ 9999)%Z →
  match_year ([digit (y / 1000); digit (y / 100); digit (y / 10); digit y] ++ r)
  = Some (y, r).
Proof.
  intros Hy. simpl. rewrite !decimal_digit. do 2 f_equal.
  rewrite !Z2N.id by (apply Z.mod_pos_bound; lia).
  Z.div_mod_to_equations. lia.
Qed.

(** X3. [_normalise_date] reads a date in words: a month name in any
    mix of upper and lower case, whitespace, the day in two digits, a
    comma, whitespace and a year of four digits, with any whitespace
    around the whole. For every date of the calendar written that way
    the result is the date as year-month-day. *)
Theorem normalise_date_long_form (m dd y : Z) (name nm pad1 ws1 ws2 pad2 : str) :
  (m, name) ∈ month_names → lower <$> nm = name →
  valid_date (Date y m dd) = true → (1000 ≤ y)%Z →
  Forall (λ x, isspace x = true) pad1 → Forall (λ x, isspace x = true) pad2 →
  Forall (λ x, isspace x = true) ws1 → ws1 ≠ [] →
  Forall (λ x, isspace x = true) ws2 → ws2 ≠ [] →
  _normalise_date
    (pad1 ++ (nm ++ ws1 ++ two_digits dd ++ [44%N] ++ ws2 ++ year_digits y) ++ pad2)
  = Ok (strftime_Y_m_d (Date y m dd)).
Proof.
  intros Hin Hnm Hvalid Hy Hpad1 Hpad2 Hws1 Hne1 Hws2 Hne2.
  pose proof (valid_date_day _ Hvalid) as Hdd. simpl in Hdd.
  assert (1000 ≤ y ≤ 9999)%Z as Hy4.
  { split; [done|]. unfold valid_date in Hvalid.
    rewrite !andb_true_iff, !Z.leb_le in Hvalid. simpl in Hvalid.
    unfold MAXYEAR in Hvalid. lia. }
  destruct (month_names_head m name Hin) as (_ & c0 & s0 & Hname & Hc0).
  destruct nm as [|c nm]; [by subst name|].
  assert (isspace c = false) as Hc.
  { rewrite <- lower_isspace. rewrite Hname in Hnm. by injection Hnm as -> _. }
  rewrite year_digits_four by done.
  unfold _normalise_date.
  match goal with |- context [strip ?t] =>
    assert (strip t
            = (c :: nm) ++ ws1 ++ two_digits dd ++ [44%N] ++ ws2
              ++ [digit (y / 1000); digit (y / 100); digit (y / 10); digit y])
      as ->
  end.
  { match goal with |- _ = ?t =>
      replace t with
        (c :: (nm ++ ws1 ++ two_digits dd ++ [44%N] ++ ws2
               ++ [digit (y / 1000); digit (y / 100); digit (y / 10)])
           ++ [digit y])
    end.
    - apply strip_padded; try done. apply isspace_digit.
    - simpl. f_equal. repeat (rewrite <- !(assoc_L (++)); simpl). done. }
  unfold strptime_B_d_Y, parse_B_d_Y.
  rewrite (match_month_month_names m name (c :: nm)) by done.
  cbn [mbind option_bind].
  change (two_digits dd ++ ?r) with (digit (dd / 10) :: digit dd :: r).
  rewrite spaces1_skips by (done || apply isspace_digit).
  cbn [mbind option_bind].
  change (digit (dd / 10) :: digit dd :: [44%N] ++ ?r)
    with (two_digits dd ++ 44%N :: r).
  rewrite match_day_comma_two_digits by done.
  cbn [mbind option_bind].
  rewrite spaces1_skips by (done || apply isspace_digit).
  cbn [mbind option_bind].
  rewrite <- (app_nil_r [digit (y / 1000); _; _; _]).
  rewrite match_year_digits by done.
  cbn [mbind option_bind]. rewrite Hvalid. done.
Qed.

Lemma normalise_date_long_form_witness :
  _normalise_date (lit " June 01, 2025 ") = Ok (lit "2025-06-01").
Proof.
  apply (normalise_date_long_form 6 1 2025 (lit "june") (lit "June")
           (lit " ") (lit " ") (lit " ") (lit " "));
    try done; by repeat constructor.
Defined.

(** *** What canonical text does not tell apart *)

Lemma WS_idem s :
  _WS_RE_sub_from false (_WS_RE_sub_from false s) = _WS_RE_sub_from false s
  ∧ _WS_RE_sub_from true (_WS_RE_sub_from true s) = _WS_RE_sub_from true s
  ∧ _WS_RE_sub_from false (_WS_RE_sub_from true s) = _WS_RE_sub_from true s.
Proof.
  induction s as [|c s (IH1 & IH2 & IH3)]; simpl; [done|].
  destruct (isspace c) eqn:Hc; simpl; rewrite ?Hc, ?isspace_32; simpl.
  - by rewrite IH2.
  - by rewrite IH1.
Qed.

Lemma WS_replace1 old new b s :
  isspace old = false → isspace new = false →
  _WS_RE_sub_from b (replace1 old new s)
  = replace1 old new (_WS_RE_sub_from b s).
Proof.
  intros Hold Hnew. revert b. induction s as [|c s IH]; intros b; [done|].
  rewrite replace1_cons. simpl.
  destruct (N.eqb_spec c old) as [->|Hc].
  - rewrite Hnew, Hold, replace1_cons, N.eqb_refl. by rewrite IH.
  - destruct (isspace c) eqn:Hsp.
    + destruct b; [done|]. rewrite replace1_cons, IH.
      destruct (N.eqb_spec 32 old) as [<-|]; [by rewrite isspace_32 in Hold|done].
    + rewrite replace1_cons, IH. by destruct (N.eqb_spec c old).
Qed.

Lemma WS_hyphenate s : _WS_RE_sub (hyphenate s) = hyphenate (_WS_RE_sub s).
Proof. unfold _WS_RE_sub, hyphenate. by rewrite !WS_replace1. Qed.

Lemma lstrip_replace1 old new s :
  isspace old = false → isspace new = false →
  lstrip (replace1 old new s) = replace1 old new (lstrip s).
Proof.
  intros Hold Hnew. induction s as [|c s IH]; [done|].
  rewrite replace1_cons. simpl.
  destruct (N.eqb_spec c old) as [->|Hc].
  - by rewrite Hnew, Hold, replace1_cons, N.eqb_refl.
  - destruct (isspace c); [done|].
    rewrite replace1_cons. by destruct (N.eqb_spec c old).
Qed.

Lemma rstrip_replace1 old new s :
  isspace old = false → isspace new = false →
  rstrip (replace1 old new s) = replace1 old new (rstrip s).
Proof.
  intros Hold Hnew. induction s as [|c s IH]; [done|].
  rewrite replace1_cons. simpl. rewrite IH.
  destruct (rstrip s) as [|x r]; simpl.
  - destruct (N.eqb_spec c old) as [->|Hc].
    + by rewrite Hnew, Hold, replace1_cons, N.eqb_refl.
    + destruct (isspace c); [done|].
      rewrite replace1_cons. by destruct (N.eqb_spec c old).
  - done.
Qed.

Lemma strip_hyphenate s : hyphenate (strip s) = strip (hyphenate s).
Proof.
  unfold hyphenate, strip.
  by rewrite !lstrip_replace1, !rstrip_replace1.
Qed.

Lemma WS_true_lstrip s : _WS_RE_sub_from true (lstrip s) = _WS_RE_sub_from true s.
Proof.
  induction s as [|c s IH]; simpl; [done|].
  destruct (isspace c) eqn:Hc; [done|]. simpl. by rewrite Hc.
Qed.

Lemma rstrip_cons_nonspace c s : isspace c = false → rstrip (c :: s) = c :: rstrip s.
Proof. intros Hc. simpl. destruct (rstrip s); by rewrite ?Hc. Qed.

Lemma rstrip_WS_rstrip b s :
  rstrip (_WS_RE_sub_from b (rstrip s)) = rstrip (_WS_RE_sub_from b s).
Proof.
  revert b. induction s as [|c s IH]; intros b; [done|].
  destruct (isspace c) eqn:Hc.
  - cbn [rstrip _WS_RE_sub_from]. rewrite Hc.
    destruct (rstrip s) as [|x r] eqn:Hr.
    + destruct b; cbn [_WS_RE_sub_from rstrip].
      * by rewrite <- IH.
      * rewrite <- IH. cbn [_WS_RE_sub_from rstrip]. by rewrite isspace_32.
    + rewrite <- Hr in IH |- *. cbn [_WS_RE_sub_from]. rewrite Hc.
      destruct b; [by rewrite IH|].
      cbn [rstrip]. by rewrite IH.
  - rewrite rstrip_cons_nonspace by done.
    cbn [_WS_RE_sub_from]. rewrite Hc. cbn [rstrip]. by rewrite IH.
Qed.

Lemma strip_WS_strip s : strip (_WS_RE_sub (strip s)) = strip (_WS_RE_sub s).
Proof.
  rewrite !strip_WS_RE_sub. unfold strip.
  by rewrite rstrip_WS_rstrip, WS_true_lstrip.
Qed.

(** X4. Canonical text does not tell apart texts that differ in the
    kind of dash, in the amount or kind of whitespace between words,
    or in whitespace at the ends: for text that is normalised
    already, replacing its dashes by hyphens, its runs of whitespace
    by single spaces, or trimming it, leaves its canonical form as it
    is. *)
Theorem canonical_absorbs (nfc : str → str) (s : str) :
  NFC_laws nfc → nfc s = s →
  _canonical nfc (hyphenate s) = _canonical nfc s
  ∧ _canonical nfc (_WS_RE_sub s) = _canonical nfc s
  ∧ _canonical nfc (strip s) = _canonical nfc s.
Proof.
  intros [Hidem Hhyph Hws Hstrip] Hs. rewrite !_canonical_unfold.
  rewrite Hhyph, Hws, Hstrip, Hs by done.
  split; [|split].
  - by rewrite hyphenate_fixed by apply hyphenate_no_dash.
  - rewrite !WS_hyphenate. unfold _WS_RE_sub.
    by rewrite (proj1 (WS_idem s)).
  - by rewrite strip_hyphenate, strip_WS_strip.
Qed.

Lemma canonical_absorbs_witness :
  _canonical nfc_composed (hyphenate untidy_line)
  = _canonical nfc_composed untidy_line
  ∧ _canonical nfc_composed (_WS_RE_sub untidy_line)
    = _canonical nfc_composed untidy_line
  ∧ _canonical nfc_composed (strip untidy_line)
    = _canonical nfc_composed untidy_line.
Proof.
  apply (canonical_absorbs nfc_composed untidy_line); [by split|reflexivity].
Defined.

(** *** The card parser, when it yields a line *)

(** X5. A card yields a line exactly when it has its date element
    and its time element, the time holds the pattern, the date reads
    as month name, day, year, and an [h3] comes before the card. The
    line is then the canonical form of the date as year-month-day, a
    space, the two times with one hyphen between them, [" - "], and
    the text of that heading, or ["Unknown booking"] when the heading
    has no text. *)
Theorem card_to_line_line nfc (card_div : tag) (ln : str) :
  _card_to_line nfc card_div = Ok (Some ln) ↔
  ∃ d t start stop day h3,
    card_date_span card_div = Some d
    ∧ card_time_span card_div = Some t
    ∧ _TIME_RE_search (get_text t) = Some (start, stop)
    ∧ strptime_B_d_Y (strip (get_text d)) = Ok day
    ∧ find_previous card_div (lit "h3") = Some h3
    ∧ ln = _canonical nfc
             (strftime_Y_m_d day ++ lit " " ++ start ++ lit "-" ++ stop
              ++ lit " - "
              ++ (if bool_decide (get_text_strip h3 = [])
                  then lit "Unknown booking" else get_text_strip h3)).
Proof.
  split.
  - destruct (card_date_span card_div) as [d|] eqn:Hd.
    2:{ unfold card_date_span in Hd. unfold _card_to_line. by rewrite Hd. }
    destruct (card_time_span card_div) as [t|] eqn:Ht.
    2:{ unfold card_date_span, card_time_span in *. unfold _card_to_line.
        by rewrite Hd, Ht. }
    destruct (_TIME_RE_search (get_text t)) as [[start stop]|] eqn:Hs.
    2:{ unfold card_date_span, card_time_span in *. unfold _card_to_line.
        by rewrite Hd, Ht, Hs. }
    rewrite (_card_to_line_unfold nfc card_div d t start stop Hd Ht Hs).
    unfold _normalise_date.
    destruct (strptime_B_d_Y (strip (get_text d))) as [day|] eqn:Hday;
      result_simpl; [|done].
    destruct (find_previous card_div (lit "h3")) as [h3|] eqn:Hh3;
      result_simpl; [|done].
    intros [= <-]. exists d, t, start, stop, day, h3.
    repeat split; try done. by destruct (get_text_strip h3).
  - intros (d & t & start & stop & day & h3 & Hd & Ht & Hs & Hday & Hh3 & ->).
    rewrite (_card_to_line_unfold nfc card_div d t start stop Hd Ht Hs).
    unfold _normalise_date. rewrite Hday, Hh3. result_simpl.
    by destruct (get_text_strip h3).
Qed.

(** *** The page parser *)

Lemma traverse_Ok_inv {A B} (f : A → result B) xs ys :
  traverse f xs = Ok ys ↔ Forall2 (λ x y, f x = Ok y) xs ys.
Proof.
  revert ys. induction xs as [|x xs IH]; intros ys; simpl.
  - split; [intros [= <-]; constructor|by inversion 1].
  - destruct (f x) as [y|e] eqn:Hx; result_simpl.
    + destruct (traverse f xs) as [ys'|e] eqn:Hxs; result_simpl.
      * split.
        -- intros [= <-]. constructor; [done|]. by apply IH.
        -- inversion 1 as [|? y' ? ys'' Hy Hys]; subst.
           apply IH in Hys. congruence.
      * split; [done|]. inversion 1 as [|? y' ? ys'' Hy Hys]; subst.
        by apply IH in Hys.
    + split; [done|]. inversion 1; congruence.
Qed.

(** A comprehension raises what its first raising element raises. *)
Lemma traverse_Raise_inv {A B} (f : A → result B) xs e :
  traverse f xs = Raise e ↔
  ∃ before x after,
    xs = before ++ x :: after
    ∧ Forall (λ x, ∃ y, f x = Ok y) before
    ∧ f x = Raise e.
Proof.
  induction xs as [|x xs IH]; simpl.
  - split; [done|]. intros (before & x & after & Hxs & _). by destruct before.
  - destruct (f x) as [y|e'] eqn:Hx; result_simpl.
    + destruct (traverse f xs) as [ys'|e'] eqn:Hxs; result_simpl.
      * split; [done|].
        intros (before & x' & after & Hcons & Hbefore & Hraise).
        destruct before as [|b before]; simplify_eq/=; [congruence|].
        apply Forall_cons in Hbefore as [_ Hbefore].
        assert (Ok ys' = Raise e :> result (list B)) as Habs; [|done].
        apply IH. by exists before, x', after.
      * split.
        -- intros [= ->].
           destruct (proj1 IH eq_refl) as (before & x' & after & -> & Hb & Hr).
           exists (x :: before), x', after. split; [done|]. split; [|done].
           constructor; [by eauto|done].
        -- intros (before & x' & after & Hcons & Hbefore & Hraise).
           destruct before as [|b before]; simplify_eq/=; [congruence|].
           apply Forall_cons in Hbefore as [_ Hbefore].
           apply IH. by exists before, x', after.
    + split.
      * intros [= ->]. exists [], x, xs. by repeat split.
      * intros (before & x' & after & Hcons & Hbefore & Hraise).
        destruct before as [|b before]; simplify_eq/=; [congruence|].
        apply Forall_cons in Hbefore as [[y Hy] _]. congruence.
Qed.

Lemma elem_of_filter_None lines ln :
  ln ∈ filter_None lines ↔ ln ≠ [] ∧ Some ln ∈ lines.
Proof.
  unfold filter_None. rewrite list_elem_of_omap. split.
  - intros ([[|c s]|] & Hin & Heq); simplify_eq/=. done.
  - intros [Hne Hin]. exists (Some ln). split; [done|]. by destruct ln.
Qed.

Lemma html_to_lines_Ok_inv nfc lxml html lines :
  html_to_lines nfc lxml html = Ok lines →
  ∃ found,
    Forall2 (λ card_div o, _card_to_line nfc card_div = Ok o)
            (select (lxml html) (lit "div") [lit "p-6"; lit "flex"]) found
    ∧ lines = sorted_set (list_to_set (filter_None found)).
Proof.
  unfold html_to_lines.
  destruct (traverse (_card_to_line nfc) _) as [found|e] eqn:Hfound;
    result_simpl; [|done].
  intros [= <-]. exists found. split; [|done]. by apply traverse_Ok_inv.
Qed.

Lemma html_to_lines_elem nfc lxml html lines ln :
  html_to_lines nfc lxml html = Ok lines →
  ln ∈ lines ↔
    ln ≠ []
    ∧ ∃ card_div,
        card_div ∈ select (lxml html) (lit "div") [lit "p-6"; lit "flex"]
        ∧ _card_to_line nfc card_div = Ok (Some ln).
Proof.
  intros (found & Hfound & ->)%html_to_lines_Ok_inv.
  rewrite elem_of_sorted_set, elem_of_list_to_set, elem_of_filter_None.
  split; intros [Hne Hin]; (split; [done|]).
  - apply list_elem_of_lookup in Hin as [i Hi].
    destruct (Forall2_lookup_r _ _ _ _ _ Hfound Hi) as (card_div & Hc & Hline).
    exists card_div. split; [|done]. by eapply list_elem_of_lookup_2.
  - destruct Hin as (card_div & Hin & Hline).
    apply list_elem_of_lookup in Hin as [i Hi].
    destruct (Forall2_lookup_l _ _ _ _ _ Hfound Hi) as (o & Ho & Hline').
    rewrite Hline in Hline'. injection Hline' as <-. by eapply list_elem_of_lookup_2.
Qed.

(** X6. When the page parses, its lines are in strictly increasing
    order (so none is repeated), and a line is among them exactly when
    it is not empty and some card of the page yields it. *)
Theorem html_to_lines_lines nfc lxml html lines :
  html_to_lines nfc lxml html = Ok lines →
  StronglySorted str_lt lines
  ∧ ∀ ln, ln ∈ lines ↔
      ln ≠ []
      ∧ ∃ card_div,
          card_div ∈ select (lxml html) (lit "div") [lit "p-6"; lit "flex"]
          ∧ _card_to_line nfc card_div = Ok (Some ln).
Proof.
  intros Hlines. split.
  - apply html_to_lines_Ok_inv in Hlines as (found & _ & ->).
    apply sorted_set_strict.
  - intros ln. by apply html_to_lines_elem.
Qed.

Lemma html_to_lines_lines_witness :
  StronglySorted str_lt two_slots
  ∧ ∀ ln, ln ∈ two_slots ↔
      ln ≠ []
      ∧ ∃ card_div,
          card_div ∈ select (lxml_results results_html) (lit "div")
                            [lit "p-6"; lit "flex"]
          ∧ _card_to_line nfc_composed card_div = Ok (Some ln).
Proof.
  apply (html_to_lines_lines nfc_composed lxml_results results_html two_slots).
  reflexivity.
Defined.

(** X7. The page parser raises exactly when some card raises, and then
    it raises what the first such card in document order raises. *)
Theorem html_to_lines_first_raise nfc lxml html e :
  html_to_lines nfc lxml html = Raise e ↔
  ∃ before card_div after,
    select (lxml html) (lit "div") [lit "p-6"; lit "flex"]
    = before ++ card_div :: after
    ∧ Forall (λ c, ∃ o, _card_to_line nfc c = Ok o) before
    ∧ _card_to_line nfc card_div = Raise e.
Proof.
  rewrite <- traverse_Raise_inv. unfold html_to_lines.
  destruct (traverse (_card_to_line nfc) _) as [found|e']; result_simpl; [done|].
  split; by intros [= ->].
Qed.

(** *** The browser session *)

Lemma reads_app a b : reads (a ++ b) = reads a + reads b.
Proof. unfold reads. by rewrite filter_app, length_app. Qed.

Lemma reads_ret {A} (a : A) : reads_at_most 0 (mret a : M A).
Proof. intros w. exists []. by rewrite app_nil_r. Qed.

Lemma reads_lift {A} (r : result A) : reads_at_most 0 (lift r).
Proof. intros w. exists []. by rewrite app_nil_r. Qed.

Lemma reads_print line : reads_at_most 0 (print line).
Proof. intros w. exists []. by rewrite app_nil_r. Qed.

Lemma reads_date_today : reads_at_most 0 date_today.
Proof. intros w. exists []. by rewrite app_nil_r. Qed.

Lemma reads_page browser c :
  reads_at_most (if is_read c then 1 else 0) (page browser c).
Proof. intros w. exists [c]. split; [done|]. by destruct c. Qed.

Lemma reads_weaken {A} n m (c : M A) :
  reads_at_most n c → n ≤ m → reads_at_most m c.
Proof.
  intros Hc Hnm w. destruct (Hc w) as (calls & Hlog & Hn).
  exists calls. split; [done|lia].
Qed.

Lemma reads_bind {A B} n m (c : M A) (k : A → M B) :
  reads_at_most n c → (∀ a, reads_at_most m (k a)) →
  reads_at_most (n + m) (c ≫= k).
Proof.
  intros Hc Hk w. unfold mbind, M_bind.
  destruct (Hc w) as (calls1 & Hlog1 & Hn).
  destruct (c w) as [[a|e] w1]; simpl in *.
  - destruct (Hk a w1) as (calls2 & Hlog2 & Hm).
    exists (calls1 ++ calls2). rewrite Hlog2, Hlog1, reads_app.
    split; [by rewrite (assoc_L (++))|lia].
  - exists calls1. split; [done|lia].
Qed.

Lemma reads_try_except {A} n m (c h : M A) caught :
  reads_at_most n c → reads_at_most m h →
  reads_at_most (n + m) (try_except c caught h).
Proof.
  intros Hc Hh w. unfold try_except.
  destruct (Hc w) as (calls1 & Hlog1 & Hn).
  destruct (c w) as [[a|e] w1]; simpl in *.
  - exists calls1. split; [done|lia].
  - destruct (caught e); simpl.
    + destruct (Hh w1) as (calls2 & Hlog2 & Hm).
      exists (calls1 ++ calls2). rewrite Hlog2, Hlog1, reads_app.
      split; [by rewrite (assoc_L (++))|lia].
    + exists calls1. split; [done|lia].
Qed.

Lemma reads_finally {A} n m (c : M A) cleanup :
  reads_at_most n c → reads_at_most m cleanup →
  reads_at_most (n + m) (finally c cleanup).
Proof.
  intros Hc Hh w. unfold finally.
  destruct (Hc w) as (calls1 & Hlog1 & Hn).
  destruct (c w) as [r w1]; simpl in *.
  destruct (Hh w1) as (calls2 & Hlog2 & Hm).
  exists (calls1 ++ calls2).
  split; [|rewrite reads_app; lia].
  destruct (cleanup w1) as [[u|e] w2]; simpl in *;
    by rewrite Hlog2, Hlog1, (assoc_L (++)).
Qed.

Lemma reads_if {A} n m (b : bool) (c1 c2 : M A) :
  reads_at_most n c1 → reads_at_most m c2 →
  reads_at_most (n + m) (if b then c1 else c2).
Proof.
  intros H1 H2. destruct b; (eapply reads_weaken; [done|lia]).
Qed.

Lemma reads_login browser G : reads_at_most 0 (_login browser G).
Proof.
  unfold _login. eapply reads_weaken.
  - eapply reads_bind; [apply reads_page|intros ?].
    eapply reads_bind; [apply reads_page|intros url].
    apply reads_if; [apply reads_ret|].
    repeat (eapply reads_bind; [apply reads_page|intros ?]). apply reads_ret.
  - simpl. lia.
Qed.

Lemma reads_prepare_search browser : reads_at_most 0 (_prepare_search browser).
Proof.
  unfold _prepare_search. eapply reads_weaken.
  - repeat (eapply reads_bind; [apply reads_page|intros ?]). apply reads_ret.
  - simpl. lia.
Qed.

Lemma reads_select_date_safe browser iso :
  reads_at_most 0 (_select_date_safe browser iso).
Proof.
  unfold _select_date_safe. eapply reads_weaken.
  - eapply reads_try_except; [|apply reads_ret].
    repeat (eapply reads_bind; [apply reads_page|intros ?]). apply reads_ret.
  - simpl. lia.
Qed.

Lemma reads_poll nfc lxml browser G left attempt :
  reads_at_most left (poll nfc lxml browser G left attempt).
Proof.
  revert attempt. induction left as [|left IH]; intros attempt; simpl.
  - apply reads_ret.
  - eapply reads_weaken.
    + eapply reads_bind; [apply reads_page|intros ?].
      eapply reads_bind; [apply reads_page|intros html].
      eapply reads_bind; [apply reads_lift|intros found].
      apply reads_if; [apply reads_ret|apply IH].
    + simpl. lia.
Qed.

Lemma reads_lines_for_date nfc lxml browser G iso :
  reads_at_most (Z.to_nat (SEARCH_ATTEMPTS G))
    (_lines_for_date nfc lxml browser G iso).
Proof.
  unfold _lines_for_date. eapply reads_weaken.
  - eapply reads_bind; [apply reads_prepare_search|intros ?].
    eapply reads_bind; [apply reads_select_date_safe|intros ok].
    apply reads_if.
    + eapply reads_bind; [|intros ?; apply reads_ret].
      apply reads_if; [apply reads_print|apply reads_ret].
    + eapply reads_bind; [apply reads_page|intros ?].
      eapply reads_bind; [apply reads_poll|intros lines].
      eapply reads_bind; [|intros ?; apply reads_ret].
      apply reads_if; [apply reads_print|apply reads_ret].
  - simpl. lia.
Qed.

(** X8. Whatever the page answers, and on every way out,
    [_lines_for_date] only adds calls to those made on the page
    before, and among the calls it adds there are at most
    [SEARCH_ATTEMPTS] reads of the page (none when that number is not
    positive). *)
Theorem lines_for_date_reads_bounded nfc lxml browser G (iso : str) (w : World) :
  ∃ calls,
    page_log (_lines_for_date nfc lxml browser G iso w).2 = page_log w ++ calls
    ∧ reads calls ≤ Z.to_nat (SEARCH_ATTEMPTS G).
Proof. apply reads_lines_for_date. Qed.

(** X9. [_select_date_safe] never raises, whatever the page does: it
    answers [True] when the option for the date turned up and was
    selected, and [False] when either call on the page raised. *)
Theorem select_date_safe_never_raises browser (iso : str) (w : World) :
  ∃ ok w',
    _select_date_safe browser iso w = (Ok ok, w')
    ∧ (ok = true ↔
       ∃ a b,
         browser (page_log w)
           (WaitForSelector (lit "select#data\.date option[value=" ++ dq
                             ++ iso ++ dq ++ lit "]")) = Ok a
         ∧ browser
             (page_log w
              ++ [WaitForSelector (lit "select#data\.date option[value=" ++ dq
                                   ++ iso ++ dq ++ lit "]")])
             (SelectOption (lit "select#data\.date") iso) = Ok b).
Proof.
  unfold _select_date_safe, try_except, page. run_simpl. cbn [page_log].
  destruct (browser (page_log w) _) as [a|e] eqn:Ha.
  - destruct (browser (page_log w ++ _) _) as [b|e] eqn:Hb.
    + eexists _, _. split; [done|]. split; [by eauto|done].
    + eexists _, _. split; [done|]. split; [done|]. by intros (? & ? & _ & [=]).
  - eexists _, _. split; [done|]. split; [done|]. by intros (? & ? & [=] & _).
Qed.



Lemma traverse_raises_only {A B} (f : A → result B) xs x e0 :
  (∀ y e, f y = Raise e → e = e0) →
  x ∈ xs → f x = Raise e0 →
  traverse f xs = Raise e0.
Proof.
  intros Honly Hx Hfx.
  destruct (traverse_Raise f xs x e0 Hx Hfx) as [e He].
  rewrite He. f_equal.
  apply traverse_Raise_inv in He as (before & y & after & _ & _ & Hy).
  by eapply Honly.
Qed.

(** X12. When the window would run past the last day [date] has
    (31 December 9999), building the list of its dates raises
    [OverflowError]. *)
Theorem iso_dates_overflow G (today : date) :
  (0 ≤ DATE_WINDOW_DAYS G)%Z →
  (MAXORDINAL < ymd2ord today + DATE_WINDOW_DAYS G)%Z →
  iso_dates G today = Raise (OverflowError "date value out of range").
Proof.
  intros Hpos Hover. unfold iso_dates.
  apply (traverse_raises_only _ _ (DATE_WINDOW_DAYS G)).
  - intros i e. unfold date_add_days.
    destruct ((0 <? _) && (_ <=? MAXORDINAL))%Z; result_simpl; [done|].
    by intros [= <-].
  - apply elem_of_range. lia.
  - unfold date_add_days.
    destruct (Z.leb_spec (ymd2ord today + DATE_WINDOW_DAYS G) MAXORDINAL);
      [lia|].
    by rewrite andb_false_r.
Qed.

Lemma iso_dates_overflow_witness :
  iso_dates (globals_of env_short) (Date 9999 12 30)
  = Raise (OverflowError "date value out of range").
Proof.
  apply (iso_dates_overflow (globals_of env_short) (Date 9999 12 30)).
  - by vm_compute.
  - by vm_compute.
Defined.

(** *** Reads of the page, one by one *)

Lemma reads_none calls j : reads calls = 0 → calls !! j ≠ Some Content.
Proof.
  unfold reads. intros Hnone Hj. apply length_zero_iff_nil in Hnone.
  apply list_elem_of_lookup_2 in Hj.
  assert (Content ∈ filter (λ c, is_read c = true) calls) as Hin
    by by apply list_elem_of_filter.
  rewrite Hnone in Hin. by apply elem_of_nil in Hin.
Qed.

Lemma read_in_cons browser before c calls j html :
  read_in browser before (c :: calls) (S j) html
  ↔ read_in browser (before ++ [c]) calls j html.
Proof. unfold read_in. simpl. by rewrite <- (assoc_L (++)). Qed.

Lemma read_in_app browser before calls0 calls1 j html :
  reads calls0 = 0 →
  read_in browser before (calls0 ++ calls1) j html →
  ∃ j', read_in browser (before ++ calls0) calls1 j' html.
Proof.
  intros Hnone [Hj Hhtml].
  destruct (decide (j < length calls0)) as [Hlt|Hge].
  - rewrite lookup_app_l in Hj by done. by apply reads_none in Hj.
  - exists (j - length calls0). split.
    + by rewrite lookup_app_r in Hj by lia.
    + rewrite take_app, take_ge in Hhtml by lia.
      by rewrite <- (assoc_L (++)).
Qed.



(** *** No handler for a page that does not parse *)







(** *** The polling loop *)

Lemma list_to_set_empty_inv (found : list str) :
  (list_to_set found : gset str) = ∅ → found = [].
Proof.
  destruct found as [|ln found]; [done|]. intros Hnone. exfalso.
  apply (not_elem_of_empty (C:=gset str) ln). rewrite <- Hnone.
  apply elem_of_list_to_set. left.
Qed.

Lemma poll_first_found nfc lxml browser G left attempt w lines w' :
  poll nfc lxml browser G left attempt w = (Ok lines, w') →
  lines ≠ ∅ →
  ∃ calls html found,
    page_log w' = page_log w ++ calls ++ [Content]
    ∧ browser (page_log w ++ calls) Content = Ok html
    ∧ html_to_lines nfc lxml html = Ok found
    ∧ lines = list_to_set found
    ∧ ∀ j html', read_in browser (page_log w) calls j html' →
                 html_to_lines nfc lxml html' = Ok [].
Proof.
  revert attempt w. induction left as [|left IH]; intros attempt w; simpl.
  - by intros [= <- _].
  - intros H Hne.
    apply bind_Ok_inv in H as (? & w1 & Hwait & H).
    apply bind_Ok_inv in H as (html & w2 & Hpage & H).
    apply bind_Ok_inv in H as (found & w3 & Hfound & H).
    unfold lift in Hfound. injection Hfound as Hfound <-.
    unfold page in Hwait, Hpage.
    injection Hwait as _ <-. injection Hpage as Hhtml <-. simpl in Hhtml.
    destruct (negb (bool_decide (list_to_set found = ∅))) eqn:Hshown;
      cbn [orb] in H.
    + injection H as <- <-.
      exists [WaitForTimeout (SEARCH_WAIT_MS G)], html, found.
      simpl. rewrite <- (assoc_L (++)). repeat split; try done.
      intros [|[|j]] html' [Hj _]; done.
    + apply negb_false_iff, bool_decide_eq_true in Hshown.
      apply list_to_set_empty_inv in Hshown as ->.
      destruct (_ =? _)%Z.
      { injection H as <- _. by destruct Hne. }
      destruct (IH _ _ H Hne) as (calls & html2 & found2 & Hlog & Hread & Hparse
                                  & Hlines & Hearlier).
      exists (WaitForTimeout (SEARCH_WAIT_MS G) :: Content :: calls),
        html2, found2.
      simpl in Hlog, Hread. rewrite <- !(assoc_L (++)) in Hlog, Hread.
      repeat split; try done.
      intros [|[|j]] html' Hj.
      * by destruct Hj.
      * destruct Hj as [_ Hj]. simpl in Hj. rewrite Hhtml in Hj.
        by injection Hj as <-.
      * apply (proj1 (read_in_cons _ _ _ _ _ _)) in Hj.
        apply (proj1 (read_in_cons _ _ _ _ _ _)) in Hj.
        exact (Hearlier j html' Hj).
Qed.

(** X13. The polling loop stops at the first read that shows any
    line. When [_lines_for_date] returns lines, they are the lines of
    the page as it was last read; that read is the last call made on
    the page; and every read made before it in the same call showed a
    page without a line. *)
Theorem lines_for_date_first_found nfc lxml browser G (iso : str) (w : World)
    lines w' :
  _lines_for_date nfc lxml browser G iso w = (Ok lines, w') →
  lines ≠ ∅ →
  ∃ calls html found,
    page_log w' = page_log w ++ calls ++ [Content]
    ∧ browser (page_log w ++ calls) Content = Ok html
    ∧ html_to_lines nfc lxml html = Ok found
    ∧ lines = list_to_set found
    ∧ ∀ j html', read_in browser (page_log w) calls j html' →
                 html_to_lines nfc lxml html' = Ok [].
Proof.
  unfold _lines_for_date. intros H Hne.
  apply bind_Ok_inv in H as (? & w1 & Hprep & H).
  apply bind_Ok_inv in H as (ok & w2 & Hsel & H).
  destruct ok; cbn [negb] in H.
  2:{ apply bind_Ok_inv in H as (? & w3 & _ & H). by injection H as <- _. }
  apply bind_Ok_inv in H as (? & w3 & Hclick & H).
  apply bind_Ok_inv in H as (found & w4 & Hpoll & H).
  apply bind_Ok_inv in H as ([] & w5 & Hprint & H).
  injection H as <- <-.
  destruct (reads_prepare_search browser w) as (c1 & Hc1 & Hn1).
  destruct (reads_select_date_safe browser iso w1) as (c2 & Hc2 & Hn2).
  rewrite Hprep in Hc1. rewrite Hsel in Hc2. simpl in Hc1, Hc2.
  unfold page in Hclick. injection Hclick as _ <-.
  destruct (poll_first_found _ _ _ _ _ _ _ _ _ Hpoll Hne)
    as (calls & html & found' & Hlog & Hread & Hparse & Hlines & Hearlier).
  simpl in Hlog, Hread, Hearlier.
  rewrite Hc2, Hc1, <- !(assoc_L (++)) in Hlog, Hread.
  set (click := Click (lit "button:has-text(" ++ dq ++ lit "Search" ++ dq
                       ++ lit ")")) in *.
  exists (c1 ++ c2 ++ [click] ++ calls), html, found'.
  rewrite <- !(assoc_L (++)). split.
  { destruct (VERBOSE G); [|by injection Hprint as <-].
    unfold print in Hprint. by injection Hprint as <-. }
  repeat split; try done.
  intros j html' Hj.
  replace (c1 ++ c2 ++ [click] ++ calls)
    with ((c1 ++ c2 ++ [click]) ++ calls) in Hj
    by by rewrite <- !(assoc_L (++)).
  apply read_in_app in Hj as [j' Hj].
  - apply (Hearlier j' html'). by rewrite Hc2, Hc1, <- !(assoc_L (++)).
  - rewrite !reads_app. assert (reads [click] = 0) by done. lia.
Qed.

Lemma lines_for_date_first_found_witness :
  ∃ calls html found,
    page_log (_lines_for_date nfc_composed lxml_results browser_slow
                (globals_of env_short) (lit "2025-06-01") first_run).2
    = page_log first_run ++ calls ++ [Content]
    ∧ browser_slow (page_log first_run ++ calls) Content = Ok html
    ∧ html_to_lines nfc_composed lxml_results html = Ok found
    ∧ (list_to_set two_slots : gset str) = list_to_set found
    ∧ ∀ j html', read_in browser_slow (page_log first_run) calls j html' →
                 html_to_lines nfc_composed lxml_results html' = Ok [].
Proof.
  apply (lines_for_date_first_found nfc_composed lxml_results browser_slow
           (globals_of env_short) (lit "2025-06-01") first_run
           (list_to_set two_slots)).
  - by vm_compute.
  - intros Hnone.
    apply (not_elem_of_empty (C:=gset str)
             (lit "2025-06-01 08:00-09:00 - PA28 G-BODD")).
    rewrite <- Hnone. apply elem_of_list_to_set. left.
Defined.

(** *** Where the lines of a run come from *)

Lemma page_Ok_inv browser c w a w' :
  page browser c w = (Ok a, w') → browser (page_log w) c = Ok a.
Proof. unfold page. by intros [= -> _]. Qed.

Lemma poll_shown nfc lxml browser G left attempt w lines w' :
  poll nfc lxml browser G left attempt w = (Ok lines, w') →
  ∀ ln, ln ∈ lines → left ≠ 0 ∧ shown nfc lxml browser ln.
Proof.
  revert attempt w. induction left as [|left IH]; intros attempt w; simpl.
  - intros [= <- _] ln Hln. by apply elem_of_empty in Hln.
  - intros H.
    apply bind_Ok_inv in H as (? & w1 & _ & H).
    apply bind_Ok_inv in H as (html & w2 & Hhtml%page_Ok_inv & H).
    apply bind_Ok_inv in H as (found & w3 & Hfound & H).
    unfold lift in Hfound. injection Hfound as Hfound _.
    destruct (negb _ || _).
    + injection H as <- _. intros ln Hln%elem_of_list_to_set.
      split; [done|]. by exists (page_log w1), html, found.
    + intros ln Hln. split; [done|]. by eapply IH.
Qed.

Lemma lines_for_date_shown nfc lxml browser G iso w lines w' :
  _lines_for_date nfc lxml browser G iso w = (Ok lines, w') →
  ∀ ln, ln ∈ lines → (0 < SEARCH_ATTEMPTS G)%Z ∧ shown nfc lxml browser ln.
Proof.
  unfold _lines_for_date. intros H.
  apply bind_Ok_inv in H as (? & w1 & _ & H).
  apply bind_Ok_inv in H as (ok & w2 & _ & H).
  destruct ok; cbn [negb] in H.
  - apply bind_Ok_inv in H as (? & w3 & _ & H).
    apply bind_Ok_inv in H as (found & w4 & Hpoll & H).
    apply bind_Ok_inv in H as (? & w5 & _ & H).
    injection H as <- _. intros ln Hln.
    destruct (poll_shown _ _ _ _ _ _ _ _ _ Hpoll ln Hln) as [Hleft Hshown].
    split; [lia|done].
  - apply bind_Ok_inv in H as (? & w3 & _ & H).
    injection H as <- _. intros ln Hln. by apply elem_of_empty in Hln.
Qed.

Lemma for_each_date_shown nfc lxml browser G seen dates w S w' :
  for_each_date nfc lxml browser G seen dates w = (Ok S, w') →
  ∀ ln, ln ∈ S →
    ln ∈ seen ∨ ((0 < SEARCH_ATTEMPTS G)%Z ∧ shown nfc lxml browser ln).
Proof.
  revert seen w. induction dates as [|iso dates IH]; intros seen w; simpl.
  - intros [= <- _] ln Hln. by left.
  - intros H. apply bind_Ok_inv in H as (lines & w1 & Hlines & H).
    intros ln Hln. destruct (IH _ _ H ln Hln) as [Hin|Hnew]; [|by right].
    apply elem_of_union in Hin as [Hin|Hin]; [by left|right].
    by eapply lines_for_date_shown.
Qed.

(** What [fetch_all_slots] returns is the sorted list of a set of
    lines, each read off a page the browser showed. *)
Lemma fetch_all_slots_Ok_inv nfc lxml browser G w current w' :
  fetch_all_slots nfc lxml browser G w = (Ok current, w') →
  ∃ S : gset str,
    current = sorted_set S
    ∧ ∀ ln, ln ∈ S → (0 < SEARCH_ATTEMPTS G)%Z ∧ shown nfc lxml browser ln.
Proof.
  unfold fetch_all_slots. intros H.
  apply bind_Ok_inv in H as (today & w1 & _ & H).
  apply bind_Ok_inv in H as (dates & w2 & _ & H).
  apply bind_Ok_inv in H as (? & w3 & _ & H).
  apply bind_Ok_inv in H as (S & w4 & Hfin & H).
  injection H as <- _. exists S. split; [done|].
  apply finally_Ok_inv in Hfin as [w5 H].
  apply bind_Ok_inv in H as (? & w6 & _ & H).
  apply bind_Ok_inv in H as (? & w7 & _ & H).
  apply bind_Ok_inv in H as (? & w8 & _ & H).
  apply bind_Ok_inv in H as (seen & w9 & Hseen & H).
  apply bind_Ok_inv in H as (? & w10 & _ & H).
  injection H as <- _. intros ln Hln.
  destruct (for_each_date_shown _ _ _ _ _ _ _ _ _ Hseen ln Hln) as [Hin|Hnew];
    [|done].
  by apply elem_of_empty in Hin.
Qed.

(** X15. With [SEARCH_ATTEMPTS] set to zero or less
    [_lines_for_date] never reads the page, on any way out, and when
    it returns it returns the empty set. *)
Theorem lines_for_date_no_attempts nfc lxml browser G (iso : str) (w : World) :
  (SEARCH_ATTEMPTS G ≤ 0)%Z →
  (∃ calls,
     page_log (_lines_for_date nfc lxml browser G iso w).2 = page_log w ++ calls
     ∧ reads calls = 0)
  ∧ ∀ lines w',
      _lines_for_date nfc lxml browser G iso w = (Ok lines, w') → lines = ∅.
Proof.
  intros Hnone. split.
  - destruct (reads_lines_for_date nfc lxml browser G iso w)
      as (calls & Hlog & Hn).
    exists calls. split; [done|].
    replace (Z.to_nat (SEARCH_ATTEMPTS G)) with 0 in Hn by lia. lia.
  - intros lines w' Hlines.
    apply set_eq. intros ln. split; [|by intros ?%elem_of_empty].
    intros Hln.
    destruct (lines_for_date_shown _ _ _ _ _ _ _ _ Hlines ln Hln) as [Hpos _].
    lia.
Qed.

Lemma lines_for_date_no_attempts_witness :
  (∃ calls,
     page_log (_lines_for_date nfc_composed lxml_results browser_results
                 (globals_of env_no_attempts) (lit "2025-06-01") first_run).2
     = page_log first_run ++ calls
     ∧ reads calls = 0)
  ∧ ∀ lines w',
      _lines_for_date nfc_composed lxml_results browser_results
        (globals_of env_no_attempts) (lit "2025-06-01") first_run
      = (Ok lines, w') → lines = ∅.
Proof.
  apply (lines_for_date_no_attempts nfc_composed lxml_results browser_results
           (globals_of env_no_attempts) (lit "2025-06-01") first_run).
  by vm_compute.
Defined.

(** *** From one run to the next *)

Lemma card_line_canonical nfc card_div ln :
  _card_to_line nfc card_div = Ok (Some ln) → ∃ s, ln = _canonical nfc s.
Proof.
  unfold _card_to_line.
  destruct (select_one _ _ _) as [d|]; [|done].
  destruct (select_one _ _ _) as [t|]; [|done].
  destruct (_TIME_RE_search _) as [[start stop]|]; [|done].
  destruct (_normalise_date _) as [date_iso|]; result_simpl; [|done].
  destruct (find_previous _ _) as [h3|]; result_simpl; [|done].
  intros [= <-]. by eexists.
Qed.

(** The lines of a scrape are canonical, and none is empty. *)
Lemma fetch_all_slots_canonical nfc lxml browser G w current w' :
  NFC_laws nfc →
  fetch_all_slots nfc lxml browser G w = (Ok current, w') →
  ∃ S : gset str,
    current = sorted_set S
    ∧ ∀ ln, ln ∈ S → _canonical nfc ln = ln ∧ ln ≠ [].
Proof.
  intros Hnfc (S & -> & HS)%fetch_all_slots_Ok_inv.
  exists S. split; [done|]. intros ln Hln.
  destruct (HS ln Hln) as (_ & log & html & found & Hhtml & Hfound & Hin).
  apply (html_to_lines_elem _ _ _ _ ln Hfound) in Hin
    as (Hne & card_div & Hcard & Hline).
  split; [|done].
  apply card_line_canonical in Hline as [s ->]. by apply _canonical_fixed.
Qed.

Lemma main_Ok_inv nfc lxml browser relay policy G w w' :
  main nfc lxml browser relay policy G w = (Ok (), w') →
  ∃ current w1 w2,
    fetch_all_slots nfc lxml browser G w = (Ok current, w1)
    ∧ send_email relay policy G (new_lines current (previous nfc (snapshot w1))) w1
      = (Ok (), w2)
    ∧ snapshot w' = Some (join NL current)
    ∧ wire w' = wire w2 ∧ page_log w' = page_log w2.
Proof.
  intros Hmain.
  destruct (fetch_all_slots nfc lxml browser G w) as [[current|e] w1] eqn:Hfetch.
  2:{ unfold main, mbind, M_bind in Hmain. by rewrite Hfetch in Hmain. }
  rewrite (main_after_fetch _ _ _ _ _ _ _ _ _ Hfetch) in Hmain.
  exists current, w1.
  apply bind_Ok_inv in Hmain as ([] & w2 & Hsend & Hmain).
  exists w2. split; [done|]. split; [done|].
  apply bind_Ok_inv in Hmain as ([] & w3 & Hsave & Hmain).
  apply bind_Ok_inv in Hmain as ([] & w4 & Hprint & Hmain).
  unfold save_current, write_text in Hsave. injection Hsave as <-.
  unfold print in Hprint. injection Hprint as <-.
  assert (∀ new w5 w6, print_each new w5 = (Ok (), w6) →
            snapshot w6 = snapshot w5 ∧ wire w6 = wire w5
            ∧ page_log w6 = page_log w5) as Heach.
  { clear. induction new as [|ln new IH]; intros w5 w6; simpl.
    - by intros [= <-].
    - intros H. apply bind_Ok_inv in H as ([] & w7 & Hp & H).
      unfold print in Hp. injection Hp as <-.
      by destruct (IH _ _ H) as (-> & -> & ->). }
  by destruct (Heach _ _ _ Hmain) as (-> & -> & ->).
Qed.

Lemma previous_saved (nfc : str → str) (S : gset str) :
  (∀ ln, ln ∈ S → _canonical nfc ln = ln ∧ ln ≠ []) →
  previous nfc (Some (join NL (sorted_set S))) = S.
Proof.
  intros HS.
  destruct (save_then_load nfc S first_run) as (w1 & Hsave & Hsnap & Hload).
  - intros ln Hln. by apply HS.
  - intros ->. by destruct (HS [] ltac:(by apply elem_of_singleton)).
  - rewrite load_previous_spec, Hsnap in Hload. by injection Hload.
Qed.

(** X16. What a completed run leaves in the snapshot file is what the
    next run compares against: loading the file gives exactly the set
    of the lines the run scraped. *)
Theorem main_snapshot_loads_back nfc lxml browser relay policy G (w w' : World) :
  NFC_laws nfc →
  main nfc lxml browser relay policy G w = (Ok (), w') →
  ∃ current w1,
    fetch_all_slots nfc lxml browser G w = (Ok current, w1)
    ∧ snapshot w' = Some (join NL current)
    ∧ load_previous nfc w' = (Ok (list_to_set current), w').
Proof.
  intros Hnfc (current & w1 & w2 & Hfetch & _ & Hsnap & _)%main_Ok_inv.
  exists current, w1. split; [done|]. split; [done|].
  rewrite load_previous_spec, Hsnap.
  destruct (fetch_all_slots_canonical _ _ _ _ _ _ _ Hnfc Hfetch) as (S & -> & HS).
  by rewrite previous_saved, list_to_set_sorted_set.
Qed.

Lemma main_snapshot_loads_back_witness :
  ∃ current w1,
    fetch_all_slots nfc_composed lxml_results browser_results
      (globals_of env_short) first_run = (Ok current, w1)
    ∧ snapshot (main nfc_composed lxml_results browser_results relay_accepts
                  policy_accepts (globals_of env_short) first_run).2
      = Some (join NL current)
    ∧ load_previous nfc_composed
        (main nfc_composed lxml_results browser_results relay_accepts
           policy_accepts (globals_of env_short) first_run).2
      = (Ok (list_to_set current),
         (main nfc_composed lxml_results browser_results relay_accepts
            policy_accepts (globals_of env_short) first_run).2).
Proof.
  apply (main_snapshot_loads_back nfc_composed lxml_results browser_results
           relay_accepts policy_accepts (globals_of env_short) first_run).
  - by split.
  - by vm_compute.
Defined.

(** *** What the steps leave alone *)

Lemma leaves_ret {A B} (part : World → B) (a : A) : leaves part (mret a : M A).
Proof. by intros w. Qed.

Lemma leaves_lift {A B} (part : World → B) (r : result A) : leaves part (lift r).
Proof. by intros w. Qed.

Lemma leaves_date_today {B} (part : World → B) : leaves part date_today.
Proof. by intros w. Qed.

Lemma leaves_bind {A B C} (part : World → C) (c : M A) (k : A → M B) :
  leaves part c → (∀ a, leaves part (k a)) → leaves part (c ≫= k).
Proof.
  intros Hc Hk w. unfold mbind, M_bind. specialize (Hc w).
  destruct (c w) as [[a|e] w1]; simpl in *; [|done].
  by rewrite Hk.
Qed.

Lemma leaves_try_except {A B} (part : World → B) (c h : M A) caught :
  leaves part c → leaves part h → leaves part (try_except c caught h).
Proof.
  intros Hc Hh w. unfold try_except. specialize (Hc w).
  destruct (c w) as [[a|e] w1]; simpl in *; [done|].
  destruct (caught e); simpl; [|done]. by rewrite Hh.
Qed.

Lemma leaves_finally {A B} (part : World → B) (c : M A) cleanup :
  leaves part c → leaves part cleanup → leaves part (finally c cleanup).
Proof.
  intros Hc Hh w. unfold finally. specialize (Hc w).
  destruct (c w) as [r w1]. specialize (Hh w1).
  destruct (cleanup w1) as [[u|e] w2]; simpl in *; congruence.
Qed.

Lemma leaves_if {A B} (part : World → B) (b : bool) (c1 c2 : M A) :
  leaves part c1 → leaves part c2 → leaves part (if b then c1 else c2).
Proof. by destruct b. Qed.

Lemma leaves_wire_page browser c : leaves wire (page browser c).
Proof. by intros w. Qed.

Lemma leaves_wire_print line : leaves wire (print line).
Proof. by intros w. Qed.

Create HintDb leaves.

#[global] Hint Resolve leaves_ret leaves_lift leaves_date_today
  leaves_wire_page leaves_wire_print : leaves.

Ltac leaves_alone :=
  repeat first
    [ apply leaves_bind; [|intros ?]
    | apply leaves_if
    | apply leaves_try_except
    | apply leaves_finally
    | progress auto with leaves ].

Lemma leaves_wire_poll nfc lxml browser G left attempt :
  leaves wire (poll nfc lxml browser G left attempt).
Proof.
  revert attempt. induction left as [|left IH]; intros attempt; simpl;
    leaves_alone.
Qed.

#[global] Hint Resolve leaves_wire_poll : leaves.

Lemma leaves_wire_lines_for_date nfc lxml browser G iso :
  leaves wire (_lines_for_date nfc lxml browser G iso).
Proof.
  unfold _lines_for_date, _prepare_search, _select_date_safe. leaves_alone.
Qed.

#[global] Hint Resolve leaves_wire_lines_for_date : leaves.

Lemma leaves_wire_for_each_date nfc lxml browser G seen dates :
  leaves wire (for_each_date nfc lxml browser G seen dates).
Proof.
  revert seen. induction dates as [|iso dates IH]; intros seen; simpl;
    leaves_alone.
Qed.

#[global] Hint Resolve leaves_wire_for_each_date : leaves.

Lemma leaves_wire_fetch_all_slots nfc lxml browser G :
  leaves wire (fetch_all_slots nfc lxml browser G).
Proof. unfold fetch_all_slots, _login. leaves_alone. Qed.

(** X18. A run that follows a completed run and scrapes the same
    lines again finds nothing new: it sends nothing to the mail relay
    and writes the snapshot file with the text it already holds. *)
Theorem rerun_same_slots_silent nfc lxml browser relay policy G
    (w w1 w2 w3 : World) current :
  NFC_laws nfc →
  fetch_all_slots nfc lxml browser G w = (Ok current, w1) →
  main nfc lxml browser relay policy G w = (Ok (), w2) →
  fetch_all_slots nfc lxml browser G w2 = (Ok current, w3) →
  ∃ w4,
    main nfc lxml browser relay policy G w2 = (Ok (), w4)
    ∧ wire w4 = wire w2
    ∧ snapshot w4 = snapshot w2.
Proof.
  intros Hnfc Hfetch Hmain Hagain.
  apply main_Ok_inv in Hmain
    as (current' & w1' & w5 & Hfetch' & _ & Hsnap & _).
  rewrite Hfetch in Hfetch'. injection Hfetch' as <- <-.
  assert (snapshot w3 = snapshot w2) as Hsnap3.
  { pose proof (keeps_fetch_all_slots nfc lxml browser G w2) as H.
    by rewrite Hagain in H. }
  assert (wire w3 = wire w2) as Hwire3.
  { pose proof (leaves_wire_fetch_all_slots nfc lxml browser G w2) as H.
    by rewrite Hagain in H. }
  assert (new_lines current (previous nfc (snapshot w3)) = []) as Hnone.
  { rewrite Hsnap3, Hsnap.
    destruct (fetch_all_slots_canonical _ _ _ _ _ _ _ Hnfc Hfetch)
      as (S & -> & HS).
    rewrite previous_saved by done.
    destruct (new_lines (sorted_set S) S) as [|ln l] eqn:E; [done|].
    assert (ln ∈ new_lines (sorted_set S) S) as Hln by (rewrite E; left).
    apply elem_of_new_lines in Hln as [Hc Hp].
    exfalso. apply Hp. by apply elem_of_sorted_set. }
  assert (send_email relay policy G
            (new_lines current (previous nfc (snapshot w3))) w3 = (Ok (), w3))
    as Hsend by (apply send_email_skips; by left).
  destruct (main_saves _ _ _ _ _ _ _ _ _ _ Hagain Hsend) as (w4 & Hmain4 & Hsnap4).
  exists w4. split; [done|].
  apply main_Ok_inv in Hmain4
    as (current' & w3' & w6 & Hagain' & Hsend' & _ & Hwire & _).
  rewrite Hagain in Hagain'. injection Hagain' as <- <-.
  rewrite Hsend in Hsend'. injection Hsend' as <-.
  split; congruence.
Qed.

Lemma rerun_same_slots_silent_witness :
  ∃ w4,
    main nfc_composed lxml_results browser_results relay_accepts policy_accepts
      (globals_of env_short)
      (main nfc_composed lxml_results browser_results relay_accepts
         policy_accepts (globals_of env_short) first_run).2
    = (Ok (), w4)
    ∧ wire w4
      = wire (main nfc_composed lxml_results browser_results relay_accepts
                policy_accepts (globals_of env_short) first_run).2
    ∧ snapshot w4
      = snapshot (main nfc_composed lxml_results browser_results relay_accepts
                    policy_accepts (globals_of env_short) first_run).2.
Proof.
  eapply (rerun_same_slots_silent nfc_composed lxml_results browser_results
            relay_accepts policy_accepts (globals_of env_short) first_run
            _ _ _ two_slots).
  - by split.
  - by vm_compute.
  - by vm_compute.
  - by vm_compute.
Defined.

(** *** The mail session *)

(** With mail configured, a port that reads as a number and headers
    the policy stores, [send_email] is its mail session. *)
Lemma send_email_session getenv G relay policy (new : list str) (w : World)
    host port_text port user pass to :
  load_globals getenv = Ok G →
  new ≠ [] →
  mail_configured getenv host port_text user pass to →
  (∀ name v, policy name v = Ok ()) →
  int port_text = Some port →
  send_email relay policy G new w
  = (smtp relay (Connect host port);;
     finally
       (smtp relay StartTLS;;
        smtp relay (Login user pass);;
        smtp relay (SendMessage (message_for new user to)))
       (smtp relay Quit);;
     print ([128231%N] ++ lit "  Sent " ++ str_of_nat (length new)
            ++ lit " new slot(s) to " ++ to)) w.
Proof.
  intros Hload Hnew
    (Hhost & Hhost' & Hport & Hport' & Huser & Huser' & Hpass & Hpass'
     & Hto & Hto')
    Hpolicy Hint.
  assert (∀ k, k ∈ SMTP_KEYS → truthy (getenv k) = true) as Hset.
  { intros k Hk.
    repeat (apply elem_of_cons in Hk as [->|Hk];
            [rewrite ?Hhost, ?Hport, ?Huser, ?Hpass, ?Hto;
             by destruct host, port_text, user, pass, to|]).
    by apply elem_of_nil in Hk. }
  assert (SMTP_item G "SMTP_HOST" = Ok host) as Hi1
    by (eapply SMTP_item_set; [done|compute_done|done]).
  assert (SMTP_item G "SMTP_PORT" = Ok port_text) as Hi2
    by (eapply SMTP_item_set; [done|compute_done|done]).
  assert (SMTP_item G "SMTP_USER" = Ok user) as Hi3
    by (eapply SMTP_item_set; [done|compute_done|done]).
  assert (SMTP_item G "SMTP_PASS" = Ok pass) as Hi4
    by (eapply SMTP_item_set; [done|compute_done|done]).
  assert (SMTP_item G "SMTP_TO" = Ok to) as Hi5
    by (eapply SMTP_item_set; [done|compute_done|done]).
  unfold send_email.
  rewrite (bool_decide_eq_false_2 _ Hnew), (all_SMTP_values_set getenv G Hload Hset).
  cbn [orb negb].
  unfold mbind, M_bind, lift.
  repeat (progress (rewrite ?Hi1, ?Hi2, ?Hi3, ?Hi4, ?Hi5, ?Hint, ?Hpolicy);
          cbv beta iota).
  reflexivity.
Qed.

(** X19. With the five settings in place, a port that reads as a
    number, headers the policy stores and a relay that accepts each
    step, [send_email] holds exactly one session with the relay:
    connect, STARTTLS, login, one message, quit, and nothing else goes
    to the relay. The message has the count of new lines in its
    subject, the user as sender, the recipient, and the new lines
    joined by newlines as its content. The report is printed after the
    session is closed, so this is what reached the relay whatever
    becomes of the report. *)
Theorem send_email_delivers getenv G relay policy (new : list str) (w : World)
    host port_text port user pass to :
  load_globals getenv = Ok G →
  new ≠ [] →
  mail_configured getenv host port_text user pass to →
  (∀ name v, policy name v = Ok ()) →
  int port_text = Some port →
  accepted relay (wire w)
    [Connect host port; StartTLS; Login user pass;
     SendMessage (message_for new user to); Quit] →
  wire (send_email relay policy G new w).2
  = wire w ++ [Connect host port; StartTLS; Login user pass;
               SendMessage {| Subject := lit "[Ravenair Cloud] "
                                         ++ str_of_nat (length new)
                                         ++ lit " new booking slot(s)";
                              From := user; To := to;
                              content := join NL new |};
               Quit].
Proof.
  intros Hload Hnew Hconf Hpolicy Hint (H1 & H2 & H3 & H4 & H5 & _).
  rewrite (send_email_session getenv G relay policy new w host port_text port
             user pass to) by done.
  unfold mbind, M_bind, finally, smtp, print. cbn [wire stdout].
  rewrite H1. cbn [wire stdout]. rewrite H2. cbn [wire stdout].
  rewrite H3. cbn [wire stdout]. rewrite H4. cbn [wire stdout].
  rewrite H5. cbn [wire stdout snd].
  by rewrite <- !(assoc_L (++)).
Qed.

Lemma send_email_delivers_witness :
  wire (send_email relay_accepts policy_accepts (globals_of env_mail) [slot_Y]
          first_run).2
  = wire first_run
    ++ [Connect (lit "smtp.example.org") 587; StartTLS;
        Login (lit "scanner@example.org") (lit "secret");
        SendMessage {| Subject := lit "[Ravenair Cloud] "
                                  ++ str_of_nat (length [slot_Y])
                                  ++ lit " new booking slot(s)";
                       From := lit "scanner@example.org";
                       To := lit "pilot@example.org";
                       content := join NL [slot_Y] |};
        Quit].
Proof.
  apply (send_email_delivers env_mail _ _ _ _ _ _ (lit "587")).
  - reflexivity.
  - discriminate.
  - by repeat split.
  - reflexivity.
  - reflexivity.
  - by repeat split.
Defined.

Lemma finally_last_wire {A} relay (c : M A) stop w :
  last (wire (finally c (smtp relay stop) w).2) = Some stop.
Proof.
  unfold finally, smtp. destruct (c w) as [r w1].
  destruct (relay (wire w1) stop); simpl; by rewrite last_snoc.
Qed.

Lemma leaves_stdout_smtp relay c : leaves stdout (smtp relay c).
Proof. by intros w. Qed.

(** A session: connect, do something, quit whatever happened, report. *)
Lemma session_outcome relay connect (body : M unit) stop line w :
  leaves stdout body →
  (relay (wire w) connect = Ok () →
   last (wire ((smtp relay connect;; finally body (smtp relay stop);;
                print line) w).2) = Some stop)
  ∧ (∀ e, relay (wire w) connect = Raise e →
          ((smtp relay connect;; finally body (smtp relay stop);;
            print line) w).1 = Raise e
          ∧ wire ((smtp relay connect;; finally body (smtp relay stop);;
                   print line) w).2 = wire w ++ [connect])
  ∧ (∀ e, ((smtp relay connect;; finally body (smtp relay stop);;
            print line) w).1 = Raise e →
          stdout ((smtp relay connect;; finally body (smtp relay stop);;
                   print line) w).2 = stdout w).
Proof.
  intros Hbody. unfold mbind, M_bind. unfold smtp at 1 3 5 7 9.
  destruct (relay (wire w) connect) as [[]|e0].
  - match goal with |- context [finally body ?q ?w1] =>
      pose proof (finally_last_wire relay body stop w1) as Hlast;
      pose proof (leaves_finally stdout body q Hbody
                    (leaves_stdout_smtp relay stop) w1) as Hout;
      destruct (finally body q w1) as [[[]|e1] w2]
    end; simpl in *; repeat split; try done; by intros e [= ->].
  - repeat split; try done; by intros e [= ->].
Qed.

(** X20. Once the relay has accepted the connection, the session is
    closed on every way out: whatever the relay answers to STARTTLS,
    to the login or to the message, QUIT is the last thing sent. When
    the connection is refused nothing else is sent, and [send_email]
    raises what the connection raised. The line that reports the
    mail is printed only when [send_email] returns. *)
Theorem send_email_always_quits getenv G relay policy (new : list str)
    (w : World) host port_text port user pass to :
  load_globals getenv = Ok G →
  new ≠ [] →
  mail_configured getenv host port_text user pass to →
  (∀ name v, policy name v = Ok ()) →
  int port_text = Some port →
  (relay (wire w) (Connect host port) = Ok () →
   last (wire (send_email relay policy G new w).2) = Some Quit)
  ∧ (∀ e, relay (wire w) (Connect host port) = Raise e →
          (send_email relay policy G new w).1 = Raise e
          ∧ wire (send_email relay policy G new w).2
            = wire w ++ [Connect host port])
  ∧ (∀ e, (send_email relay policy G new w).1 = Raise e →
          stdout (send_email relay policy G new w).2 = stdout w).
Proof.
  intros Hload Hnew Hconf Hpolicy Hint.
  rewrite (send_email_session getenv G relay policy new w host port_text port
             user pass to) by done.
  apply session_outcome.
  repeat (apply leaves_bind; [|intros ?]); apply leaves_stdout_smtp.
Qed.

Lemma send_email_always_quits_witness :
  (relay_refuses_login (wire first_run) (Connect (lit "smtp.example.org") 587)
   = Ok () →
   last (wire (send_email relay_refuses_login policy_accepts
                 (globals_of env_mail) [slot_Y] first_run).2) = Some Quit)
  ∧ (∀ e, relay_refuses_login (wire first_run)
            (Connect (lit "smtp.example.org") 587) = Raise e →
          (send_email relay_refuses_login policy_accepts
             (globals_of env_mail) [slot_Y] first_run).1 = Raise e
          ∧ wire (send_email relay_refuses_login policy_accepts
                    (globals_of env_mail) [slot_Y] first_run).2
            = wire first_run ++ [Connect (lit "smtp.example.org") 587])
  ∧ (∀ e, (send_email relay_refuses_login policy_accepts
             (globals_of env_mail) [slot_Y] first_run).1 = Raise e →
          stdout (send_email relay_refuses_login policy_accepts
                    (globals_of env_mail) [slot_Y] first_run).2
          = stdout first_run).
Proof.
  apply (send_email_always_quits env_mail _ _ _ _ _ _ (lit "587") _
           (lit "scanner@example.org") (lit "secret")
           (lit "pilot@example.org")).
  - reflexivity.
  - discriminate.
  - by repeat split.
  - reflexivity.
  - reflexivity.
Defined.

(** *** The settings *)

Lemma getenv_int_Ok getenv name default n :
  int (lit default) = Some n →
  (∃ m, getenv_int getenv name default = Ok m
        ∧ (getenv name = None → m = n)
        ∧ (∀ v, getenv name = Some v → int v = Some m))
  ∨ (getenv_int getenv name default = Raise (ValueError "invalid literal for int()")
     ∧ ∃ v, getenv name = Some v ∧ int v = None).
Proof.
  intros Hdefault. unfold getenv_int. destruct (getenv name) as [v|]; simpl.
  - destruct (int v) as [m|] eqn:Hv.
    + left. exists m. repeat split; [done|]. by intros ? [= <-].
    + right. split; [done|]. by exists v.
  - rewrite Hdefault. left. exists n. repeat split; done.
Qed.

(** X21. The module loads exactly when each of its four numeric
    settings is either unset or text that [int] reads; otherwise it
    raises [ValueError]. A setting that is unset takes its default
    (57 days, 2500 ms, 2 attempts, not verbose); one that is set is
    read with [int]; [VERBOSE] is off for zero and on for any other
    number. *)
Theorem load_globals_numbers (getenv : string → option str) :
  ((∃ G, load_globals getenv = Ok G) ↔
   ∀ name v, name ∈ NUMBERS → getenv name = Some v → is_Some (int v))
  ∧ (∀ e, load_globals getenv = Raise e →
          e = ValueError "invalid literal for int()")
  ∧ (∀ G, load_globals getenv = Ok G →
       (getenv "DATE_WINDOW_DAYS"%string = None → DATE_WINDOW_DAYS G = 57%Z)
       ∧ (∀ v, getenv "DATE_WINDOW_DAYS"%string = Some v →
               int v = Some (DATE_WINDOW_DAYS G))
       ∧ (getenv "SEARCH_WAIT_MS"%string = None → SEARCH_WAIT_MS G = 2500%Z)
       ∧ (∀ v, getenv "SEARCH_WAIT_MS"%string = Some v →
               int v = Some (SEARCH_WAIT_MS G))
       ∧ (getenv "SEARCH_ATTEMPTS"%string = None → SEARCH_ATTEMPTS G = 2%Z)
       ∧ (∀ v, getenv "SEARCH_ATTEMPTS"%string = Some v →
               int v = Some (SEARCH_ATTEMPTS G))
       ∧ (getenv "VERBOSE"%string = None → VERBOSE G = false)
       ∧ (∀ v, getenv "VERBOSE"%string = Some v →
               ∃ n, int v = Some n ∧ (VERBOSE G = false ↔ n = 0%Z))).
Proof.
  unfold load_globals.
  destruct (getenv_int_Ok getenv "DATE_WINDOW_DAYS" "57" 57 eq_refl)
    as [(days & -> & Hd1 & Hd2)|[-> (v & Hv & Hbad)]]; result_simpl.
  2:{ split; [|split; [by intros e [= <-]|done]].
      split; [by intros [G ?]|]. intros Hall.
      destruct (Hall "DATE_WINDOW_DAYS"%string v ltac:(compute_done) Hv). congruence. }
  destruct (getenv_int_Ok getenv "SEARCH_WAIT_MS" "2500" 2500 eq_refl)
    as [(wait & -> & Hw1 & Hw2)|[-> (v & Hv & Hbad)]]; result_simpl.
  2:{ split; [|split; [by intros e [= <-]|done]].
      split; [by intros [G ?]|]. intros Hall.
      destruct (Hall "SEARCH_WAIT_MS"%string v ltac:(compute_done) Hv). congruence. }
  destruct (getenv_int_Ok getenv "SEARCH_ATTEMPTS" "2" 2 eq_refl)
    as [(attempts & -> & Ha1 & Ha2)|[-> (v & Hv & Hbad)]]; result_simpl.
  2:{ split; [|split; [by intros e [= <-]|done]].
      split; [by intros [G ?]|]. intros Hall.
      destruct (Hall "SEARCH_ATTEMPTS"%string v ltac:(compute_done) Hv). congruence. }
  destruct (getenv_int_Ok getenv "VERBOSE" "0" 0 eq_refl)
    as [(verbose & -> & Hv1 & Hv2)|[-> (v & Hv & Hbad)]]; result_simpl.
  2:{ split; [|split; [by intros e [= <-]|done]].
      split; [by intros [G ?]|]. intros Hall.
      destruct (Hall "VERBOSE"%string v ltac:(compute_done) Hv). congruence. }
  split; [|split; [done|]].
  - split; [|by eauto]. intros _ name v Hname Hv.
    repeat (apply elem_of_cons in Hname as [->|Hname]; [by eauto|]).
    by apply elem_of_nil in Hname.
  - intros G [= <-]. simpl. repeat split; try done.
    + intros Hnone. by rewrite (Hv1 Hnone).
    + intros v Hv. exists verbose. split; [by apply Hv2|].
      destruct (Z.eqb_spec verbose 0); simpl; split; done.
Qed.

(* ===================================================================== *)
(** ** C6: a card that is skipped, a card that ends the run *)
(* ===================================================================== *)



(** The sample run: the first page read has a card with its date in
    figures. [_lines_for_date] raises [ValueError] on its first read
    of the page; so does the run (line 155 read as closed), which
    leaves no snapshot, sends no mail and prints nothing. *)
Lemma numeric_date_ends_run :
  (∃ site w1,
     _lines_for_date nfc_composed lxml_numeric browser_results
       (globals_of env_short) (lit "2025-05-31") first_run
     = (Raise (ValueError site), w1)
     ∧ reads (page_log w1) = 1)
  ∧ ∃ site w1,
      main nfc_composed lxml_numeric browser_results relay_accepts
        policy_accepts (globals_of env_mail) first_run
      = (Raise (ValueError site), w1)
      ∧ snapshot w1 = None ∧ wire w1 = [] ∧ stdout w1 = [].
Proof. split; eexists _, _; by vm_compute. Qed.
